(** * Vehicle road-rule behaviour analyzer: the time codec, the violation
      detector and the report builder

    A shallow embedding of [parser.parse_time], [rules._fmt_time],
    [rules.detect_violations] and [report.make_report], together with the
    part of the Python runtime they rely on: [str] methods, [int()] and
    [float()] on strings, binary64 arithmetic, and [format] for the
    specifications [02d], [04.1f], [.1f] and [.0f]; then of
    [parser.read_log], [parser.load_scenario], the head of
    [rules.detect_violations] that reads the thresholds, and the mutant
    of the detector that reports every lane change.

    Conventions.
    - A Python [str] is a [string]: a sequence of code points below 256.
    - A Python [int] is a [Z].
    - A Python [float] is an IEEE 754 binary64 number given by its exact
      rational value; every arithmetic operation is the exact operation
      followed by rounding to nearest, ties to even ([round64]).
    - A call that may raise returns a [result]; the exception is kept by
      its class and origin. *)

From Stdlib Require Import ZArith QArith Qround Qabs Qpower Qreduction.
From Stdlib Require Import Lia Lqa Bool List String Ascii.
From Stdlib Require Import Permutation Sorted.
Import ListNotations.

Local Open Scope Z_scope.

(** ** Exceptions *)

Inductive exn : Type :=
| BadIntLiteral (s : string)     (* ValueError raised by int(s) *)
| BadFloatLiteral (s : string)   (* ValueError raised by float(s) *)
| NanToInt                       (* ValueError: cannot convert float NaN to integer *)
| InfToInt                       (* OverflowError: cannot convert float infinity to integer *)
| IntTooLarge                    (* OverflowError: int too large to convert to float *)
| BadTimestamp (ts : string)     (* ValueError(f"bad timestamp: {ts!r}") *)
| UnknownEventKind (kind : string). (* ValueError(f"unknown kind: {kind}") *)

Inductive result (A : Type) : Type :=
| Ok (a : A)
| Raise (e : exn).

Arguments Ok {A} a.
Arguments Raise {A} e.

Definition bind {A B : Type} (c : result A) (k : A -> result B) : result B :=
  match c with
  | Ok a => k a
  | Raise e => Raise e
  end.

Notation "x <- c ;; k" := (bind c (fun x => k))
  (at level 61, c at next level, right associativity).

Definition is_ok {A : Type} (c : result A) : bool :=
  match c with Ok _ => true | Raise _ => false end.

(** ** Python strings *)

Module PyStr.

Definition code (c : ascii) : N := N_of_ascii c.

(** [str.isspace] on one code point below 256. *)
Definition is_space (c : ascii) : bool :=
  let n := code c in
  ((9 <=? n) && (n <=? 13) || (28 <=? n) && (n <=? 32)
   || (n =? 133) || (n =? 160))%N.

(** The white space that [int()] and [float()] skip around a literal. *)
Definition is_numeric_space (c : ascii) : bool :=
  let n := code c in
  ((9 <=? n) && (n <=? 13) || (n =? 32) || (n =? 133) || (n =? 160))%N.

Fixpoint drop_while (p : ascii -> bool) (cs : list ascii) : list ascii :=
  match cs with
  | c :: cs' => if p c then drop_while p cs' else cs
  | [] => []
  end.

Definition strip_with (p : ascii -> bool) (cs : list ascii) : list ascii :=
  rev (drop_while p (rev (drop_while p cs))).

(** [s.strip()] *)
Definition strip (s : string) : string :=
  string_of_list_ascii (strip_with is_space (list_ascii_of_string s)).

(** [s.split(sep)] for a one-character separator: the pieces between
    consecutive separators, always at least one piece. *)
Fixpoint split_chars (sep : ascii) (cs : list ascii) : list (list ascii) :=
  match cs with
  | [] => [[]]
  | c :: cs' =>
      if Ascii.eqb c sep then [] :: split_chars sep cs'
      else match split_chars sep cs' with
           | p :: ps => (c :: p) :: ps
           | [] => [[c]]
           end
  end.

Definition split (sep : ascii) (s : string) : list string :=
  map string_of_list_ascii (split_chars sep (list_ascii_of_string s)).

(** [s.replace(c, empty)] for a one-character [c] and the empty string. *)
Definition remove_char (c : ascii) (s : string) : string :=
  string_of_list_ascii
    (filter (fun x => negb (Ascii.eqb x c)) (list_ascii_of_string s)).

Definition count_char (c : ascii) (s : string) : nat :=
  List.length (filter (Ascii.eqb c) (list_ascii_of_string s)).

(** Decimal digits. *)
Definition is_digit (c : ascii) : bool :=
  let n := code c in ((48 <=? n) && (n <=? 57))%N.

Definition digit_val (c : ascii) : Z := Z.of_N (code c) - 48.

Definition digit_char (d : Z) : ascii := ascii_of_N (Z.to_N (d + 48)).

(** The number written by a list of digits, most significant first. *)
Definition digits_val (ds : list ascii) : Z :=
  fold_left (fun acc d => 10 * acc + digit_val d) ds 0.

Fixpoint digits_fuel (fuel : nat) (n : Z) : list ascii :=
  match fuel with
  | O => [digit_char (n mod 10)]
  | S fuel' =>
      if n <? 10 then [digit_char n]
      else digits_fuel fuel' (n / 10) ++ [digit_char (n mod 10)]
  end.

(** The decimal digits of a natural number, without leading zeros. *)
Definition digits_of (n : Z) : list ascii :=
  digits_fuel (Z.to_nat (Z.log2 n)) n.

(** A "digitpart" of the numeric grammar: digits, with single underscores
    allowed between two digits.  [scan_digitpart cs] consumes the longest
    digitpart at the head of [cs] and returns its digits and the rest. *)
Definition is_underscore (c : ascii) : bool := Ascii.eqb c "_".

Fixpoint scan_more (cs : list ascii) : list ascii * list ascii :=
  match cs with
  | [] => ([], [])
  | c :: cs' =>
      if is_digit c then
        let (ds, r) := scan_more cs' in (c :: ds, r)
      else if is_underscore c then
        match cs' with
        | d :: cs'' =>
            if is_digit d then
              let (ds, r) := scan_more cs'' in (d :: ds, r)
            else ([], cs)
        | [] => ([], cs)
        end
      else ([], cs)
  end.

Definition scan_digitpart (cs : list ascii) : list ascii * list ascii :=
  match cs with
  | c :: cs' =>
      if is_digit c then let (ds, r) := scan_more cs' in (c :: ds, r)
      else ([], cs)
  | [] => ([], [])
  end.

(** An optional sign; [true] stands for [-]. *)
Definition scan_sign (cs : list ascii) : bool * list ascii :=
  match cs with
  | c :: cs' =>
      if Ascii.eqb c "-" then (true, cs')
      else if Ascii.eqb c "+" then (false, cs')
      else (false, cs)
  | [] => (false, [])
  end.

Definition lower (c : ascii) : ascii :=
  let n := code c in
  if ((65 <=? n) && (n <=? 90))%N then ascii_of_N (n + 32) else c.

End PyStr.

(** ** Python integers *)

Module PyInt.
Import PyStr.

(** [int(s)] in base ten: optional surrounding white space, an optional
    sign, one digitpart.  (The limit on the number of digits that recent
    interpreters place on the literal is not modelled.) *)
Definition of_chars (cs : list ascii) : option Z :=
  let (neg, body) := scan_sign (strip_with is_numeric_space cs) in
  match scan_digitpart body with
  | (d :: ds, []) =>
      let n := digits_val (d :: ds) in Some (if neg then - n else n)
  | _ => None
  end.

Definition of_string (s : string) : result Z :=
  match of_chars (list_ascii_of_string s) with
  | Some n => Ok n
  | None => Raise (BadIntLiteral s)
  end.

Definition zeros (n : nat) : list ascii := repeat "0"%char n.

(** Sign-aware zero padding to a minimal width: the fill goes between the
    sign and the digits, as [format] does for a leading [0] in the
    specification. *)
Definition zero_pad (width : nat) (neg : bool) (body : list ascii) : list ascii :=
  let sign := if neg then ["-"%char] else [] in
  sign ++ zeros (width - List.length sign - List.length body) ++ body.

(** [format(n, "0<width>d")] *)
Definition format_d (width : nat) (n : Z) : string :=
  string_of_list_ascii (zero_pad width (n <? 0) (digits_of (Z.abs n))).

End PyInt.

(** ** Python floats *)

Module PyFloat.
Import PyStr.

Local Open Scope Q_scope.

(** A binary64 number.  [Ffin v] is a finite nonzero number of exact value
    [v]; the two zeros are kept apart because [format] and [copysign]
    tell them apart. *)
Inductive float : Type :=
| Fnan
| Finf (neg : bool)
| Fzero (neg : bool)
| Ffin (v : Q).

Definition value (x : float) : Q :=
  match x with Ffin v => v | _ => 0 end.

Definition sign (x : float) : bool :=
  match x with
  | Fnan => false
  | Finf neg | Fzero neg => neg
  | Ffin v => (Qnum v <? 0)%Z
  end.

Definition pow2 (e : Z) : Q := 2 ^ e.

Definition Qltb (x y : Q) : bool :=
  match x ?= y with Lt => true | _ => false end.

(** [ilog2 x] is the integer [g] with [2^g <= |x| < 2^(g+1)], for [x <> 0]. *)
Definition ilog2 (x : Q) : Z :=
  let g := (Z.log2 (Z.abs (Qnum x)) - Z.log2 (Zpos (Qden x)))%Z in
  if Qle_bool (pow2 g) (Qabs x) then g else (g - 1)%Z.

(** The nearest integer, ties to the even one. *)
Definition round_half_even (x : Q) : Z :=
  let f := Qfloor x in
  match ((x - inject_Z f) ?= (1 # 2))%Q with
  | Lt => f
  | Gt => (f + 1)%Z
  | Eq => if Z.even f then f else (f + 1)%Z
  end.

(** Rounding of an exact result to binary64: 53 significant bits, least
    exponent -1074; the rounded value is [k * 2^e], and it overflows to
    infinity when it reaches [2^1024], that is when the leading bit of [k]
    has weight [2^1024] or more.  A result that rounds to zero keeps the
    sign of [x]; [round64 0] is [+0.0]. *)
Definition round64 (x : Q) : float :=
  let e := Z.max (ilog2 x - 52) (-1074) in
  let k := round_half_even (x / pow2 e) in
  if (k =? 0)%Z then Fzero (Qnum x <? 0)%Z
  else if (1024 <=? Z.log2 (Z.abs k) + e)%Z then Finf (Qnum x <? 0)%Z
  else Ffin (Qred (inject_Z k * pow2 e)).

(** [x < y]; false as soon as one side is a NaN.  [x > y] is [flt y x]. *)
Definition flt (x y : float) : bool :=
  match x, y with
  | Fnan, _ | _, Fnan => false
  | Finf nx, Finf ny => nx && negb ny
  | Finf nx, _ => nx
  | _, Finf ny => negb ny
  | _, _ => Qltb (value x) (value y)
  end.

Definition fneg (x : float) : float :=
  match x with
  | Fnan => Fnan
  | Finf neg => Finf (negb neg)
  | Fzero neg => Fzero (negb neg)
  | Ffin v => Ffin (- v)
  end.

Definition fadd (x y : float) : float :=
  match x, y with
  | Fnan, _ | _, Fnan => Fnan
  | Finf a, Finf b => if Bool.eqb a b then Finf a else Fnan
  | Finf a, _ => Finf a
  | _, Finf b => Finf b
  | Fzero a, Fzero b => Fzero (a && b)
  | _, _ =>
      let r := value x + value y in
      if Qeq_bool r 0 then Fzero false else round64 r
  end.

Definition fsub (x y : float) : float := fadd x (fneg y).

Definition fdiv (x y : float) : float :=
  match x, y with
  | Fnan, _ | _, Fnan => Fnan
  | Finf _, Finf _ => Fnan
  | Finf a, _ => Finf (xorb a (sign y))
  | _, Finf b => Fzero (xorb (sign x) b)
  | Fzero _, Fzero _ => Fnan
  | Fzero a, Ffin _ => Fzero (xorb a (sign y))
  | Ffin _, Fzero b => Finf (xorb (sign x) b)
  | Ffin v, Ffin w => round64 (v / w)
  end.

(** Truncation toward zero. *)
Definition Qtrunc (x : Q) : Z := Z.quot (Qnum x) (Zpos (Qden x)).

(** C's [fmod]: the remainder has the sign of [x] and is always exact. *)
Definition fmod (x y : float) : float :=
  match x, y with
  | Fnan, _ | _, Fnan => Fnan
  | Finf _, _ => Fnan
  | _, Fzero _ => Fnan
  | _, Finf _ => x
  | Fzero _, Ffin _ => x
  | Ffin v, Ffin w =>
      let r := v - w * inject_Z (Qtrunc (v / w)) in
      if Qeq_bool r 0 then Fzero (sign x) else Ffin (Qred r)
  end.

(** C's [floor]: exact. *)
Definition ffloor (x : float) : float :=
  match x with
  | Ffin v =>
      let f := Qfloor v in
      if (f =? 0)%Z then Fzero false else Ffin (inject_Z f)
  | _ => x
  end.

(** C's [copysign]. *)
Definition copysign (x y : float) : float :=
  match x with
  | Fnan => Fnan
  | Finf _ => Finf (sign y)
  | Fzero _ => Fzero (sign y)
  | Ffin v => Ffin (if sign y then - Qabs v else Qabs v)
  end.

(** The C test [if (x)]: [x != 0.0]. *)
Definition nonzero (x : float) : bool :=
  match x with Fzero _ => false | _ => true end.

Definition one : float := Ffin 1.
Definition half : float := Ffin (1 # 2).

(** [vx // wx] for [wx <> 0.0], as the interpreter computes it
    ([float_floor_div] over [_float_div_mod] in floatobject.c). *)
Definition floordiv (vx wx : float) : float :=
  let rem := fmod vx wx in
  let div := fdiv (fsub vx rem) wx in
  let div :=
    if nonzero rem && negb (Bool.eqb (flt wx (Fzero false)) (flt rem (Fzero false)))
    then fsub div one else div in
  if nonzero div then
    let fl := ffloor div in
    if flt half (fsub div fl) then fadd fl one else fl
  else copysign (Fzero false) (fdiv vx wx).

(** [int(x)] *)
Definition to_int (x : float) : result Z :=
  match x with
  | Fnan => Raise NanToInt
  | Finf _ => Raise InfToInt
  | Fzero _ => Ok 0%Z
  | Ffin v => Ok (Qtrunc v)
  end.

(** The conversion of an [int] operand of a float operation. *)
Definition of_int (n : Z) : result float :=
  match round64 (inject_Z n) with
  | Finf _ => Raise IntTooLarge
  | x => Ok x
  end.

(** The value of the decimal literal [(-1)^neg * m * 10^e]. *)
Definition of_decimal (neg : bool) (m e : Z) : float :=
  if (m =? 0)%Z then Fzero neg
  else round64 (inject_Z (if neg then - m else m) * 10 ^ e).

Definition word_is (w : string) (cs : list ascii) : bool :=
  String.eqb (string_of_list_ascii (map lower cs)) w.

(** The exponent part of a literal: nothing, or [e], a sign and a
    digitpart.  Returns the exponent and what follows it. *)
Definition scan_exponent (cs : list ascii) : option (Z * list ascii) :=
  match cs with
  | c :: r =>
      if Ascii.eqb (lower c) "e" then
        let (eneg, r') := scan_sign r in
        match scan_digitpart r' with
        | (d :: ds, r'') =>
            let n := digits_val (d :: ds) in
            Some (if eneg then (- n)%Z else n, r'')
        | _ => None
        end
      else Some (0%Z, cs)
  | [] => Some (0%Z, [])
  end.

(** [float(s)]: optional surrounding white space, an optional sign, then
    [inf], [infinity] or [nan] in any case, or a decimal literal with an
    optional fraction and exponent.  The result is the literal's exact
    value correctly rounded. *)
Definition of_chars (cs : list ascii) : option float :=
  let (neg, body) := scan_sign (strip_with is_numeric_space cs) in
  if word_is "inf" body || word_is "infinity" body then Some (Finf neg)
  else if word_is "nan" body then Some Fnan
  else
    let (ip, r1) := scan_digitpart body in
    let (fp, r2) :=
      match r1 with
      | c :: r => if Ascii.eqb c "." then scan_digitpart r else ([], r1)
      | [] => ([], [])
      end in
    match ip ++ fp with
    | [] => None
    | _ :: _ =>
        match scan_exponent r2 with
        | Some (e, []) =>
            Some (of_decimal neg (digits_val (ip ++ fp))
                    (e - Z.of_nat (List.length fp)))
        | _ => None
        end
    end.

Definition of_string (s : string) : result float :=
  match of_chars (list_ascii_of_string s) with
  | Some x => Ok x
  | None => Raise (BadFloatLiteral s)
  end.

(** The digits of [format(x, ".<prec>f")] for a finite [x], without sign:
    [|x|] rounded to [prec] decimals, ties to even on the exact value. *)
Definition fixed_digits (prec : nat) (v : Q) : list ascii :=
  let scale := (10 ^ Z.of_nat prec)%Z in
  let n := round_half_even (Qabs v * inject_Z scale) in
  let frac := digits_of (n mod scale)%Z in
  digits_of (n / scale)%Z
    ++ match prec with
       | O => []
       | S _ => "."%char :: PyInt.zeros (prec - List.length frac) ++ frac
       end.

(** [format(x, "0<width>.<prec>f")]; width 0 stands for no width. *)
Definition format_f (width prec : nat) (x : float) : string :=
  string_of_list_ascii
    match x with
    | Fnan => PyInt.zero_pad width false (list_ascii_of_string "nan")
    | Finf neg => PyInt.zero_pad width neg (list_ascii_of_string "inf")
    | Fzero neg => PyInt.zero_pad width neg (fixed_digits prec 0)
    | Ffin v => PyInt.zero_pad width (Qnum v <? 0)%Z (fixed_digits prec v)
    end.

(** [x] is a double: [k * 2^e] with [|k| < 2^53], [-1074 <= e] and
    [|x| < 2^1024], and nonzero. *)
Definition is_double (v : Q) : Prop :=
  exists k e : Z,
    v == inject_Z k * pow2 e /\ (0 < Z.abs k < 2 ^ 53)%Z
    /\ (-1074 <= e)%Z /\ Qabs v < pow2 1024.

End PyFloat.

(** ** parser.py: the time codec, text to seconds *)

Module Parser.
Import PyFloat.

(** The body of the [try] block of [parse_time]. *)
Definition parse_time_try (ts : string) : result float :=
  match PyStr.split ":" ts with
  | [minutes; seconds] =>
      m <- PyInt.of_string minutes ;;
      s <- PyFloat.of_string seconds ;;
      m60 <- PyFloat.of_int (m * 60) ;;
      Ok (fadd m60 s)
  | _ => Raise (BadTimestamp ts)
  end.

(** [parse_time(ts)]: every exception of the body is replaced by
    [ValueError(f"bad timestamp: {ts!r}")]. *)
Definition parse_time (ts : string) : result float :=
  match parse_time_try ts with
  | Ok x => Ok x
  | Raise _ => Raise (BadTimestamp ts)
  end.

End Parser.

(** ** rules.py: the violation detector *)

Module Rules.
Import PyFloat.

Local Open Scope string_scope.

(** [_fmt_time(t)] *)
Definition _fmt_time (t : float) : result string :=
  m <- to_int (floordiv t (Ffin 60)) ;;
  m60 <- of_int (m * 60) ;;
  let s := fsub t m60 in
  Ok (PyInt.format_d 2 m ++ ":" ++ format_f 4 1 s).

(** [scenario["road_rules"]], its three entries already converted by
    [float(...)]. *)
Record road_rules : Type := {
  max_speed : float;
  min_follow_distance : float;
  stop_sign_wait : float
}.

(** An event [(t, kind, arg)]. *)
Definition Event : Type := float * string * string.

(** A violation [{"type": ..., "time": ..., "details": ...}]. *)
Record violation : Type := {
  type : string;
  time : string;
  details : string
}.

(** The two local variables that the loop carries from event to event. *)
Record detector_state : Type := {
  last_follow : option float;
  stop_detect_time : option float
}.

Definition initial_state : detector_state :=
  {| last_follow := None; stop_detect_time := None |}.

Section Detector.
Variable rules : road_rules.

(** A violation of kind [ty] at time [t]; the details are built first,
    then the time is formatted. *)
Definition emit (ty : string) (t : float) (text : string)
  : result (list violation) :=
  tm <- _fmt_time t ;;
  Ok [{| type := ty; time := tm; details := text |}].

Definition speeding_details (speed : float) : string :=
  format_f 0 1 speed ++ " mph in " ++ format_f 0 0 (max_speed rules)
    ++ " mph zone".

Definition rolling_stop_details (waited : float) : string :=
  "Stopped " ++ format_f 0 1 waited ++ "s; required "
    ++ format_f 0 1 (stop_sign_wait rules) ++ "s".

Definition tailgating_details (dist : float) : string :=
  format_f 0 1 dist ++ " m < " ++ format_f 0 1 (min_follow_distance rules)
    ++ " m".

Definition unsafe_lane_change_details (dist : float) : string :=
  "follow " ++ format_f 0 1 dist ++ " m < "
    ++ format_f 0 1 (min_follow_distance rules) ++ " m".

(** One iteration of the loop of [detect_violations]: the state after the
    event and the violations appended while processing it. *)
Definition process (st : detector_state) (ev : Event)
  : result (detector_state * list violation) :=
  let '(t, kind, arg) := ev in
  if kind =? "SPEED" then
    speed <- of_string arg ;;
    v1 <- (if flt (max_speed rules) speed
           then emit "SPEEDING" t (speeding_details speed)
           else Ok []) ;;
    match stop_detect_time st with
    | Some t0 =>
        if flt one speed && flt t0 t then
          let waited := fsub t t0 in
          v2 <- (if flt waited (stop_sign_wait rules)
                 then emit "ROLLING_STOP" t (rolling_stop_details waited)
                 else Ok []) ;;
          Ok ({| last_follow := last_follow st; stop_detect_time := None |},
              (v1 ++ v2)%list)
        else Ok (st, v1)
    | None => Ok (st, v1)
    end
  else if kind =? "FOLLOW_DISTANCE" then
    dist <- of_string arg ;;
    let st' := {| last_follow := Some dist;
                  stop_detect_time := stop_detect_time st |} in
    v <- (if flt dist (min_follow_distance rules)
          then emit "TAILGATING" t (tailgating_details dist)
          else Ok []) ;;
    Ok (st', v)
  else if kind =? "LANE_CHANGE" then
    match last_follow st with
    | Some d =>
        if flt d (min_follow_distance rules) then
          v <- emit "UNSAFE_LANE_CHANGE" t (unsafe_lane_change_details d) ;;
          Ok (st, v)
        else Ok (st, [])
    | None => Ok (st, [])
    end
  else if kind =? "STOP_SIGN_DETECTED" then
    Ok ({| last_follow := last_follow st; stop_detect_time := Some t |}, [])
  else Raise (UnknownEventKind kind).

(** The whole loop, from a given state: the final state and the list of
    violations in the order of emission. *)
Fixpoint scan (st : detector_state) (events : list Event)
  : result (detector_state * list violation) :=
  match events with
  | [] => Ok (st, [])
  | ev :: rest =>
      r <- process st ev ;;
      r' <- scan (fst r) rest ;;
      Ok (fst r', (snd r ++ snd r')%list)
  end.

End Detector.

(** The sort key: [float] of the [time] field with [:] and [.] replaced by
    the empty string. *)
Definition sort_key (v : violation) : result float :=
  of_string (PyStr.remove_char "." (PyStr.remove_char ":" (time v))).

(** [list.sort(key=...)] computes the key of every element first, then
    sorts on the keys with [<] alone, keeping elements that compare equal
    in their original order.  On keys that [<] orders (no NaN) a stable
    sort has one possible result; it is computed here by insertion. *)
Fixpoint keyed (vs : list violation) : result (list (float * violation)) :=
  match vs with
  | [] => Ok []
  | v :: rest =>
      k <- sort_key v ;;
      kvs <- keyed rest ;;
      Ok ((k, v) :: kvs)
  end.

Fixpoint insert (x : float * violation) (l : list (float * violation))
  : list (float * violation) :=
  match l with
  | [] => [x]
  | y :: l' => if flt (fst y) (fst x) then y :: insert x l' else x :: y :: l'
  end.

Fixpoint stable_sort (l : list (float * violation))
  : list (float * violation) :=
  match l with
  | [] => []
  | x :: l' => insert x (stable_sort l')
  end.

Definition sort_by_time (vs : list violation) : result (list violation) :=
  kvs <- keyed vs ;;
  Ok (map snd (stable_sort kvs)).

(** [detect_violations(scenario, events)] *)
Definition detect_violations (rules : road_rules) (events : list Event)
  : result (list violation) :=
  r <- scan rules initial_state events ;;
  sort_by_time (snd r).

End Rules.

(** ** report.py: the report builder *)

Module Report.

Local Open Scope string_scope.

(** The values a scenario entry may hold whose [bool()] and [str()] are
    modelled: [None], a [bool], an [int], a [str]. *)
Inductive pyvalue : Type :=
| PNone
| PBool (b : bool)
| PInt (n : Z)
| PStr (s : string).

(** [bool(x)], the test of [not name]. *)
Definition truthy (x : pyvalue) : bool :=
  match x with
  | PNone => false
  | PBool b => b
  | PInt n => negb (n =? 0)%Z
  | PStr s => negb (s =? EmptyString)
  end.

(** [str(x)] *)
Definition str (x : pyvalue) : string :=
  match x with
  | PNone => "None"
  | PBool true => "True"
  | PBool false => "False"
  | PInt n => PyInt.format_d 0 n
  | PStr s => s
  end.

(** A scenario [dict], by its entries; [None] when the caller passes no
    scenario. *)
Definition dict : Type := list (string * pyvalue).

(** [d.get(key)]: the value under [key], or [None]. *)
Fixpoint get (d : dict) (key : string) : pyvalue :=
  match d with
  | [] => PNone
  | (k, v) :: d' => if k =? key then v else get d' key
  end.

Record report : Type := {
  scenario : string;
  violations : list Rules.violation;
  total_violations : Z
}.

(** [make_report(scenario, violations)] *)
Definition make_report (scenario : option dict)
    (violations : list Rules.violation) : report :=
  let report_name :=
    match scenario with
    | None => "Unnamed"
    | Some d =>
        let name := get d "name" in
        if negb (truthy name) || negb (truthy (PStr (PyStr.strip (str name))))
        then "Unnamed"
        else PyStr.strip (str name)
    end in
  {| scenario := report_name;
     violations := violations;
     total_violations := Z.of_nat (List.length violations) |}.

End Report.

(** ** Vocabulary of the properties *)

Module Props.
Import PyFloat Rules.

Local Open Scope string_scope.

(** [x == y] on floats. *)
Definition feq (x y : float) : bool :=
  match x, y with
  | Fnan, _ | _, Fnan => false
  | Finf a, Finf b => Bool.eqb a b
  | Finf _, _ | _, Finf _ => false
  | _, _ => Qeq_bool (value x) (value y)
  end.

(** [x <= y] on floats. *)
Definition fle (x y : float) : bool := flt x y || feq x y.

Definition is_nan (x : float) : bool :=
  match x with Fnan => true | _ => false end.

(** The timestamp can be written as [MM:SS.s]: [_fmt_time] does not
    raise on it. *)
Definition formattable (t : float) : bool := is_ok (_fmt_time t).

Definition known_kind (kind : string) : bool :=
  (kind =? "SPEED") || (kind =? "FOLLOW_DISTANCE")
  || (kind =? "LANE_CHANGE") || (kind =? "STOP_SIGN_DETECTED").

(** An event that the loop body can process whatever the state: a known
    kind, a numeric argument where one is read, a timestamp that can be
    formatted. *)
Definition event_ok (ev : Event) : bool :=
  let '(t, kind, arg) := ev in
  formattable t && known_kind kind
  && (if (kind =? "SPEED") || (kind =? "FOLLOW_DISTANCE")
      then is_ok (of_string arg) else true).

(** The number of violations of a given type in a list. *)
Definition count_type (ty : string) (vs : list violation) : nat :=
  List.length (filter (fun v => type v =? ty) vs).

(** A SPEED event that resolves a wait opened at [t0]: it is read after
    the stop sign, above 1.0. *)
Definition resolves (t0 : float) (ev : Event) : bool :=
  let '(t, kind, arg) := ev in
  (kind =? "SPEED")
  && match of_string arg with
     | Ok v => flt one v && flt t0 t
     | Raise _ => false
     end.

Definition is_stop_sign (ev : Event) : bool :=
  let '(_, kind, _) := ev in kind =? "STOP_SIGN_DETECTED".

Definition is_follow_distance (ev : Event) : bool :=
  let '(_, kind, _) := ev in kind =? "FOLLOW_DISTANCE".


(** The sort key of [v] equals [k]. *)
Definition has_key (k : float) (v : violation) : bool :=
  match sort_key v with
  | Ok kv => feq kv k
  | Raise _ => false
  end.

(** The last follow distance after one more event. *)
Definition follow_update (acc : option float) (ev : Event) : option float :=
  let '(_, kind, arg) := ev in
  if kind =? "FOLLOW_DISTANCE" then
    match of_string arg with Ok d => Some d | Raise _ => acc end
  else acc.

(** The distance of the last FOLLOW_DISTANCE event of a sequence. *)
Definition latest_follow (events : list Event) : option float :=
  fold_left follow_update events None.

Definition timestamp (ev : Event) : float := fst (fst ev).

(** [v] carries the formatted time of [t]. *)
Definition stamped (t : float) (v : violation) : Prop :=
  _fmt_time t = Ok (time v).

(** Violations with their sort keys.  [a] may stand before [b]: the key
    of [b] is not less. *)
Definition in_order (a b : float * violation) : Prop :=
  flt (fst b) (fst a) = false.



Definition has_digit (cs : list ascii) : bool := existsb PyStr.is_digit cs.

Definition all_digits (l : list ascii) : Prop :=
  Forall (fun c => PyStr.is_digit c = true) l.

(** [t <= t'] *)
Definition time_le (t t' : float) : Prop := fle t t' = true.

End Props.

(** ** Vocabulary of the exact range

    Below [2^53] seconds the arithmetic of [_fmt_time] is exact; these
    are the numbers it computes there. *)

Module Exact.
Import PyFloat.

Local Open Scope Q_scope.

(** The exponent and the integral significand that [round64] picks, and
    the value they stand for, before the tests for zero and overflow. *)
Definition rexp (x : Q) : Z := Z.max (ilog2 x - 52) (-1074).
Definition rmant (x : Q) : Z := round_half_even (x / pow2 (rexp x)).
Definition rounded (x : Q) : Q := inject_Z (rmant x) * pow2 (rexp x).

(** [x] is the non-negative number [q]: [+0.0] when [q] is zero. *)
Definition holds (x : float) (q : Q) : Prop :=
  0 <= q
  /\ match x with
     | Fzero neg => neg = false /\ q == 0
     | Ffin v => v == q /\ ~ q == 0
     | _ => False
     end.

(** [q] is zero or a double. *)
Definition representable (q : Q) : Prop := q == 0 \/ is_double q.

(** A time stamp from [+0.0] up to, and without, [2^53]. *)
Definition timestamp_in_range (t : float) : Prop :=
  match t with
  | Fzero neg => neg = false
  | Ffin v => is_double v /\ 0 < v /\ v < pow2 53
  | _ => False
  end.

(** The minutes and the seconds that [_fmt_time] splits a time into, and
    the tenths of a second that [format(s, "04.1f")] shows. *)
Definition minutes_of (v : Q) : Z := Qfloor (v / 60).
Definition seconds_of (v : Q) : Q := v - 60 * inject_Z (minutes_of v).
Definition tenths_of (v : Q) : Z :=
  round_half_even (Qabs (seconds_of v) * inject_Z (10 ^ Z.of_nat 1)).

(** The text of the seconds, from the tenths. *)
Definition seconds_text (r : Z) : string :=
  string_of_list_ascii
    (PyInt.zero_pad 4 false
       (PyStr.digits_of (r / 10)
          ++ "."%char
             :: PyInt.zeros (1 - List.length (PyStr.digits_of (r mod 10)))
             ++ PyStr.digits_of (r mod 10)))%Z.

(** The text of a time in the exact range. *)
Definition time_text (v : Q) : string :=
  (PyInt.format_d 2 (minutes_of v) ++ ":"
   ++ string_of_list_ascii
        (PyInt.zero_pad 4 false (fixed_digits 1 (seconds_of v))))%string.

(** The number that the digits of [time_text v] write, and the sort key
    of the text of [t]. *)
Definition surrogate (v : Q) : Z := (1000 * minutes_of v + tenths_of v)%Z.

Definition key_of_time (t : float) : float :=
  of_decimal false (surrogate (value t)) 0.

(** [n] below 100 on two digits, and the text [MM:SS.d]. *)
Definition two_digits (n : Z) : list ascii :=
  [PyStr.digit_char (n / 10); PyStr.digit_char (n mod 10)]%Z.

Definition canonical_text (m s d : Z) : string :=
  string_of_list_ascii
    (two_digits m ++ ":"%char :: two_digits s ++ ["."%char; PyStr.digit_char d]).

End Exact.

(** ** Sample data *)

Module Samples.
Import PyFloat Rules.

Local Open Scope string_scope.
Local Open Scope Q_scope.

(** The scenario of the test suite. *)
Definition rules60 : road_rules :=
  {| max_speed := Ffin 60; min_follow_distance := Ffin 10;
     stop_sign_wait := Ffin 3 |}.

Definition tailgating : detector_state :=
  {| last_follow := Some (Ffin 5); stop_detect_time := None |}.

Definition waiting : detector_state :=
  {| last_follow := None; stop_detect_time := Some (Ffin 7) |}.

(** A log that is not in the order of time, and what the detector
    returns on it. *)
Definition unordered_events : list Event :=
  [(Ffin 5, "SPEED", "70.0");
   (Ffin 1, "FOLLOW_DISTANCE", "5.0");
   (Ffin 1, "LANE_CHANGE", "LEFT")].

Definition unordered_sorted : list violation :=
  [{| type := "TAILGATING"; time := "00:01.0";
      details := "5.0 m < 10.0 m" |};
   {| type := "UNSAFE_LANE_CHANGE"; time := "00:01.0";
      details := "follow 5.0 m < 10.0 m" |};
   {| type := "SPEEDING"; time := "00:05.0";
      details := "70.0 mph in 60 mph zone" |}].

(** A log in the order of time. *)
Definition ordered_events : list Event :=
  [(Fzero false, "STOP_SIGN_DETECTED", EmptyString);
   (Ffin 1, "SPEED", "70.0");
   (Ffin 2, "FOLLOW_DISTANCE", "5.0");
   (Ffin 2, "LANE_CHANGE", "LEFT");
   (Ffin 3, "SPEED", "0.5")].

Definition ordered_violations : list violation :=
  [{| type := "SPEEDING"; time := "00:01.0";
      details := "70.0 mph in 60 mph zone" |};
   {| type := "ROLLING_STOP"; time := "00:01.0";
      details := "Stopped 1.0s; required 3.0s" |};
   {| type := "TAILGATING"; time := "00:02.0";
      details := "5.0 m < 10.0 m" |};
   {| type := "UNSAFE_LANE_CHANGE"; time := "00:02.0";
      details := "follow 5.0 m < 10.0 m" |}].

(** A log in the order of time whose time stamps are negative, as
    [parse_time] reads them from ["0:-30"] and ["0:-0.5"]. *)
Definition negative_events : list Event :=
  [(Ffin (-30 # 1), "FOLLOW_DISTANCE", "5.0");
   (Ffin (-1 # 2), "FOLLOW_DISTANCE", "4.0")].

Definition at_minus_30 : violation :=
  {| type := "TAILGATING"; time := "-1:30.0"; details := "5.0 m < 10.0 m" |}.

Definition at_minus_half : violation :=
  {| type := "TAILGATING"; time := "-1:59.5"; details := "4.0 m < 10.0 m" |}.

(** A log of one event at [-0.0]. *)
Definition minus_zero_events : list Event :=
  [(Fzero true, "FOLLOW_DISTANCE", "5.0")].

End Samples.

(** ** The failure condition of the time codec, in the words of its
       description *)

Module Spec.

(** The text is a non-negative integer. *)
Definition nonneg_integer (s : string) : Prop :=
  exists n, PyInt.of_string s = Ok n /\ 0 <= n.

(** The text is a non-negative float. *)
Definition nonneg_float (s : string) : Prop :=
  exists x, PyFloat.of_string s = Ok x
            /\ PyFloat.flt x (PyFloat.Fzero false) = false
            /\ PyFloat.sign x = false.

(** "Fails if zero or more than one colon is present, if the minutes part
    is not a non-negative integer, or if the seconds part is not a
    non-negative float." *)
Definition parse_time_must_fail (ts : string) : Prop :=
  PyStr.count_char ":" ts <> 1%nat
  \/ exists minutes seconds,
       PyStr.split ":" ts = [minutes; seconds]
       /\ (~ nonneg_integer minutes \/ ~ nonneg_float seconds).

End Spec.

(** ** Outcomes of the reader and of the scenario loader

    Their exceptions are kept apart from those of the detector. *)

Inductive outcome (E A : Type) : Type :=
| Returns (a : A)
| Raises (e : E).

Arguments Returns {E A} a.
Arguments Raises {E A} e.

(** ** parser.py: the log reader *)

Module Reader.
Import PyFloat Rules.

Local Open Scope string_scope.

Definition starts_with_space (cs : list ascii) : bool :=
  match cs with
  | c :: _ => PyStr.is_space c
  | [] => false
  end.

(** [s.split()] without argument: the maximal runs of characters that
    are not white space, none of them empty. *)
Fixpoint split_ws (cs : list ascii) : list (list ascii) :=
  match cs with
  | [] => []
  | c :: cs' =>
      if PyStr.is_space c then split_ws cs'
      else if starts_with_space cs' then [c] :: split_ws cs'
      else match split_ws cs' with
           | w :: ws => (c :: w) :: ws
           | [] => [[c]]
           end
  end.

Definition split_words (s : string) : list string :=
  map string_of_list_ascii (split_ws (list_ascii_of_string s)).

(** The exceptions of [read_log], all of class [ValueError]; the ones
    about a line carry the stripped line. *)
Inductive log_exn : Type :=
| BadLine (line : string)            (* bad line: ... *)
| BadTime (e : exn)                  (* raised by parse_time *)
| BadSpeed (line : string)           (* bad SPEED: ... *)
| BadFollowDistance (line : string)  (* bad FOLLOW_DISTANCE: ... *)
| BadLaneChange (line : string)      (* bad LANE_CHANGE: ... *)
| BadStopSign (line : string)        (* bad STOP_SIGN_DETECTED: ... *)
| UnknownKind (kind : string).       (* unknown kind: ... *)

(** What one turn of the loop over the lines does: it goes on to the
    next line, it yields an event, or it raises. *)
Inductive turn : Type :=
| Continue
| Yield (ev : Event)
| Throw (e : log_exn).

(** The body of the loop of [read_log] from the test on the number of
    tokens on; [line] is the stripped line. *)
Definition read_tokens (line : string) (tokens : list string) : turn :=
  match tokens with
  | time_str :: kind :: rest =>
      match Parser.parse_time time_str with
      | Raise e => Throw (BadTime e)
      | Ok time =>
          if kind =? "SPEED" then
            match rest with
            | [arg] =>
                match of_string arg with
                | Ok _ => Yield (time, kind, arg)
                | Raise _ => Throw (BadSpeed line)
                end
            | _ => Throw (BadSpeed line)
            end
          else if kind =? "FOLLOW_DISTANCE" then
            match rest with
            | [arg] =>
                match of_string arg with
                | Ok _ => Yield (time, kind, arg)
                | Raise _ => Throw (BadFollowDistance line)
                end
            | _ => Throw (BadFollowDistance line)
            end
          else if kind =? "LANE_CHANGE" then
            match rest with
            | [arg] =>
                if (arg =? "LEFT") || (arg =? "RIGHT")
                then Yield (time, kind, arg)
                else Throw (BadLaneChange line)
            | _ => Throw (BadLaneChange line)
            end
          else if kind =? "STOP_SIGN_DETECTED" then
            match rest with
            | [] => Yield (time, kind, EmptyString)
            | _ => Throw (BadStopSign line)
            end
          else Throw (UnknownKind kind)
      end
  | _ => Throw (BadLine line)
  end.

(** The body of the loop of [read_log] on one line of the file. *)
Definition read_line (raw : string) : turn :=
  let line := PyStr.strip raw in
  if line =? EmptyString then Continue
  else read_tokens line (split_words line).

(** [read_log(path)] on the lines that the iteration over the file
    gives: the events that the generator yields, in order, and the
    exception that ends it, if one does. *)
Fixpoint read_log (lines : list string) : list Event * option log_exn :=
  match lines with
  | [] => ([], None)
  | raw :: rest =>
      match read_line raw with
      | Continue => read_log rest
      | Yield ev => let (evs, e) := read_log rest in (ev :: evs, e)
      | Throw e => ([], Some e)
      end
  end.

(** [list(read_log(path))], as [main] consumes the generator. *)
Definition read_events (lines : list string) : outcome log_exn (list Event) :=
  match read_log lines with
  | (evs, None) => Returns evs
  | (_, Some e) => Raises e
  end.

End Reader.

(** ** parser.py: the scenario loader, and the head of the detector *)

Module Scenario.
Import PyFloat Rules.

Local Open Scope string_scope.

(** The objects that [json.load] returns. *)
#[warnings="-register-all"] Inductive json : Type :=
| JNull
| JBool (b : bool)
| JInt (n : Z)
| JFloat (x : float)
| JStr (s : string)
| JList (items : list json)
| JDict (entries : list (string * json)).

(** A [dict] by its entries, in the order of insertion, each key once. *)
Fixpoint lookup (entries : list (string * json)) (key : string)
  : option json :=
  match entries with
  | [] => None
  | (k, v) :: rest => if k =? key then Some v else lookup rest key
  end.

(** [key in d] *)
Definition has_key (entries : list (string * json)) (key : string) : bool :=
  match lookup entries key with Some _ => true | None => false end.

(** [d.setdefault(key, default)], for its effect on [d]. *)
Definition setdefault (entries : list (string * json)) (key : string)
    (default : json) : list (string * json) :=
  if has_key entries key then entries else (entries ++ [(key, default)])%list.

(** [p in s] on strings. *)
Fixpoint contains (s p : string) : bool :=
  String.prefix p s
  || match s with
     | EmptyString => false
     | String _ s' => contains s' p
     end.

Definition is_str (key : string) (x : json) : bool :=
  match x with JStr s => s =? key | _ => false end.

Inductive load_exn : Type :=
| InvalidJsonFile                 (* ValueError: Invalid JSON file ... *)
| MissingRoadRules                (* ValueError: scenario missing 'road_rules' *)
| RoadRulesNotDict                (* ValueError: road_rules must be a dictionary *)
| MissingRuleKey (key : string)   (* ValueError: road_rules missing key: ... *)
| SpeedZonesNotList               (* ValueError: speed_zones must be a list *)
| NotIterable                     (* TypeError of [key in data] *)
| BadSubscript.                   (* TypeError of [data[key]] *)

(** [key in data] for the operand of any type. *)
Definition member (key : string) (data : json) : outcome load_exn bool :=
  match data with
  | JDict entries => Returns (has_key entries key)
  | JList items => Returns (existsb (is_str key) items)
  | JStr s => Returns (contains s key)
  | _ => Raises NotIterable
  end.

Definition required_keys : list string :=
  ["max_speed"; "min_follow_distance"; "stop_sign_wait"].

(** The first required key that [road_rules] lacks. *)
Fixpoint first_missing (road_rules : list (string * json))
    (keys : list string) : option string :=
  match keys with
  | [] => None
  | key :: rest =>
      if has_key road_rules key then first_missing road_rules rest
      else Some key
  end.

(** [load_scenario(path)], from what opening and decoding the file gave:
    [None] when that raised, the decoded object otherwise. *)
Definition load_scenario (file : option json) : outcome load_exn json :=
  match file with
  | None => Raises InvalidJsonFile
  | Some data =>
      match member "road_rules" data with
      | Raises e => Raises e
      | Returns false => Raises MissingRoadRules
      | Returns true =>
          match data with
          | JDict entries =>
              match lookup entries "road_rules" with
              | Some (JDict road_rules) =>
                  match first_missing road_rules required_keys with
                  | Some key => Raises (MissingRuleKey key)
                  | None =>
                      let entries' :=
                        setdefault entries "speed_zones" (JList []) in
                      match lookup entries' "speed_zones" with
                      | Some (JList _) => Returns (JDict entries')
                      | _ => Raises SpeedZonesNotList
                      end
                  end
              | _ => Raises RoadRulesNotDict
              end
          | _ => Raises BadSubscript
          end
      end
  end.

(** The exceptions of [detect_violations] from a scenario: those of
    reading the three thresholds, and those of the loop and the sort. *)
Inductive run_exn : Type :=
| KeyError (key : string)
| NotSubscriptable               (* TypeError of [x[key]] *)
| FloatOfNonNumber               (* TypeError of [float(x)] *)
| Detector (e : exn).            (* of [float()] on an int or a string,
                                    of the loop, of the sort *)

(** [x[key]] for a string [key]. *)
Definition subscript (x : json) (key : string) : outcome run_exn json :=
  match x with
  | JDict entries =>
      match lookup entries key with
      | Some v => Returns v
      | None => Raises (KeyError key)
      end
  | _ => Raises NotSubscriptable
  end.

(** [float(x)] *)
Definition to_float (x : json) : outcome run_exn float :=
  match x with
  | JFloat v => Returns v
  | JInt n =>
      match of_int n with
      | Ok v => Returns v
      | Raise e => Raises (Detector e)
      end
  | JBool b => Returns (if b then one else Fzero false)
  | JStr s =>
      match of_string s with
      | Ok v => Returns v
      | Raise e => Raises (Detector e)
      end
  | _ => Raises FloatOfNonNumber
  end.

(** [float(scenario["road_rules"][key])] *)
Definition threshold (scenario : json) (key : string)
  : outcome run_exn float :=
  match subscript scenario "road_rules" with
  | Raises e => Raises e
  | Returns road_rules =>
      match subscript road_rules key with
      | Raises e => Raises e
      | Returns x => to_float x
      end
  end.

(** The three assignments that open [detect_violations]. *)
Definition thresholds (scenario : json) : outcome run_exn road_rules :=
  match threshold scenario "max_speed" with
  | Raises e => Raises e
  | Returns max_speed =>
      match threshold scenario "min_follow_distance" with
      | Raises e => Raises e
      | Returns min_follow =>
          match threshold scenario "stop_sign_wait" with
          | Raises e => Raises e
          | Returns stop_wait =>
              Returns {| max_speed := max_speed;
                         min_follow_distance := min_follow;
                         stop_sign_wait := stop_wait |}
          end
      end
  end.

(** [detect_violations(scenario, events)] from the scenario: the three
    assignments, then the loop and the sort. *)
Definition detect_violations (scenario : json) (events : list Event)
  : outcome run_exn (list violation) :=
  match thresholds scenario with
  | Raises e => Raises e
  | Returns rules =>
      match Rules.detect_violations rules events with
      | Ok vs => Returns vs
      | Raise e => Raises (Detector e)
      end
  end.

End Scenario.

(** ** mutants/rules_rules_lane_always.py: the detector that reports
       every lane change *)

Module Mutant.
Import PyFloat Rules.

Local Open Scope string_scope.

Section Detector.
Variable rules : road_rules.

(** The details of a lane change: the last follow distance, or the
    integer [0] when there is none, under the format [.1f]. *)
Definition lane_change_details (last : option float) : string :=
  "follow "
    ++ format_f 0 1 (match last with Some d => d | None => Fzero false end)
    ++ " m < " ++ format_f 0 1 (min_follow_distance rules) ++ " m".

(** One iteration of the loop of the mutant; its branches for the other
    kinds are those of [rules.detect_violations], to the letter. *)
Definition process (st : detector_state) (ev : Event)
  : result (detector_state * list violation) :=
  let '(t, kind, arg) := ev in
  if kind =? "SPEED" then
    speed <- of_string arg ;;
    v1 <- (if flt (max_speed rules) speed
           then emit "SPEEDING" t (speeding_details rules speed)
           else Ok []) ;;
    match stop_detect_time st with
    | Some t0 =>
        if flt one speed && flt t0 t then
          let waited := fsub t t0 in
          v2 <- (if flt waited (stop_sign_wait rules)
                 then emit "ROLLING_STOP" t (rolling_stop_details rules waited)
                 else Ok []) ;;
          Ok ({| last_follow := last_follow st; stop_detect_time := None |},
              (v1 ++ v2)%list)
        else Ok (st, v1)
    | None => Ok (st, v1)
    end
  else if kind =? "FOLLOW_DISTANCE" then
    dist <- of_string arg ;;
    let st' := {| last_follow := Some dist;
                  stop_detect_time := stop_detect_time st |} in
    v <- (if flt dist (min_follow_distance rules)
          then emit "TAILGATING" t (tailgating_details rules dist)
          else Ok []) ;;
    Ok (st', v)
  else if kind =? "LANE_CHANGE" then
    v <- emit "UNSAFE_LANE_CHANGE" t (lane_change_details (last_follow st)) ;;
    Ok (st, v)
  else if kind =? "STOP_SIGN_DETECTED" then
    Ok ({| last_follow := last_follow st; stop_detect_time := Some t |}, [])
  else Raise (UnknownEventKind kind).

Fixpoint scan (st : detector_state) (events : list Event)
  : result (detector_state * list violation) :=
  match events with
  | [] => Ok (st, [])
  | ev :: rest =>
      r <- process st ev ;;
      r' <- scan (fst r) rest ;;
      Ok (fst r', (snd r ++ snd r')%list)
  end.

End Detector.

(** [detect_violations(scenario, events)] of the mutant; the sort is the
    one of [rules.detect_violations]. *)
Definition detect_violations (rules : road_rules) (events : list Event)
  : result (list violation) :=
  r <- scan rules initial_state events ;;
  sort_by_time (snd r).

End Mutant.

(** ** Vocabulary of the further properties *)

Module Terms.
Import PyFloat Rules Props.

Local Open Scope string_scope.

(** A line of white space only. *)
Definition blank (raw : string) : bool :=
  forallb PyStr.is_space (list_ascii_of_string raw).

(** An event as the log format describes it: a number after SPEED and
    FOLLOW_DISTANCE, LEFT or RIGHT after LANE_CHANGE, nothing after
    STOP_SIGN_DETECTED. *)
Definition well_formed (ev : Event) : bool :=
  let '(_, kind, arg) := ev in
  if (kind =? "SPEED") || (kind =? "FOLLOW_DISTANCE")
  then is_ok (of_string arg)
  else if kind =? "LANE_CHANGE" then (arg =? "LEFT") || (arg =? "RIGHT")
  else if kind =? "STOP_SIGN_DETECTED" then arg =? EmptyString
  else false.

(** The number of events of a kind. *)
Definition count_kind (kind : string) (events : list Event) : nat :=
  List.length (filter (fun ev => snd (fst ev) =? kind) events).

(** The kind of event that appends a violation of a type. *)
Definition kind_of_type (ty : string) : option string :=
  if (ty =? "SPEEDING") || (ty =? "ROLLING_STOP") then Some "SPEED"
  else if ty =? "TAILGATING" then Some "FOLLOW_DISTANCE"
  else if ty =? "UNSAFE_LANE_CHANGE" then Some "LANE_CHANGE"
  else None.

(** One for a stop sign that waits for its SPEED event, zero without. *)
Definition pending (st : detector_state) : nat :=
  match stop_detect_time st with Some _ => 1 | None => 0 end.

(** What a guarded [violations.append(...)] appends: one violation with
    the formatted time when the guard holds, nothing otherwise. *)
Definition appended (guard : bool) (ty : string) (t : float) (text : string)
    (l : list violation) : Prop :=
  if guard
  then exists tm, _fmt_time t = Ok tm
                  /\ l = [{| type := ty; time := tm; details := text |}]
  else l = [].

(** [rules'] asks no more than [rules]: the speed limit is not lower,
    the follow distance and the wait at a stop sign are not higher. *)
Definition relaxed (rules rules' : road_rules) : Prop :=
  fle (max_speed rules) (max_speed rules') = true
  /\ fle (min_follow_distance rules') (min_follow_distance rules) = true
  /\ fle (stop_sign_wait rules') (stop_sign_wait rules) = true.

(** The type and the time of a violation, without the details. *)
Definition stamp (v : violation) : string * string := (type v, time v).

(** A float of the model that is a float of the machine: a finite
    nonzero one is a double. *)
Definition is_float (x : float) : Prop :=
  match x with Ffin v => is_double v | _ => True end.

Definition is_lane_change (ev : Event) : bool :=
  let '(_, kind, _) := ev in kind =? "LANE_CHANGE".

End Terms.

(** ** The sort key, in the words of its description *)

Module Described.



End Described.

(** ** Vocabulary of the order of the returned list *)

Module Order.
Import PyFloat Rules Props.







End Order.

(** ** More sample data *)

Module Cases.
Import PyFloat Rules.

Local Open Scope string_scope.
Local Open Scope Q_scope.

(** The time stamp that [parse_time] reads from ["0:inf"]. *)
Definition at_infinity : float := Finf false.




End Cases.

(** * Properties *)

Import PyFloat Rules Props Exact.

(** ** The embedding on the values of the doc strings and of the tests *)

Example int_of_string_examples :
  PyInt.of_string "07" = Ok 7%Z
  /\ PyInt.of_string " -1_0 " = Ok (-10)%Z
  /\ PyInt.of_string "+5" = Ok 5%Z
  /\ PyInt.of_string "1__0" = Raise (BadIntLiteral "1__0")
  /\ PyInt.of_string "1e3" = Raise (BadIntLiteral "1e3").
Proof. vm_compute. repeat split. Qed.

Example format_d_examples :
  PyInt.format_d 2 0 = "00"%string
  /\ PyInt.format_d 2 7 = "07"%string
  /\ PyInt.format_d 2 60 = "60"%string
  /\ PyInt.format_d 2 125 = "125"%string
  /\ PyInt.format_d 2 (-1) = "-1"%string
  /\ PyInt.format_d 2 (-12) = "-12"%string.
Proof. vm_compute. repeat split. Qed.

Example split_examples :
  PyStr.split ":" "a:b:c" = ["a"; "b"; "c"]%string
  /\ PyStr.split ":" "a::" = ["a"; EmptyString; EmptyString]%string
  /\ PyStr.split ":" "1:02.5" = ["1"; "02.5"]%string
  /\ PyStr.split ":" "bad" = ["bad"]%string.
Proof. vm_compute. repeat split. Qed.

Example fmt_time_examples :
  _fmt_time (Fzero false) = Ok "00:00.0"%string
  /\ _fmt_time (Ffin 5) = Ok "00:05.0"%string
  /\ _fmt_time (Ffin (125 # 2)) = Ok "01:02.5"%string
  /\ _fmt_time (Ffin 3600) = Ok "60:00.0"%string
  /\ _fmt_time Fnan = Raise NanToInt.
Proof. vm_compute. repeat split. Qed.

Example parse_time_examples :
  Parser.parse_time "0:05" = Ok (Ffin 5)
  /\ Parser.parse_time "1:02.5" = Ok (Ffin (125 # 2))
  /\ Parser.parse_time "0:00" = Ok (Fzero false)
  /\ Parser.parse_time "bad" = Raise (BadTimestamp "bad")
  /\ Parser.parse_time "1:xx" = Raise (BadTimestamp "1:xx")
  /\ Parser.parse_time "1:01:01.5" = Raise (BadTimestamp "1:01:01.5").
Proof. vm_compute. repeat split. Qed.

(** ** The loop body, kind by kind *)

Section ProcessEquations.
Variable rules : road_rules.
Variable st : detector_state.
Variables (t : float) (arg : string).

Lemma process_speed :
  process rules st (t, "SPEED"%string, arg) =
  (speed <- of_string arg ;;
   v1 <- (if flt (max_speed rules) speed
          then emit "SPEEDING" t (speeding_details rules speed)
          else Ok []) ;;
   match stop_detect_time st with
   | Some t0 =>
       if flt one speed && flt t0 t then
         v2 <- (if flt (fsub t t0) (stop_sign_wait rules)
                then emit "ROLLING_STOP" t
                       (rolling_stop_details rules (fsub t t0))
                else Ok []) ;;
         Ok ({| last_follow := last_follow st; stop_detect_time := None |},
             v1 ++ v2)
       else Ok (st, v1)
   | None => Ok (st, v1)
   end).
Proof. reflexivity. Qed.

Lemma process_follow_distance :
  process rules st (t, "FOLLOW_DISTANCE"%string, arg) =
  (dist <- of_string arg ;;
   v <- (if flt dist (min_follow_distance rules)
         then emit "TAILGATING" t (tailgating_details rules dist)
         else Ok []) ;;
   Ok ({| last_follow := Some dist;
          stop_detect_time := stop_detect_time st |}, v)).
Proof. reflexivity. Qed.

Lemma process_lane_change :
  process rules st (t, "LANE_CHANGE"%string, arg) =
  match last_follow st with
  | Some d =>
      if flt d (min_follow_distance rules) then
        v <- emit "UNSAFE_LANE_CHANGE" t
               (unsafe_lane_change_details rules d) ;;
        Ok (st, v)
      else Ok (st, [])
  | None => Ok (st, [])
  end.
Proof. reflexivity. Qed.

Lemma process_stop_sign :
  process rules st (t, "STOP_SIGN_DETECTED"%string, arg) =
  Ok ({| last_follow := last_follow st; stop_detect_time := Some t |}, []).
Proof. reflexivity. Qed.

Lemma process_unknown (kind : string) :
  known_kind kind = false ->
  process rules st (t, kind, arg) = Raise (UnknownEventKind kind).
Proof.
  unfold known_kind, process. intros H.
  repeat (apply orb_false_iff in H; destruct H as [H ?]).
  now rewrite H, H0, H1, H2.
Qed.

End ProcessEquations.

Lemma emit_formattable (ty : string) (t : float) (text : string) :
  formattable t = true ->
  exists tm, _fmt_time t = Ok tm
             /\ emit ty t text = Ok [{| type := ty; time := tm; details := text |}].
Proof.
  unfold formattable, emit. destruct (_fmt_time t) as [tm|e]; [|discriminate].
  intros _. now exists tm.
Qed.

Lemma Qltb_lt (x y : Q) : Qltb x y = true <-> (x < y)%Q.
Proof.
  unfold Qltb. rewrite Qlt_alt. destruct (x ?= y)%Q; split; congruence.
Qed.

Lemma Qltb_ge (x y : Q) : Qltb x y = false <-> (y <= x)%Q.
Proof.
  rewrite <- Bool.not_true_iff_false, Qltb_lt. split.
  - apply Qnot_lt_le.
  - apply Qle_not_lt.
Qed.

Lemma flt_irrefl_feq (x y : float) : feq x y = true -> flt y x = false.
Proof.
  destruct x as [|a|a|v], y as [|b|b|w]; simpl; try discriminate;
    try (destruct a, b; simpl; (discriminate || reflexivity));
    intros H; apply Qeq_bool_iff in H; apply Qltb_ge; rewrite H;
    apply Qle_refl.
Qed.

Lemma count_type_app (ty : string) (l1 l2 : list violation) :
  count_type ty (l1 ++ l2) = (count_type ty l1 + count_type ty l2)%nat.
Proof. unfold count_type. now rewrite filter_app, length_app. Qed.

(** What a SPEED event appends, in terms of the two tests of the loop
    body: [above] for the speed limit, [rolling] for the stop-sign wait. *)
Lemma process_speed_ok (rules : road_rules) (st : detector_state)
    (t : float) (arg : string) (v : float) :
  of_string arg = Ok v -> formattable t = true ->
  exists tm,
    _fmt_time t = Ok tm /\
    let speeding :=
      if flt (max_speed rules) v
      then [{| type := "SPEEDING"; time := tm;
               details := speeding_details rules v |}]
      else [] in
    process rules st (t, "SPEED"%string, arg) =
    match stop_detect_time st with
    | Some t0 =>
        if flt one v && flt t0 t then
          Ok ({| last_follow := last_follow st; stop_detect_time := None |},
              speeding ++
              if flt (fsub t t0) (stop_sign_wait rules)
              then [{| type := "ROLLING_STOP"; time := tm;
                       details := rolling_stop_details rules (fsub t t0) |}]
              else [])
        else Ok (st, speeding)
    | None => Ok (st, speeding)
    end.
Proof.
  intros Hv Ht.
  destruct (emit_formattable "SPEEDING" t (speeding_details rules v) Ht)
    as (tm & Htm & Hs).
  exists tm. split; [exact Htm|]. cbv zeta.
  rewrite process_speed, Hv. cbn [bind].
  assert (Hr : forall text, emit "ROLLING_STOP" t text =
            Ok [{| type := "ROLLING_STOP"; time := tm; details := text |}]).
  { intros text. unfold emit. now rewrite Htm. }
  destruct (flt (max_speed rules) v); [rewrite Hs|]; cbn [bind];
    destruct (stop_detect_time st) as [t0|]; try reflexivity;
    destruct (flt one v && flt t0 t); try reflexivity;
    destruct (flt (fsub t t0) (stop_sign_wait rules)); try rewrite Hr;
    reflexivity.
Qed.

Lemma process_follow_distance_ok (rules : road_rules) (st : detector_state)
    (t : float) (arg : string) (d : float) :
  of_string arg = Ok d ->
  formattable t = true ->
  exists tm,
    _fmt_time t = Ok tm /\
    process rules st (t, "FOLLOW_DISTANCE"%string, arg) =
    Ok ({| last_follow := Some d; stop_detect_time := stop_detect_time st |},
        if flt d (min_follow_distance rules)
        then [{| type := "TAILGATING"; time := tm;
                 details := tailgating_details rules d |}]
        else []).
Proof.
  intros Hd Ht.
  destruct (emit_formattable "TAILGATING" t (tailgating_details rules d) Ht)
    as (tm & Htm & He).
  exists tm. split; [exact Htm|].
  rewrite process_follow_distance, Hd. cbn [bind].
  destruct (flt d (min_follow_distance rules)); [rewrite He|]; reflexivity.
Qed.

(** ** The state along a run *)

Lemma process_last_follow (rules : road_rules) (st st' : detector_state)
    (ev : Event) (out : list violation) :
  process rules st ev = Ok (st', out) ->
  last_follow st' = follow_update (last_follow st) ev.
Proof.
  destruct ev as [[t kind] arg]. unfold process, follow_update.
  destruct (kind =? "SPEED")%string eqn:E1.
  - apply String.eqb_eq in E1. subst kind. cbn [String.eqb Ascii.eqb Bool.eqb].
    destruct (of_string arg) as [v|]; [|discriminate]. cbn [bind].
    destruct (if flt (max_speed rules) v then _ else _); [|discriminate].
    cbn [bind].
    destruct (stop_detect_time st) as [t0|];
      [destruct (flt one v && flt t0 t);
       [destruct (if flt (fsub t t0) (stop_sign_wait rules) then _ else _);
        [|discriminate]|]|];
      cbn [bind]; intros H; inversion H; reflexivity.
  - destruct (kind =? "FOLLOW_DISTANCE")%string eqn:E2.
    + destruct (of_string arg) as [d|]; [|discriminate]. cbn [bind].
      destruct (if flt d (min_follow_distance rules) then _ else _);
        [|discriminate].
      cbn [bind]. intros H; inversion H; reflexivity.
    + destruct (kind =? "LANE_CHANGE")%string.
      * destruct (last_follow st) as [d|] eqn:El;
          [destruct (flt d (min_follow_distance rules));
           [destruct (emit _ _ _); [|discriminate]|]|];
          cbn [bind]; intros H; inversion H; subst; congruence.
      * destruct (kind =? "STOP_SIGN_DETECTED")%string; [|discriminate].
        intros H; inversion H; reflexivity.
Qed.

Lemma scan_cons (rules : road_rules) (st : detector_state) (ev : Event)
    (rest : list Event) (st' : detector_state) (out : list violation) :
  scan rules st (ev :: rest) = Ok (st', out) <->
  exists st1 out1 out2,
    process rules st ev = Ok (st1, out1)
    /\ scan rules st1 rest = Ok (st', out2)
    /\ out = out1 ++ out2.
Proof.
  cbn [scan]. split.
  - destruct (process rules st ev) as [[st1 out1]|]; [|discriminate].
    cbn [bind fst snd].
    destruct (scan rules st1 rest) as [[st2 out2]|] eqn:E; [|discriminate].
    cbn [bind fst snd]. intros H; inversion H; subst.
    now exists st1, out1, out2.
  - intros (st1 & out1 & out2 & H1 & H2 & ->). rewrite H1. cbn [bind fst snd].
    rewrite H2. reflexivity.
Qed.

Lemma scan_app (rules : road_rules) (evs1 evs2 : list Event)
    (st st' : detector_state) (out : list violation) :
  scan rules st (evs1 ++ evs2) = Ok (st', out) <->
  exists st1 out1 out2,
    scan rules st evs1 = Ok (st1, out1)
    /\ scan rules st1 evs2 = Ok (st', out2)
    /\ out = out1 ++ out2.
Proof.
  revert st out. induction evs1 as [|ev evs1 IH]; intros st out.
  - cbn [app scan]. split.
    + intros H. now exists st, [], out.
    + intros (st1 & out1 & out2 & H1 & H2 & ->). inversion H1; subst.
      exact H2.
  - rewrite <- app_comm_cons, scan_cons. split.
    + intros (sa & oa & ob & Hp & Hs & ->).
      apply IH in Hs. destruct Hs as (st1 & o1 & o2 & Hs1 & Hs2 & ->).
      exists st1, (oa ++ o1), o2. split; [|split; [exact Hs2|]].
      * apply scan_cons. now exists sa, oa, o1.
      * now rewrite app_assoc.
    + intros (st1 & out1 & out2 & H1 & H2 & ->).
      apply scan_cons in H1. destruct H1 as (sa & oa & ob & Hp & Hs & ->).
      exists sa, oa, (ob ++ out2). split; [exact Hp|]. split.
      * apply IH. now exists st1, ob, out2.
      * now rewrite app_assoc.
Qed.

Lemma scan_last_follow (rules : road_rules) (events : list Event)
    (st st' : detector_state) (out : list violation) :
  scan rules st events = Ok (st', out) ->
  last_follow st' = fold_left follow_update events (last_follow st).
Proof.
  revert st out. induction events as [|ev rest IH]; intros st out H.
  - inversion H. reflexivity.
  - apply scan_cons in H. destruct H as (st1 & o1 & o2 & Hp & Hs & _).
    cbn [fold_left]. rewrite <- (process_last_follow _ _ _ _ _ Hp).
    now apply IH in Hs.
Qed.

Lemma follow_update_no_follow (events : list Event) (acc : option float) :
  existsb is_follow_distance events = false ->
  fold_left follow_update events acc = acc.
Proof.
  revert acc. induction events as [|[[t kind] arg] rest IH]; intros acc H.
  - reflexivity.
  - cbn [existsb] in H. apply orb_false_iff in H. destruct H as [Hk Hr].
    cbn [fold_left]. unfold follow_update at 2. unfold is_follow_distance in Hk.
    rewrite Hk. now apply IH.
Qed.

(** ** Events that the loop body accepts *)

Lemma event_ok_cases (t : float) (kind arg : string) :
  event_ok (t, kind, arg) = true ->
  formattable t = true
  /\ ((kind = "SPEED"%string /\ exists v, of_string arg = Ok v)
      \/ (kind = "FOLLOW_DISTANCE"%string /\ exists d, of_string arg = Ok d)
      \/ kind = "LANE_CHANGE"%string
      \/ kind = "STOP_SIGN_DETECTED"%string).
Proof.
  unfold event_ok, known_kind. intros H.
  apply andb_true_iff in H. destruct H as [H Harg].
  apply andb_true_iff in H. destruct H as [Ht Hk].
  split; [exact Ht|].
  destruct (kind =? "SPEED")%string eqn:E1.
  { apply String.eqb_eq in E1. left. split; [exact E1|].
    cbn [orb] in Harg. destruct (of_string arg) as [v|]; [|discriminate].
    now exists v. }
  destruct (kind =? "FOLLOW_DISTANCE")%string eqn:E2.
  { apply String.eqb_eq in E2. right; left. split; [exact E2|].
    cbn [orb] in Harg. destruct (of_string arg) as [d|]; [|discriminate].
    now exists d. }
  destruct (kind =? "LANE_CHANGE")%string eqn:E3.
  { apply String.eqb_eq in E3. right; right; left. exact E3. }
  destruct (kind =? "STOP_SIGN_DETECTED")%string eqn:E4; [|discriminate].
  apply String.eqb_eq in E4. right; right; right. exact E4.
Qed.

(** ** Failure of a run *)

Lemma scan_app_eq (rules : road_rules) (evs1 evs2 : list Event)
    (st : detector_state) :
  scan rules st (evs1 ++ evs2) =
  (r1 <- scan rules st evs1 ;;
   r2 <- scan rules (fst r1) evs2 ;;
   Ok (fst r2, snd r1 ++ snd r2)).
Proof.
  revert st. induction evs1 as [|ev evs1 IH]; intros st.
  - cbn [app scan bind fst snd].
    destruct (scan rules st evs2) as [[s o]|]; reflexivity.
  - cbn [app scan]. destruct (process rules st ev) as [[s1 o1]|];
      [|reflexivity].
    cbn [bind fst snd]. rewrite IH.
    destruct (scan rules s1 evs1) as [[s2 o2]|]; [|reflexivity].
    cbn [bind fst snd].
    destruct (scan rules s2 evs2) as [[s3 o3]|]; [|reflexivity].
    cbn [bind fst snd]. now rewrite app_assoc.
Qed.

Lemma process_total (rules : road_rules) (st : detector_state) (ev : Event) :
  event_ok ev = true -> exists r, process rules st ev = Ok r.
Proof.
  destruct ev as [[t kind] arg]. intros Hok. apply event_ok_cases in Hok.
  destruct Hok as [Ht [[-> [v Hv]]|[[-> [d Hd]]|[->| ->]]]].
  - destruct (process_speed_ok rules st t arg v Hv Ht) as (tm & _ & Hp).
    cbv zeta in Hp. rewrite Hp.
    destruct (stop_detect_time st) as [t0|];
      [destruct (flt one v && flt t0 t)|]; now eexists.
  - destruct (process_follow_distance_ok rules st t arg d Hd Ht)
      as (tm & _ & ->). now eexists.
  - rewrite process_lane_change.
    destruct (last_follow st) as [d|];
      [destruct (flt d (min_follow_distance rules))|]; try now eexists.
    destruct (emit_formattable "UNSAFE_LANE_CHANGE" t
                (unsafe_lane_change_details rules d) Ht) as (tm & _ & ->).
    now eexists.
  - rewrite process_stop_sign. now eexists.
Qed.

Lemma scan_total (rules : road_rules) (events : list Event)
    (st : detector_state) :
  forallb event_ok events = true -> exists r, scan rules st events = Ok r.
Proof.
  revert st. induction events as [|ev rest IH]; intros st H.
  - now eexists.
  - cbn [forallb] in H. apply andb_true_iff in H. destruct H as [Ho H].
    destruct (process_total rules st ev Ho) as [[s1 o1] Hp].
    destruct (IH s1 H) as [[s2 o2] Hs].
    cbn [scan]. rewrite Hp. cbn [bind fst snd]. rewrite Hs. now eexists.
Qed.

(** ** The report builder *)

Lemma drop_while_nil (p : ascii -> bool) (cs : list ascii) :
  PyStr.drop_while p cs = [] <-> forallb p cs = true.
Proof.
  induction cs as [|c cs IH]; cbn [PyStr.drop_while forallb].
  - split; reflexivity.
  - destruct (p c); cbn [andb]; [exact IH|]. split; discriminate.
Qed.

Lemma strip_with_nil (p : ascii -> bool) (cs : list ascii) :
  PyStr.strip_with p cs = [] <-> forallb p cs = true.
Proof.
  unfold PyStr.strip_with. split.
  - intros H. apply drop_while_nil.
    destruct (PyStr.drop_while p cs) as [|c r] eqn:E; [reflexivity|].
    exfalso.
    assert (Hc : p c = false).
    { clear H. induction cs as [|x cs IH]; [discriminate|].
      cbn [PyStr.drop_while] in E. destruct (p x) eqn:Ex; [auto|].
      inversion E; subst. exact Ex. }
    assert (Hr : rev (PyStr.drop_while p (rev (c :: r))) = [] ) by exact H.
    apply (f_equal (@rev ascii)) in Hr. rewrite rev_involutive in Hr.
    cbn [rev] in Hr. apply drop_while_nil in Hr.
    rewrite forallb_app in Hr. apply andb_true_iff in Hr.
    cbn [forallb rev] in Hr. rewrite Hc in Hr. destruct Hr; discriminate.
  - intros H. apply drop_while_nil in H. now rewrite H.
Qed.

Lemma string_of_list_ascii_nil (cs : list ascii) :
  string_of_list_ascii cs = EmptyString <-> cs = [].
Proof. destruct cs; split; (reflexivity || discriminate). Qed.

Lemma strip_empty_iff (s : string) :
  PyStr.strip s = EmptyString
  <-> forallb PyStr.is_space (list_ascii_of_string s) = true.
Proof.
  unfold PyStr.strip. rewrite string_of_list_ascii_nil. apply strip_with_nil.
Qed.

Lemma get_absent (d : Report.dict) (key : string) :
  (forall v, ~ In (key, v) d) -> Report.get d key = Report.PNone.
Proof.
  induction d as [|[k v] d IH]; intros H; [reflexivity|].
  cbn [Report.get]. destruct (k =? key)%string eqn:E.
  - apply String.eqb_eq in E. subst. exfalso. apply (H v). now left.
  - apply IH. intros v' Hin. apply (H v'). now right.
Qed.

(** ** Order on floats *)

Lemma Qeq_bool_true (x y : Q) : Qeq_bool x y = true <-> (x == y)%Q.
Proof. split; [apply Qeq_bool_eq | apply Qeq_eq_bool]. Qed.

Ltac float_order :=
  repeat match goal with
  | H : Qltb _ _ = true |- _ => apply Qltb_lt in H
  | H : Qltb _ _ = false |- _ => apply Qltb_ge in H
  | H : Qeq_bool _ _ = true |- _ => apply Qeq_bool_true in H
  | |- Qltb _ _ = true => apply Qltb_lt
  | |- Qltb _ _ = false => apply Qltb_ge
  | |- Qeq_bool _ _ = true => apply Qeq_bool_true
  end.

Ltac float_cases x :=
  destruct x as [| [|] | [|] | ?v];
  cbn [flt feq fle value orb andb negb Bool.eqb is_nan fst snd] in *;
  try discriminate; try reflexivity.






(** ** The stable sort on keys *)

Lemma insert_perm (x : float * violation) (l : list (float * violation)) :
  Permutation (x :: l) (insert x l).
Proof.
  induction l as [|y l IH]; cbn [insert]; [apply Permutation_refl|].
  destruct (flt (fst y) (fst x)); [|apply Permutation_refl].
  apply perm_trans with (y :: x :: l); [apply perm_swap|].
  now apply perm_skip.
Qed.

Lemma stable_sort_perm (l : list (float * violation)) :
  Permutation l (stable_sort l).
Proof.
  induction l as [|x l IH]; cbn [stable_sort]; [apply perm_nil|].
  apply perm_trans with (x :: stable_sort l);
    [now apply perm_skip | apply insert_perm].
Qed.





Lemma keyed_spec (vs : list violation) (kvs : list (float * violation)) :
  keyed vs = Ok kvs ->
  map snd kvs = vs
  /\ Forall (fun a => sort_key (snd a) = Ok (fst a)) kvs.
Proof.
  revert kvs. induction vs as [|v vs IH]; intros kvs; cbn [keyed].
  - intros H; inversion H. split; [reflexivity|constructor].
  - destruct (sort_key v) as [k|] eqn:Ek; [|discriminate]. cbn [bind].
    destruct (keyed vs) as [l|]; [|discriminate]. cbn [bind].
    intros H; inversion H; subst. destruct (IH l eq_refl) as [Hm Hf].
    split; [cbn [map snd]; now rewrite Hm|]. constructor; [exact Ek|exact Hf].
Qed.

(** ** The time stamps of the violations of a run *)

Lemma emit_inv (ty : string) (t : float) (text : string)
    (l : list violation) :
  emit ty t text = Ok l ->
  exists tm, _fmt_time t = Ok tm
             /\ l = [{| type := ty; time := tm; details := text |}].
Proof.
  unfold emit. destruct (_fmt_time t) as [tm|]; [|discriminate].
  cbn [bind]. intros H; inversion H. now exists tm.
Qed.

Lemma emit_stamped (ty : string) (t : float) (text : string)
    (l : list violation) :
  emit ty t text = Ok l -> Forall (stamped t) l.
Proof.
  intros H. apply emit_inv in H. destruct H as (tm & Htm & ->).
  constructor; [exact Htm|constructor].
Qed.

Lemma guarded_emit_stamped (b : bool) (ty : string) (t : float)
    (text : string) (l : list violation) :
  (if b then emit ty t text else Ok []) = Ok l -> Forall (stamped t) l.
Proof.
  destruct b; [apply emit_stamped|]. intros H; inversion H. constructor.
Qed.

(** Every violation appended for an event carries the formatted time of
    that event. *)
Lemma process_stamped (rules : road_rules) (st st' : detector_state)
    (t : float) (kind arg : string) (out : list violation) :
  process rules st (t, kind, arg) = Ok (st', out) -> Forall (stamped t) out.
Proof.
  unfold process.
  destruct (kind =? "SPEED")%string.
  { destruct (of_string arg) as [v|]; [|discriminate]. cbn [bind].
    destruct (if flt (max_speed rules) v then _ else _) as [v1|] eqn:E1;
      [|discriminate].
    apply guarded_emit_stamped in E1. cbn [bind].
    destruct (stop_detect_time st) as [t0|];
      [destruct (flt one v && flt t0 t)|];
      try (intros H; inversion H; subst; exact E1).
    destruct (if flt (fsub t t0) (stop_sign_wait rules) then _ else _)
      as [v2|] eqn:E2; [|discriminate].
    apply guarded_emit_stamped in E2. cbn [bind].
    intros H; inversion H; subst. apply Forall_app. now split. }
  destruct (kind =? "FOLLOW_DISTANCE")%string.
  { destruct (of_string arg) as [d|]; [|discriminate]. cbn [bind].
    destruct (if flt d (min_follow_distance rules) then _ else _)
      as [v1|] eqn:E1; [|discriminate].
    apply guarded_emit_stamped in E1. cbn [bind].
    intros H; inversion H; subst. exact E1. }
  destruct (kind =? "LANE_CHANGE")%string.
  { destruct (last_follow st) as [d|];
      [destruct (flt d (min_follow_distance rules))|];
      try (intros H; inversion H; subst; constructor).
    destruct (emit _ _ _) as [v1|] eqn:E1; [|discriminate].
    apply emit_stamped in E1. cbn [bind].
    intros H; inversion H; subst. exact E1. }
  destruct (kind =? "STOP_SIGN_DETECTED")%string; [|discriminate].
  intros H; inversion H; subst. constructor.
Qed.

Lemma scan_stamped (rules : road_rules) (events : list Event)
    (st st' : detector_state) (out : list violation) :
  scan rules st events = Ok (st', out) ->
  Forall (fun v => exists t, In t (map timestamp events) /\ stamped t v) out.
Proof.
  revert st out. induction events as [|[[t kind] arg] rest IH]; intros st out H.
  - inversion H. constructor.
  - apply scan_cons in H. destruct H as (s1 & o1 & o2 & Hp & Hs & ->).
    apply Forall_app. split.
    + apply process_stamped in Hp. revert Hp. apply Forall_impl.
      intros v Hv. exists t. split; [now left|exact Hv].
    + apply IH in Hs. revert Hs. apply Forall_impl.
      intros v (t' & Hin & Hv). exists t'. split; [now right|exact Hv].
Qed.

(** ** A literal with a digit is never read as a NaN *)

Lemma has_digit_app (l1 l2 : list ascii) :
  has_digit (l1 ++ l2) = has_digit l1 || has_digit l2.
Proof. apply existsb_app. Qed.



Lemma numeric_space_not_digit (c : ascii) :
  PyStr.is_numeric_space c = true -> PyStr.is_digit c = false.
Proof.
  unfold PyStr.is_numeric_space, PyStr.is_digit. intros H.
  destruct (48 <=? PyStr.code c)%N eqn:E1; [|reflexivity].
  destruct (PyStr.code c <=? 57)%N eqn:E2; [|reflexivity].
  apply N.leb_le in E1, E2. exfalso.
  repeat (apply orb_true_iff in H; destruct H as [H|H]);
    [apply andb_true_iff in H; destruct H as [_ H]; apply N.leb_le in H
    | apply N.eqb_eq in H .. ]; lia.
Qed.



Lemma lower_digit (c : ascii) :
  PyStr.is_digit c = true -> PyStr.lower c = c.
Proof.
  unfold PyStr.is_digit, PyStr.lower. intros H.
  apply andb_true_iff in H. destruct H as [H1 H2]. apply N.leb_le in H1, H2.
  destruct (65 <=? PyStr.code c)%N eqn:E; [|reflexivity].
  apply N.leb_le in E. lia.
Qed.

Lemma has_digit_lower (l : list ascii) :
  has_digit l = true -> has_digit (map PyStr.lower l) = true.
Proof.
  induction l as [|c l IH]; [discriminate|]. cbn [has_digit existsb map].
  intros H. apply orb_true_iff in H. apply orb_true_iff.
  destruct H as [H|H]; [left; now rewrite lower_digit | right; now apply IH].
Qed.

Lemma word_is_no_digit (w : string) (body : list ascii) :
  has_digit (list_ascii_of_string w) = false ->
  has_digit body = true -> word_is w body = false.
Proof.
  intros Hw Hb. unfold word_is. apply String.eqb_neq. intros E.
  apply has_digit_lower in Hb.
  rewrite <- (list_ascii_of_string_of_list_ascii (map PyStr.lower body)) in Hb.
  rewrite E in Hb. congruence.
Qed.



Lemma chars_app (a b : string) :
  list_ascii_of_string (a ++ b)
  = list_ascii_of_string a ++ list_ascii_of_string b.
Proof.
  induction a as [|c a IH]; [reflexivity|].
  cbn [String.append list_ascii_of_string app]. now rewrite IH.
Qed.

Lemma is_digit_digit_char (d : Z) :
  0 <= d < 10 -> PyStr.is_digit (PyStr.digit_char d) = true.
Proof.
  intros H.
  assert (E : d = 0 \/ d = 1 \/ d = 2 \/ d = 3 \/ d = 4 \/ d = 5 \/ d = 6
              \/ d = 7 \/ d = 8 \/ d = 9) by lia.
  repeat (destruct E as [->|E]; [reflexivity|]). now subst.
Qed.

Lemma digits_fuel_has_digit (fuel : nat) (n : Z) :
  0 <= n -> has_digit (PyStr.digits_fuel fuel n) = true.
Proof.
  intros Hn. destruct fuel as [|fuel]; cbn [PyStr.digits_fuel].
  - cbn [has_digit existsb]. rewrite is_digit_digit_char; [reflexivity|].
    apply Z.mod_pos_bound. lia.
  - destruct (n <? 10) eqn:E.
    + apply Z.ltb_lt in E. cbn [has_digit existsb].
      rewrite is_digit_digit_char; [reflexivity|lia].
    + rewrite has_digit_app. cbn [has_digit existsb].
      rewrite is_digit_digit_char, !orb_true_r; [reflexivity|].
      apply Z.mod_pos_bound. lia.
Qed.

Lemma format_d_has_digit (width : nat) (n : Z) :
  has_digit (list_ascii_of_string (PyInt.format_d width n)) = true.
Proof.
  unfold PyInt.format_d, PyInt.zero_pad.
  rewrite list_ascii_of_string_of_list_ascii, !has_digit_app.
  unfold PyStr.digits_of. rewrite digits_fuel_has_digit by lia.
  now rewrite !orb_true_r.
Qed.




(** ** The post-pass sort *)




(** ** Powers of two and the binary logarithm *)

Local Open Scope Q_scope.

Lemma pow2_pos (e : Z) : 0 < pow2 e.
Proof. apply Qpower_0_lt. reflexivity. Qed.

Lemma pow2_add (a b : Z) : pow2 (a + b) == pow2 a * pow2 b.
Proof. apply Qpower_plus. discriminate. Qed.

Lemma pow2_le (a b : Z) : (a <= b)%Z -> pow2 a <= pow2 b.
Proof. intros H. apply Qpower_le_compat_l; [exact H|discriminate]. Qed.

Lemma pow2_lt (a b : Z) : (a < b)%Z -> pow2 a < pow2 b.
Proof. intros H. apply Qpower_lt_compat_l; [exact H|reflexivity]. Qed.

Lemma pow2_lt_inv (a b : Z) : pow2 a < pow2 b -> (a < b)%Z.
Proof. intros H. apply Qpower_lt_compat_l_inv with 2; [exact H|reflexivity]. Qed.

Lemma pow2_Z (e : Z) : (0 <= e)%Z -> pow2 e == inject_Z (2 ^ e).
Proof. intros H. unfold pow2. now rewrite Zpower_Qpower. Qed.

Lemma pow2_succ (e : Z) : pow2 (e + 1) == 2 * pow2 e.
Proof. rewrite pow2_add. change (pow2 1) with 2. ring. Qed.

Lemma pow2_pred (e : Z) : pow2 (e - 1) == pow2 e / 2.
Proof.
  assert (H := pow2_succ (e - 1)). replace (e - 1 + 1)%Z with e in H by ring.
  rewrite H. field.
Qed.

Lemma Qabs_num_den (x : Q) :
  Qabs x == inject_Z (Z.abs (Qnum x)) / inject_Z (Zpos (Qden x)).
Proof.
  destruct x as [n d]. cbn [Qnum Qden]. rewrite <- Zabs_Qabs.
  unfold Qeq, Qdiv, Qmult, Qinv, inject_Z. cbn. lia.
Qed.

Lemma Z_log2_pow2 (n : Z) :
  (0 < n)%Z ->
  pow2 (Z.log2 n) <= inject_Z n /\ inject_Z n < pow2 (Z.log2 n + 1).
Proof.
  intros Hn. destruct (Z.log2_spec n Hn) as [H1 H2].
  pose proof (Z.log2_nonneg n) as H0.
  rewrite !pow2_Z by lia. split.
  - now rewrite <- Zle_Qle.
  - rewrite <- Zlt_Qlt. now rewrite <- Z.add_1_r in H2.
Qed.

Lemma ilog2_spec (x : Q) :
  ~ x == 0 -> pow2 (ilog2 x) <= Qabs x /\ Qabs x < pow2 (ilog2 x + 1).
Proof.
  intros Hx. unfold ilog2.
  set (n := Z.abs (Qnum x)). set (d := Zpos (Qden x)).
  assert (Hn : (0 < n)%Z).
  { subst n. destruct x as [[|p|p] q]; cbn; try lia.
    exfalso. apply Hx. reflexivity. }
  assert (Hd : (0 < d)%Z) by (subst d; lia).
  destruct (Z_log2_pow2 n Hn) as [Hn1 Hn2].
  destruct (Z_log2_pow2 d Hd) as [Hd1 Hd2].
  set (a := Z.log2 n) in *. set (b := Z.log2 d) in *.
  assert (Habs : Qabs x == inject_Z n / inject_Z d) by apply Qabs_num_den.
  assert (Hdq : 0 < inject_Z d) by (rewrite Zlt_Qlt in Hd; exact Hd).
  assert (Hup : Qabs x < pow2 (a - b + 1)).
  { rewrite Habs. apply Qlt_shift_div_r; [exact Hdq|].
    apply Qlt_le_trans with (pow2 (a + 1)); [exact Hn2|].
    replace (a + 1)%Z with ((a - b + 1) + b)%Z by ring.
    rewrite pow2_add. apply Qmult_le_l; [apply pow2_pos|exact Hd1]. }
  assert (Hlo : pow2 (a - b - 1) <= Qabs x).
  { rewrite Habs. apply Qle_shift_div_l; [exact Hdq|].
    apply Qle_trans with (pow2 a); [|exact Hn1].
    replace a with ((a - b - 1) + (b + 1))%Z at 2 by ring.
    rewrite pow2_add. apply Qmult_le_l; [apply pow2_pos|].
    now apply Qlt_le_weak. }
  destruct (Qle_bool (pow2 (a - b)) (Qabs x)) eqn:E.
  - apply Qle_bool_iff in E. split; [exact E|exact Hup].
  - split; [exact Hlo|].
    replace (a - b - 1 + 1)%Z with (a - b)%Z by ring.
    apply Qnot_le_lt. intros H. apply Qle_bool_iff in H. congruence.
Qed.

Lemma ilog2_unique (x : Q) (g : Z) :
  pow2 g <= Qabs x -> Qabs x < pow2 (g + 1) -> ilog2 x = g.
Proof.
  intros H1 H2.
  assert (Hx : ~ x == 0).
  { intros E. rewrite E in H1. pose proof (pow2_pos g). cbn in H1. lra. }
  destruct (ilog2_spec x Hx) as [S1 S2].
  assert (L1 : (g < ilog2 x + 1)%Z)
    by (apply pow2_lt_inv; eapply Qle_lt_trans; eauto).
  assert (L2 : (ilog2 x < g + 1)%Z)
    by (apply pow2_lt_inv; eapply Qle_lt_trans; eauto).
  lia.
Qed.

Lemma ilog2_comp (x y : Q) : ~ y == 0 -> x == y -> ilog2 x = ilog2 y.
Proof.
  intros Hy E. destruct (ilog2_spec y Hy) as [S1 S2].
  apply ilog2_unique; rewrite E; assumption.
Qed.

Lemma Qabs_nonzero (x : Q) : ~ x == 0 -> 0 < Qabs x.
Proof.
  intros Hx. destruct (Q_dec x 0) as [[H|H]|H]; [| |contradiction].
  - rewrite Qabs_neg by lra. lra.
  - rewrite Qabs_pos by lra. lra.
Qed.

Lemma ilog2_mono (x y : Q) :
  ~ x == 0 -> Qabs x <= Qabs y -> (ilog2 x <= ilog2 y)%Z.
Proof.
  intros Hx H. pose proof (Qabs_nonzero x Hx) as Px.
  assert (Hy : ~ y == 0).
  { intros E. rewrite E in H. cbn in H. lra. }
  destruct (ilog2_spec x Hx) as [X1 X2]. destruct (ilog2_spec y Hy) as [Y1 Y2].
  assert (L : (ilog2 x < ilog2 y + 1)%Z) by (apply pow2_lt_inv; lra).
  lia.
Qed.

(** ** Rounding to an integer *)

Lemma round_half_even_cases (x : Q) :
  let f := Qfloor x in
  let r := x - inject_Z f in
  0 <= r /\ r < 1
  /\ ((r < 1 # 2 /\ round_half_even x = f)
      \/ (r == 1 # 2 /\ round_half_even x = (if Z.even f then f else f + 1)%Z)
      \/ (1 # 2 < r /\ round_half_even x = (f + 1)%Z)).
Proof.
  cbv zeta. pose proof (Qfloor_le x) as H1. pose proof (Qlt_floor x) as H2.
  rewrite inject_Z_plus in H2. change (inject_Z 1) with 1 in H2.
  split; [lra|]. split; [lra|].
  unfold round_half_even.
  destruct (x - inject_Z (Qfloor x) ?= 1 # 2) eqn:E.
  - apply Qeq_alt in E. right; left. split; [exact E|reflexivity].
  - apply Qlt_alt in E. left. split; [exact E|reflexivity].
  - apply Qgt_alt in E. right; right. split; [exact E|reflexivity].
Qed.

Lemma round_half_even_error (x : Q) :
  Qabs (inject_Z (round_half_even x) - x) <= 1 # 2.
Proof.
  destruct (round_half_even_cases x) as (H0 & H1 & [[Hr ->]|[[Hr ->]|[Hr ->]]]);
    apply Qabs_Qle_condition.
  - lra.
  - destruct (Z.even (Qfloor x)); [lra|].
    rewrite inject_Z_plus. change (inject_Z 1) with 1. lra.
  - rewrite inject_Z_plus. change (inject_Z 1) with 1. lra.
Qed.

Lemma round_half_even_comp (x y : Q) :
  x == y -> round_half_even x = round_half_even y.
Proof.
  intros E. unfold round_half_even.
  assert (Hf : Qfloor x = Qfloor y) by (now rewrite E).
  assert (Hc : (x - inject_Z (Qfloor x) ?= 1 # 2)
               = (y - inject_Z (Qfloor y) ?= 1 # 2)).
  { rewrite Hf. apply Qcompare_comp; [|reflexivity]. now rewrite E. }
  now rewrite Hc, Hf.
Qed.

Lemma round_half_even_Z (x : Q) (k : Z) :
  x == inject_Z k -> round_half_even x = k.
Proof.
  intros E. rewrite (round_half_even_comp x (inject_Z k) E).
  unfold round_half_even. rewrite Qfloor_Z.
  assert (H : (inject_Z k - inject_Z k ?= 1 # 2) = Lt).
  { rewrite <- Qlt_alt. lra. }
  now rewrite H.
Qed.

Lemma round_half_even_mono (x y : Q) :
  x <= y -> (round_half_even x <= round_half_even y)%Z.
Proof.
  intros H. pose proof (Qfloor_resp_le x y H) as Hf.
  destruct (round_half_even_cases x) as (X0 & X1 & HX).
  destruct (round_half_even_cases y) as (Y0 & Y1 & HY).
  destruct (Z.eq_dec (Qfloor x) (Qfloor y)) as [E|E].
  - rewrite <- E in *.
    destruct HX as [[Hx ->]|[[Hx ->]|[Hx ->]]];
      destruct HY as [[Hy ->]|[[Hy ->]|[Hy ->]]];
      try (destruct (Z.even (Qfloor x))); try lia; exfalso; lra.
  - assert (Hlt : (Qfloor x + 1 <= Qfloor y)%Z) by lia.
    destruct HX as [[Hx ->]|[[Hx ->]|[Hx ->]]];
      destruct HY as [[Hy ->]|[[Hy ->]|[Hy ->]]];
      try (destruct (Z.even (Qfloor x))); try (destruct (Z.even (Qfloor y)));
      lia.
Qed.

Lemma round_half_even_bounds (x : Q) (a b : Z) :
  inject_Z a <= x -> x <= inject_Z b ->
  (a <= round_half_even x <= b)%Z.
Proof.
  intros Ha Hb.
  pose proof (round_half_even_mono _ _ Ha) as H1.
  pose proof (round_half_even_mono _ _ Hb) as H2.
  rewrite (round_half_even_Z (inject_Z a) a) in H1 by reflexivity.
  rewrite (round_half_even_Z (inject_Z b) b) in H2 by reflexivity.
  lia.
Qed.

(** ** Rounding to binary64 *)

Lemma round64_eq (x : Q) :
  round64 x =
  if (rmant x =? 0)%Z then Fzero (Qnum x <? 0)%Z
  else if (1024 <=? Z.log2 (Z.abs (rmant x)) + rexp x)%Z
       then Finf (Qnum x <? 0)%Z
       else Ffin (Qred (inject_Z (rmant x) * pow2 (rexp x))).
Proof. reflexivity. Qed.

Lemma Qnum_neg_comp (x y : Q) : x == y -> (Qnum x <? 0)%Z = (Qnum y <? 0)%Z.
Proof.
  destruct x as [a b], y as [c d]. unfold Qeq. cbn [Qnum Qden]. intros E.
  destruct (Z.ltb_spec a 0), (Z.ltb_spec c 0); try reflexivity; exfalso; nia.
Qed.

Lemma rmant_zero (x : Q) : x == 0 -> rmant x = 0%Z.
Proof.
  intros E. unfold rmant. apply round_half_even_Z.
  generalize (rexp x). intros r. rewrite E. unfold Qdiv. ring.
Qed.

Lemma round64_comp (x y : Q) : x == y -> round64 x = round64 y.
Proof.
  intros E. rewrite !round64_eq, (Qnum_neg_comp x y E).
  destruct (Qeq_dec y 0) as [Hy|Hy].
  - rewrite (rmant_zero y Hy), (rmant_zero x) by (now rewrite E).
    reflexivity.
  - assert (Hr : rexp x = rexp y) by (unfold rexp; now rewrite (ilog2_comp x y)).
    assert (Hm : rmant x = rmant y).
    { unfold rmant. rewrite Hr. apply round_half_even_comp. now rewrite E. }
    rewrite Hr, Hm. reflexivity.
Qed.

Lemma Qabs_Z (k : Z) : Qabs (inject_Z k) == inject_Z (Z.abs k).
Proof. unfold inject_Z. now rewrite <- Zabs_Qabs. Qed.

Lemma Qabs_scaled (k e : Z) :
  Qabs (inject_Z k * pow2 e) == inject_Z (Z.abs k) * pow2 e.
Proof.
  rewrite Qabs_Qmult, Qabs_Z, (Qabs_pos (pow2 e)); [reflexivity|].
  apply Qlt_le_weak, pow2_pos.
Qed.

Lemma Z_lt_pow2_log2 (k a : Z) :
  (0 < k)%Z -> inject_Z k < pow2 a -> (Z.log2 k < a)%Z.
Proof.
  intros Hk H. destruct (Z_log2_pow2 k Hk) as [H1 _].
  apply pow2_lt_inv. lra.
Qed.

(** A double is left unchanged by rounding. *)
Lemma round64_double (v : Q) : is_double v -> round64 v = Ffin (Qred v).
Proof.
  intros (k & e & Hv & Hk & He & Hmax).
  assert (Hk0 : (k <> 0)%Z) by lia.
  assert (Hv0 : ~ v == 0).
  { intros E. rewrite E in Hv. pose proof (pow2_pos e).
    assert (Hz : inject_Z k == 0) by nra.
    unfold Qeq in Hz. cbn in Hz. lia. }
  assert (Habs : Qabs v == inject_Z (Z.abs k) * pow2 e)
    by (rewrite Hv; apply Qabs_scaled).
  destruct (ilog2_spec v Hv0) as [S1 S2].
  assert (Hr : (rexp v <= e)%Z).
  { unfold rexp. apply Z.max_lub; [|exact He].
    assert (L : (ilog2 v < 53 + e)%Z).
    { apply pow2_lt_inv. eapply Qle_lt_trans; [exact S1|].
      rewrite Habs, pow2_add. apply Qmult_lt_r; [apply pow2_pos|].
      rewrite pow2_Z by lia. rewrite <- Zlt_Qlt. lia. }
    lia. }
  set (r := rexp v) in *.
  set (k' := (k * 2 ^ (e - r))%Z).
  assert (Hscale : pow2 e == inject_Z (2 ^ (e - r)) * pow2 r).
  { rewrite <- pow2_Z by lia. rewrite <- pow2_add. now replace (e - r + r)%Z with e by ring. }
  assert (Hval : inject_Z k' * pow2 r == v).
  { subst k'. rewrite inject_Z_mult, Hv, Hscale. ring. }
  assert (Hm : rmant v = k').
  { unfold rmant. fold r. apply round_half_even_Z. rewrite <- Hval.
    field. pose proof (pow2_pos r). lra. }
  assert (Hk' : (0 < Z.abs k')%Z).
  { subst k'. rewrite Z.abs_mul.
    assert (0 < 2 ^ (e - r))%Z by (apply Z.pow_pos_nonneg; lia).
    rewrite (Z.abs_eq (2 ^ (e - r))) by lia. nia. }
  rewrite round64_eq, Hm. fold r.
  destruct (Z.eqb_spec k' 0) as [E|_]; [lia|].
  destruct (Z.leb_spec 1024 (Z.log2 (Z.abs k') + r)) as [L|_].
  - exfalso.
    assert (L' : (Z.log2 (Z.abs k') < 1024 - r)%Z).
    { apply Z_lt_pow2_log2; [exact Hk'|].
      apply Qmult_lt_r with (pow2 r); [apply pow2_pos|].
      rewrite <- pow2_add, <- Qabs_scaled, Hval.
      now replace (1024 - r + r)%Z with 1024%Z by ring. }
    lia.
  - f_equal. apply Qred_complete. exact Hval.
Qed.

Lemma rmant_bound (x : Q) : ~ x == 0 -> (Z.abs (rmant x) <= 2 ^ 53)%Z.
Proof.
  intros Hx. destruct (ilog2_spec x Hx) as [_ S2].
  pose proof (pow2_pos (rexp x)) as Hp.
  assert (Hq : Qabs (x / pow2 (rexp x)) <= inject_Z (2 ^ 53)).
  { unfold Qdiv. rewrite Qabs_Qmult, Qabs_Qinv, (Qabs_pos (pow2 (rexp x))) by lra.
    apply Qle_shift_div_r; [exact Hp|].
    rewrite <- pow2_Z by lia. rewrite <- pow2_add.
    apply Qlt_le_weak. eapply Qlt_le_trans; [exact S2|].
    apply pow2_le. unfold rexp. lia. }
  apply Qabs_Qle_condition in Hq. destruct Hq as [H1 H2].
  rewrite <- inject_Z_opp in H1.
  pose proof (round_half_even_bounds _ _ _ H1 H2). unfold rmant. lia.
Qed.

Lemma round64_fin_inv (x v : Q) :
  round64 x = Ffin v ->
  (rmant x <> 0)%Z
  /\ (Z.log2 (Z.abs (rmant x)) + rexp x < 1024)%Z
  /\ v = Qred (inject_Z (rmant x) * pow2 (rexp x)).
Proof.
  rewrite round64_eq.
  destruct (Z.eqb_spec (rmant x) 0); [discriminate|].
  destruct (Z.leb_spec 1024 (Z.log2 (Z.abs (rmant x)) + rexp x));
    [discriminate|].
  intros E; inversion E. auto.
Qed.

(** What rounding returns is a double. *)
Lemma round64_is_double (x v : Q) : round64 x = Ffin v -> is_double v.
Proof.
  intros H. destruct (round64_fin_inv x v H) as (Hk & Hlog & ->).
  assert (Hx : ~ x == 0) by (intros E; apply Hk; now apply rmant_zero).
  pose proof (rmant_bound x Hx) as Hb.
  set (k := rmant x) in *. set (r := rexp x) in *.
  assert (Hr : (-1074 <= r)%Z) by (subst r; unfold rexp; lia).
  assert (Hmax : Qabs (Qred (inject_Z k * pow2 r)) < pow2 1024).
  { rewrite Qred_correct, Qabs_scaled.
    assert (Hka : (0 < Z.abs k)%Z) by lia.
    destruct (Z_log2_pow2 (Z.abs k) Hka) as [_ H2].
    apply Qlt_le_trans with (pow2 (Z.log2 (Z.abs k) + 1) * pow2 r).
    - apply Qmult_lt_r; [apply pow2_pos|exact H2].
    - rewrite <- pow2_add. apply pow2_le. lia. }
  destruct (Z.eq_dec (Z.abs k) (2 ^ 53)) as [E|E].
  - exists (k / 2)%Z, (r + 1)%Z. split; [|split; [|split; [lia|exact Hmax]]].
    + rewrite Qred_correct, pow2_succ.
      assert (Hk2 : k = (2 * (k / 2))%Z).
      { assert (k = 2 ^ 53 \/ k = - 2 ^ 53)%Z as [-> | ->] by lia; reflexivity. }
      rewrite Hk2 at 1. rewrite inject_Z_mult. change (inject_Z 2) with 2. ring.
    + assert (k = 2 ^ 53 \/ k = - 2 ^ 53)%Z as [-> | ->] by lia; cbn; lia.
  - exists k, r. split; [apply Qred_correct|].
    split; [lia|]. split; [exact Hr|exact Hmax].
Qed.

(** ** Exact arithmetic on non-negative doubles *)

Lemma holds_comp (x : float) (q q' : Q) : q == q' -> holds x q -> holds x q'.
Proof.
  intros E [H0 H]. split; [now rewrite <- E|].
  destruct x as [| |neg|v]; try exact H.
  - destruct H as [-> H]. split; [reflexivity|now rewrite <- E].
  - destruct H as [H1 H2]. split; [now rewrite <- E|now rewrite <- E].
Qed.

Lemma Qeq_bool_false (x y : Q) : ~ x == y -> Qeq_bool x y = false.
Proof.
  intros H. destruct (Qeq_bool x y) eqn:E; [|reflexivity].
  apply Qeq_bool_true in E. contradiction.
Qed.

Lemma holds_round (q : Q) :
  0 <= q -> representable q ->
  holds (if Qeq_bool q 0 then Fzero false else round64 q) q.
Proof.
  intros H0 Hr. split; [exact H0|].
  destruct (Qeq_dec q 0) as [E|E].
  - rewrite (Qeq_eq_bool _ _ E). now split.
  - rewrite (Qeq_bool_false _ _ E). destruct Hr as [Hr|Hr]; [contradiction|].
    rewrite (round64_double q Hr). split; [apply Qred_correct|exact E].
Qed.

Lemma holds_value (x : float) (q : Q) : holds x q -> value x == q.
Proof.
  intros [_ H]. destruct x as [| |neg|v]; try contradiction; cbn [value].
  - destruct H as [_ H]. now rewrite H.
  - now destruct H.
Qed.

Lemma holds_flt (x y : float) (a b : Q) :
  holds x a -> holds y b -> flt x y = Qltb a b.
Proof.
  intros Hx Hy. pose proof (holds_value x a Hx) as Ex.
  pose proof (holds_value y b Hy) as Ey.
  destruct Hx as [_ Hx], Hy as [_ Hy].
  destruct x as [| |nx|v]; try contradiction;
    destruct y as [| |ny|w]; try contradiction; cbn [flt];
    unfold Qltb; now rewrite Ex, Ey.
Qed.

Lemma holds_fsub (x y : float) (a b : Q) :
  holds x a -> holds y b -> b <= a -> representable (a - b) ->
  holds (fsub x y) (a - b).
Proof.
  intros Hx Hy Hle Hr.
  assert (H0 : 0 <= a - b) by lra.
  pose proof (holds_round (a - b) H0 Hr) as Hres.
  destruct Hx as [Ha Hx], Hy as [Hb Hy].
  destruct x as [| |nx|v]; try contradiction;
    destruct y as [| |ny|w]; try contradiction; unfold fsub; cbn [fneg fadd].
  - destruct Hx as [-> Hx], Hy as [-> Hy]. cbn [andb negb].
    split; [exact H0|]. split; [reflexivity|lra].
  - destruct Hx as [-> Hx], Hy as [Hy1 Hy2]. exfalso. apply Hy2. lra.
  - destruct Hx as [Hx1 Hx2], Hy as [-> Hy]. cbn [value negb].
    assert (E : v + 0 == a - b) by lra.
    erewrite Qeqb_comp; [|exact E|reflexivity].
    rewrite (round64_comp _ _ E). exact Hres.
  - destruct Hx as [Hx1 Hx2], Hy as [Hy1 Hy2]. cbn [value].
    assert (E : v + - w == a - b) by lra.
    erewrite Qeqb_comp; [|exact E|reflexivity].
    rewrite (round64_comp _ _ E). exact Hres.
Qed.

#[local] Instance inject_Z_comp : Proper (eq ==> Qeq) inject_Z.
Proof. intros x y ->. reflexivity. Qed.

Lemma Qnum_neg_false (v : Q) : 0 <= v -> (Qnum v <? 0)%Z = false.
Proof.
  destruct v as [n d]. unfold Qle. cbn. intros H. apply Z.ltb_ge. lia.
Qed.

Lemma Qtrunc_nonneg (x : Q) : 0 <= x -> Qtrunc x = Qfloor x.
Proof.
  destruct x as [n d]. unfold Qle, Qtrunc, Qfloor. cbn [Qnum Qden].
  intros H. apply Z.quot_div_nonneg; lia.
Qed.

Lemma holds_fdiv (x : float) (a c : Q) :
  holds x a -> 0 < c -> representable (a / c) ->
  holds (fdiv x (Ffin c)) (a / c).
Proof.
  intros [Ha Hx] Hc Hr.
  assert (H0 : 0 <= a / c) by (apply Qle_shift_div_l; lra).
  pose proof (holds_round (a / c) H0 Hr) as Hres.
  assert (Hs : sign (Ffin c) = false) by (apply Qnum_neg_false; lra).
  destruct x as [| |nx|v]; try contradiction; cbn [fdiv].
  - destruct Hx as [-> Hx]. rewrite Hs. cbn [xorb].
    split; [exact H0|]. split; [reflexivity|]. rewrite Hx. unfold Qdiv. ring.
  - destruct Hx as [Hx1 Hx2].
    assert (E : v / c == a / c) by (now rewrite Hx1).
    assert (Hn : ~ a / c == 0).
    { intros F. apply Hx2. 
      assert (a == a / c * c) by (field; lra). rewrite H, F. ring. }
    rewrite (Qeq_bool_false _ _ Hn) in Hres.
    rewrite (round64_comp _ _ E). exact Hres.
Qed.

Lemma holds_ffloor (x : float) (a : Q) :
  holds x a -> holds (ffloor x) (inject_Z (Qfloor a)).
Proof.
  intros [Ha Hx].
  assert (H0 : (0 <= Qfloor a)%Z).
  { pose proof (Qfloor_resp_le 0 a Ha) as H. exact H. }
  assert (H0q : 0 <= inject_Z (Qfloor a)).
  { rewrite Zle_Qle in H0. exact H0. }
  destruct x as [| |nx|v]; try contradiction; cbn [ffloor].
  - destruct Hx as [-> Hx]. split; [exact H0q|]. split; [reflexivity|].
    rewrite Hx. reflexivity.
  - destruct Hx as [Hx1 Hx2].
    assert (Ef : Qfloor v = Qfloor a) by (now rewrite Hx1).
    cbv zeta. rewrite Ef. split; [exact H0q|].
    destruct (Z.eqb_spec (Qfloor a) 0) as [E|E].
    + split; [reflexivity|]. now rewrite E.
    + split; [reflexivity|]. intros F. apply E.
      unfold Qeq in F. cbn in F. lia.
Qed.

Lemma holds_to_int (x : float) (a : Q) :
  holds x a -> to_int x = Ok (Qfloor a).
Proof.
  intros [Ha Hx]. destruct x as [| |nx|v]; try contradiction; cbn [to_int].
  - destruct Hx as [_ Hx]. rewrite Hx. reflexivity.
  - destruct Hx as [Hx1 _].
    rewrite Qtrunc_nonneg by (rewrite Hx1; exact Ha). now rewrite Hx1.
Qed.

Lemma holds_nonzero (x : float) (a : Q) :
  holds x a -> nonzero x = negb (Qeq_bool a 0).
Proof.
  intros [Ha Hx]. destruct x as [| |nx|v]; try contradiction; cbn [nonzero].
  - destruct Hx as [_ Hx]. now rewrite (Qeq_eq_bool _ _ Hx).
  - destruct Hx as [_ Hx]. now rewrite (Qeq_bool_false _ _ Hx).
Qed.

Lemma holds_fmod (x : float) (a c : Q) :
  holds x a -> 0 < c ->
  holds (fmod x (Ffin c)) (a - c * inject_Z (Qfloor (a / c))).
Proof.
  intros [Ha Hx] Hc.
  assert (Hq : 0 <= a / c) by (apply Qle_shift_div_l; lra).
  pose proof (Qfloor_le (a / c)) as Hf.
  assert (Hr : 0 <= a - c * inject_Z (Qfloor (a / c))).
  { assert (H1 : inject_Z (Qfloor (a / c)) * c <= a / c * c)
      by (apply Qmult_le_compat_r; lra).
    assert (H2 : a / c * c == a) by (field; lra).
    lra. }
  destruct x as [| |nx|v]; try contradiction; cbn [fmod].
  - destruct Hx as [-> Hx]. split; [exact Hr|]. split; [reflexivity|].
    assert (E : a / c == 0) by (rewrite Hx; unfold Qdiv; ring).
    rewrite (Qfloor_comp _ _ E). change (Qfloor 0) with 0%Z.
    rewrite Hx. ring.
  - destruct Hx as [Hx1 Hx2].
    assert (Hv : 0 <= v / c) by (now rewrite Hx1).
    rewrite (Qtrunc_nonneg _ Hv).
    assert (E : v - c * inject_Z (Qfloor (v / c))
                == a - c * inject_Z (Qfloor (a / c))) by (now rewrite Hx1).
    split; [exact Hr|].
    destruct (Qeq_bool _ 0) eqn:F.
    + apply Qeq_bool_true in F. split; [apply Qnum_neg_false; lra|].
      now rewrite <- E.
    + split; [now rewrite Qred_correct|]. intros G.
      rewrite <- E in G. apply Qeq_eq_bool in G. congruence.
Qed.

Lemma holds_of_int (n : Z) :
  (0 <= n)%Z -> representable (inject_Z n) ->
  exists x, of_int n = Ok x /\ holds x (inject_Z n).
Proof.
  intros Hn Hr. unfold of_int.
  assert (H0 : 0 <= inject_Z n) by (rewrite Zle_Qle in Hn; exact Hn).
  pose proof (holds_round _ H0 Hr) as H.
  destruct (Z.eq_dec n 0) as [->|E].
  - exists (Fzero false). split; [reflexivity|exact H].
  - assert (Hq : ~ inject_Z n == 0)
      by (intros F; unfold Qeq in F; cbn in F; lia).
    rewrite (Qeq_bool_false _ _ Hq) in H.
    destruct Hr as [Hr|Hr]; [contradiction|].
    rewrite (round64_double _ Hr) in *.
    exists (Ffin (Qred (inject_Z n))). split; [reflexivity|exact H].
Qed.

Lemma representable_Z (k : Z) : (0 <= k < 2 ^ 53)%Z -> representable (inject_Z k).
Proof.
  intros H. destruct (Z.eq_dec k 0) as [->|E]; [now left|]. right.
  exists k, 0%Z. split; [change (pow2 0) with 1; ring|].
  split; [lia|]. split; [lia|].
  rewrite Qabs_Z, pow2_Z by lia. rewrite <- Zlt_Qlt.
  apply Z.lt_trans with (2 ^ 53)%Z; [lia|reflexivity].
Qed.

Lemma minutes_seconds_bounds (v : Q) :
  0 <= v ->
  (0 <= minutes_of v)%Z /\ 0 <= seconds_of v /\ seconds_of v < 60
  /\ inject_Z (60 * minutes_of v) <= v.
Proof.
  intros Hv. unfold seconds_of, minutes_of.
  pose proof (Qfloor_le (v / 60)) as H1.
  pose proof (Qlt_floor (v / 60)) as H2.
  rewrite inject_Z_plus in H2. change (inject_Z 1) with 1 in H2.
  assert (E : v == 60 * (v / 60)) by (field; lra).
  assert (H0 : (0 <= Qfloor (v / 60))%Z).
  { apply (Qfloor_resp_le 0 (v / 60)). apply Qle_shift_div_l; lra. }
  rewrite inject_Z_mult. change (inject_Z 60) with 60.
  repeat split; try lra; exact H0.
Qed.

Lemma seconds_representable (v : Q) :
  0 <= v -> representable v -> v < pow2 53 -> representable (seconds_of v).
Proof.
  intros Hv Hr Hb.
  destruct (minutes_seconds_bounds v Hv) as (Hn & Hs0 & Hs60 & Hle).
  destruct (Qeq_dec (seconds_of v) 0) as [E|E]; [now left|].
  destruct Hr as [Hr|(k & e & Hk & Hkb & He & Hmax)].
  { exfalso. apply E. unfold seconds_of, minutes_of.
    assert (F : v / 60 == 0) by (rewrite Hr; reflexivity).
    rewrite (Qfloor_comp _ _ F), Hr. reflexivity. }
  set (n := minutes_of v) in *.
  assert (Hs : seconds_of v == v - inject_Z (60 * n)).
  { unfold seconds_of. fold n. rewrite inject_Z_mult. reflexivity. }
  assert (Hpos : 0 < seconds_of v) by lra.
  right. destruct (Z.le_gt_cases 0 e) as [Le|Le].
  - (* an integer *)
    assert (Hv' : v == inject_Z (k * 2 ^ e)).
    { rewrite Hk, inject_Z_mult, pow2_Z by lia. reflexivity. }
    exists (k * 2 ^ e - 60 * n)%Z, 0%Z.
    assert (Hq : seconds_of v == inject_Z (k * 2 ^ e - 60 * n)).
    { rewrite Hs, Hv'. unfold Zminus. rewrite inject_Z_plus, inject_Z_opp.
      reflexivity. }
    assert (Hz : (0 < k * 2 ^ e - 60 * n < 60)%Z).
    { rewrite Hq in Hpos, Hs60. change 0 with (inject_Z 0) in Hpos.
      change 60 with (inject_Z 60) in Hs60.
      rewrite <- Zlt_Qlt in Hpos, Hs60. lia. }
    split; [rewrite Hq; change (pow2 0) with 1; ring|].
    split; [lia|]. split; [lia|].
    rewrite Hq, Qabs_Z, pow2_Z by lia. rewrite <- Zlt_Qlt.
    apply Z.lt_trans with 60%Z; [lia|reflexivity].
  - (* a multiple of [2^e], [e < 0] *)
    set (c := (60 * n * 2 ^ (- e))%Z).
    assert (Hc : inject_Z (60 * n) == inject_Z c * pow2 e).
    { subst c. rewrite (inject_Z_mult (60 * n)).
      rewrite <- (pow2_Z (- e)) by lia.
      rewrite <- Qmult_assoc, <- pow2_add.
      replace (- e + e)%Z with 0%Z by ring. change (pow2 0) with 1. ring. }
    assert (Hq : seconds_of v == inject_Z (k - c) * pow2 e).
    { rewrite Hs, Hk, Hc. unfold Zminus.
      rewrite inject_Z_plus, inject_Z_opp. ring. }
    pose proof (pow2_pos e) as Hp.
    assert (Hkc : (0 < k - c <= k)%Z).
    { split.
      - rewrite Hq in Hpos.
        assert (0 < inject_Z (k - c)) by nra.
        change 0 with (inject_Z 0) in H. now rewrite <- Zlt_Qlt in H.
      - assert (0 <= c)%Z; [|lia]. subst c.
        assert (0 < 2 ^ (- e))%Z by (apply Z.pow_pos_nonneg; lia). nia. }
    exists (k - c)%Z, e. split; [exact Hq|]. split; [lia|]. split; [exact He|].
    rewrite Qabs_pos by lra.
    apply Qlt_trans with 60; [exact Hs60|reflexivity].
Qed.

Lemma holds_zero : holds (Fzero false) 0.
Proof. split; [apply Qle_refl|]. now split. Qed.

Lemma holds_fin (v : Q) : 0 < v -> holds (Ffin v) v.
Proof. intros H. split; [lra|]. split; [reflexivity|lra]. Qed.

(** [int(t // 60)] is the floor of [t / 60]. *)
Lemma floordiv_60 (t : float) (v : Q) :
  holds t v -> representable v -> v < pow2 53 ->
  to_int (floordiv t (Ffin 60)) = Ok (minutes_of v).
Proof.
  intros Ht Hr Hb. pose proof Ht as [Hv _].
  destruct (minutes_seconds_bounds v Hv) as (Hn & Hs0 & Hs60 & Hle).
  assert (H60 : 0 < 60) by reflexivity.
  (* rem = fmod(vx, wx) *)
  pose proof (holds_fmod t v 60 Ht H60) as Hrem.
  change (v - 60 * inject_Z (Qfloor (v / 60))) with (seconds_of v) in Hrem.
  assert (Ediff : v - seconds_of v == inject_Z (60 * minutes_of v)).
  { unfold seconds_of. rewrite inject_Z_mult. change (inject_Z 60) with 60.
    ring. }
  remember (minutes_of v) as n eqn:En. remember (seconds_of v) as s eqn:Es.
  assert (Hn53 : (0 <= 60 * n < 2 ^ 53)%Z).
  { split; [lia|]. rewrite Zlt_Qlt. rewrite <- pow2_Z by lia.
    exact (Qle_lt_trans _ _ _ Hle Hb). }
  assert (Hn60 : 0 <= inject_Z (60 * n)).
  { change 0 with (inject_Z 0). rewrite <- Zle_Qle. lia. }
  (* vx - rem, an exact multiple of 60 *)
  assert (Hdiff : holds (fsub t (fmod t (Ffin 60))) (v - s)).
  { apply holds_fsub; [exact Ht|exact Hrem|lra|].
    destruct (representable_Z (60 * n) Hn53) as [R|R]; [left|right].
    - now rewrite Ediff.
    - destruct R as (k & e & R1 & R2). exists k, e. now rewrite Ediff. }
  (* div = (vx - rem) / wx *)
  assert (Equot : (v - s) / 60 == inject_Z n).
  { rewrite Ediff, inject_Z_mult. change (inject_Z 60) with 60. field. }
  assert (Hdiv : holds (fdiv (fsub t (fmod t (Ffin 60))) (Ffin 60)) (inject_Z n)).
  { apply (holds_comp _ _ _ Equot). apply holds_fdiv; [exact Hdiff|exact H60|].
    destruct (representable_Z n) as [R|R]; [lia|left|right].
    - now rewrite Equot.
    - destruct R as (k & e & R1 & R2). exists k, e. now rewrite Equot. }
  unfold floordiv.
  set (rem := fmod t (Ffin 60)) in *.
  set (div := fdiv (fsub t rem) (Ffin 60)) in *.
  (* the remainder has the sign of the divisor: no adjustment *)
  assert (Hadj : nonzero rem
                 && negb (Bool.eqb (flt (Ffin 60) (Fzero false))
                                   (flt rem (Fzero false))) = false).
  { assert (F : flt rem (Fzero false) = false).
    { rewrite (holds_flt rem (Fzero false) s 0 Hrem holds_zero).
      apply Qltb_ge. exact Hs0. }
    rewrite F. apply andb_false_r. }
  rewrite Hadj.
  rewrite (holds_nonzero div _ Hdiv).
  destruct (Qeq_bool (inject_Z n) 0) eqn:Ez; cbn [negb].
  - (* the quotient is zero *)
    apply Qeq_bool_true in Ez. apply (inject_Z_injective n 0) in Ez.
    rewrite Ez. reflexivity.
  - (* floor(div), and div - floor(div) is not above 0.5 *)
    pose proof (holds_ffloor div _ Hdiv) as Hfl. rewrite Qfloor_Z in Hfl.
    assert (Hfrac : holds (fsub div (ffloor div)) (inject_Z n - inject_Z n)).
    { apply holds_fsub; [exact Hdiv|exact Hfl|apply Qle_refl|].
      left. ring. }
    assert (F : flt half (fsub div (ffloor div)) = false).
    { rewrite (holds_flt half _ (1 # 2) (inject_Z n - inject_Z n)
                 (holds_fin (1 # 2) eq_refl) Hfrac).
      apply Qltb_ge. lra. }
    rewrite F. rewrite (holds_to_int _ _ Hfl). now rewrite Qfloor_Z.
Qed.

Lemma fixed_digits_comp (prec : nat) (v w : Q) :
  v == w -> fixed_digits prec v = fixed_digits prec w.
Proof.
  intros E. unfold fixed_digits.
  assert (H : round_half_even (Qabs v * inject_Z (10 ^ Z.of_nat prec))
              = round_half_even (Qabs w * inject_Z (10 ^ Z.of_nat prec)))
    by (apply round_half_even_comp; now rewrite E).
  now rewrite H.
Qed.

Lemma format_f_holds (width prec : nat) (x : float) (q : Q) :
  holds x q ->
  format_f width prec x
  = string_of_list_ascii (PyInt.zero_pad width false (fixed_digits prec q)).
Proof.
  intros [Hq Hx]. destruct x as [| |neg|v]; try contradiction;
    unfold format_f.
  - destruct Hx as [-> Hx]. now rewrite (fixed_digits_comp prec q 0 Hx).
  - destruct Hx as [Hx _]. rewrite (fixed_digits_comp prec v q Hx).
    rewrite Qnum_neg_false; [reflexivity|]. now rewrite Hx.
Qed.

Lemma fmt_time_exact (t : float) (v : Q) :
  holds t v -> representable v -> v < pow2 53 ->
  _fmt_time t = Ok (time_text v).
Proof.
  intros Ht Hr Hb. pose proof Ht as [Hv _].
  destruct (minutes_seconds_bounds v Hv) as (Hn & Hs0 & Hs60 & Hle).
  unfold _fmt_time. rewrite (floordiv_60 t v Ht Hr Hb). cbn [bind].
  assert (Es : v - inject_Z (minutes_of v * 60) == seconds_of v).
  { unfold seconds_of. rewrite inject_Z_mult.
    change (inject_Z 60) with 60. ring. }
  pose proof (seconds_representable v Hv Hr Hb) as Hrs.
  unfold time_text.
  remember (minutes_of v) as n eqn:En. remember (seconds_of v) as s eqn:Esec.
  assert (Hn53 : (0 <= n * 60 < 2 ^ 53)%Z).
  { split; [lia|]. rewrite Zlt_Qlt. rewrite <- pow2_Z by lia.
    replace (n * 60)%Z with (60 * n)%Z by ring.
    exact (Qle_lt_trans _ _ _ Hle Hb). }
  destruct (holds_of_int (n * 60)) as (m60 & -> & Hm60);
    [lia|now apply representable_Z|].
  cbn [bind].
  assert (Hs : holds (fsub t m60) s).
  { apply (holds_comp _ _ _ Es). apply holds_fsub; [exact Ht|exact Hm60| |].
    - replace (n * 60)%Z with (60 * n)%Z by ring. exact Hle.
    - destruct Hrs as [R|R]; [left|right].
      + now rewrite Es.
      + destruct R as (k & e & R1 & R2). exists k, e. now rewrite Es. }
  now rewrite (format_f_holds 4 1 _ _ Hs).
Qed.

(** ** Rounding is monotone *)

Lemma round_half_even_nonneg (x : Q) : 0 <= x -> (0 <= round_half_even x)%Z.
Proof.
  intros H. pose proof (round_half_even_mono 0 x H) as M.
  now rewrite (round_half_even_Z 0 0) in M by reflexivity.
Qed.

Lemma rmant_nonneg (x : Q) : 0 <= x -> (0 <= rmant x)%Z.
Proof.
  intros H. unfold rmant. apply round_half_even_nonneg.
  apply Qle_shift_div_l; [apply pow2_pos|lra].
Qed.

Lemma rexp_mono (x y : Q) : 0 < x -> x <= y -> (rexp x <= rexp y)%Z.
Proof.
  intros Hx H. unfold rexp.
  assert (ilog2 x <= ilog2 y)%Z; [|lia].
  apply ilog2_mono; [lra|]. rewrite !Qabs_pos by lra. exact H.
Qed.

Lemma rounded_mono (x y : Q) : 0 < x -> x <= y -> rounded x <= rounded y.
Proof.
  intros Hx H. unfold rounded.
  pose proof (rexp_mono x y Hx H) as He.
  pose proof (pow2_pos (rexp x)) as Px. pose proof (pow2_pos (rexp y)) as Py.
  destruct (Z.eq_dec (rexp x) (rexp y)) as [E|E].
  - rewrite E. apply Qmult_le_compat_r; [|lra].
    rewrite <- Zle_Qle. unfold rmant. rewrite E.
    apply round_half_even_mono. apply Qmult_le_compat_r; [exact H|].
    apply Qinv_le_0_compat. lra.
  - assert (Hlt : (rexp x + 1 <= rexp y)%Z) by lia.
    assert (Hy : 0 < y) by lra.
    assert (Hx0 : ~ x == 0) by lra. assert (Hy0 : ~ y == 0) by lra.
    (* the significand of [x] is at most 2^53 *)
    pose proof (rmant_bound x Hx0) as Bx.
    pose proof (rmant_nonneg x (Qlt_le_weak _ _ Hx)) as Nx.
    assert (Ux : inject_Z (rmant x) * pow2 (rexp x) <= pow2 (52 + rexp y)).
    { apply Qle_trans with (pow2 53 * pow2 (rexp x)).
      - apply Qmult_le_compat_r; [|lra]. rewrite pow2_Z by lia.
        rewrite <- Zle_Qle. lia.
      - rewrite <- pow2_add. apply pow2_le. lia. }
    (* the significand of [y] is at least 2^52 *)
    assert (Ey : rexp y = (ilog2 y - 52)%Z) by (unfold rexp in *; lia).
    destruct (ilog2_spec y Hy0) as [S1 _]. rewrite Qabs_pos in S1 by lra.
    assert (Ly : (2 ^ 52 <= rmant y)%Z).
    { assert (G : inject_Z (2 ^ 52) <= y / pow2 (rexp y)).
      { apply Qle_shift_div_l; [exact Py|]. rewrite <- pow2_Z by lia.
        rewrite <- pow2_add. rewrite Ey.
        now replace (52 + (ilog2 y - 52))%Z with (ilog2 y) by ring. }
      apply round_half_even_mono in G.
      now rewrite (round_half_even_Z _ (2 ^ 52)) in G by reflexivity. }
    apply Qle_trans with (pow2 (52 + rexp y)); [exact Ux|].
    rewrite pow2_add. apply Qmult_le_compat_r; [|lra].
    rewrite pow2_Z by lia. now rewrite <- Zle_Qle.
Qed.

Lemma log2_overflow (k e : Z) :
  (0 < k)%Z ->
  ((1024 <= Z.log2 k + e)%Z <-> pow2 1024 <= inject_Z k * pow2 e).
Proof.
  intros Hk. destruct (Z_log2_pow2 k Hk) as [H1 H2].
  pose proof (pow2_pos e) as Pe. split.
  - intros H. apply Qle_trans with (pow2 (Z.log2 k + e)); [apply pow2_le; lia|].
    rewrite pow2_add. apply Qmult_le_compat_r; lra.
  - intros H.
    assert (L : (1024 < Z.log2 k + 1 + e)%Z); [|lia].
    apply pow2_lt_inv. eapply Qle_lt_trans; [exact H|].
    rewrite pow2_add. apply Qmult_lt_r; lra.
Qed.

Lemma round64_pos_cases (x : Q) :
  0 < x ->
  (round64 x = Fzero false /\ rounded x == 0)
  \/ (round64 x = Finf false /\ pow2 1024 <= rounded x)
  \/ (exists v, round64 x = Ffin v /\ v == rounded x
                /\ 0 < v /\ v < pow2 1024).
Proof.
  intros Hx. rewrite round64_eq. unfold rounded.
  rewrite (Qnum_neg_false x) by lra.
  pose proof (rmant_nonneg x (Qlt_le_weak _ _ Hx)) as Hk.
  pose proof (pow2_pos (rexp x)) as Pe.
  destruct (Z.eqb_spec (rmant x) 0) as [E|E].
  - left. split; [reflexivity|]. rewrite E. ring.
  - assert (Hk' : (0 < rmant x)%Z) by lia.
    rewrite (Z.abs_eq (rmant x)) by lia.
    destruct (Z.leb_spec 1024 (Z.log2 (rmant x) + rexp x)) as [L|L].
    + right; left. split; [reflexivity|]. now apply log2_overflow.
    + right; right. eexists. split; [reflexivity|].
      split; [apply Qred_correct|]. rewrite Qred_correct. split.
      * apply Qmult_lt_0_compat; [|exact Pe].
        change 0 with (inject_Z 0). now rewrite <- Zlt_Qlt.
      * apply Qnot_le_lt. intros H. apply log2_overflow in H; lia.
Qed.

Lemma round64_mono (x y : Q) :
  0 < x -> x <= y -> flt (round64 y) (round64 x) = false.
Proof.
  intros Hx H. pose proof (rounded_mono x y Hx H) as M.
  assert (Hy : 0 < y) by lra.
  pose proof (pow2_pos 1024) as P.
  destruct (round64_pos_cases x Hx) as [[-> Rx]|[[-> Rx]|(v & -> & Ev & V0 & V1)]];
    destruct (round64_pos_cases y Hy) as [[-> Ry]|[[-> Ry]|(w & -> & Ew & W0 & W1)]];
    cbn [flt value andb negb]; try reflexivity;
    try (apply Qltb_ge); try lra.
Qed.

Lemma round64_pos_not_neg (x : Q) :
  0 < x -> flt (round64 x) (Fzero false) = false.
Proof.
  intros Hx.
  destruct (round64_pos_cases x Hx) as [[-> Rx]|[[-> Rx]|(v & -> & Ev & V0 & V1)]];
    cbn [flt value]; try reflexivity; apply Qltb_ge; lra.
Qed.

(** ** Decimal digits *)

Local Open Scope Z_scope.

Lemma digit_val_digit_char (d : Z) :
  0 <= d < 10 -> PyStr.digit_val (PyStr.digit_char d) = d.
Proof.
  intros H.
  assert (E : d = 0 \/ d = 1 \/ d = 2 \/ d = 3 \/ d = 4 \/ d = 5 \/ d = 6
              \/ d = 7 \/ d = 8 \/ d = 9) by lia.
  repeat (destruct E as [->|E]; [reflexivity|]). now subst.
Qed.

Lemma digits_val_acc (l : list ascii) (acc : Z) :
  fold_left (fun a d => 10 * a + PyStr.digit_val d) l acc
  = acc * 10 ^ Z.of_nat (List.length l) + PyStr.digits_val l.
Proof.
  unfold PyStr.digits_val. revert acc.
  induction l as [|c l IH]; intros acc.
  - cbn. lia.
  - cbn [fold_left List.length]. rewrite IH, (IH (10 * 0 + _)).
    rewrite Nat2Z.inj_succ, Z.pow_succ_r by lia. ring.
Qed.

Lemma digits_val_app (l1 l2 : list ascii) :
  PyStr.digits_val (l1 ++ l2)
  = PyStr.digits_val l1 * 10 ^ Z.of_nat (List.length l2) + PyStr.digits_val l2.
Proof.
  unfold PyStr.digits_val at 1. rewrite fold_left_app.
  now rewrite digits_val_acc.
Qed.

Lemma digits_val_zeros (n : nat) : PyStr.digits_val (PyInt.zeros n) = 0.
Proof.
  induction n as [|n IH]; [reflexivity|].
  change (PyInt.zeros (S n)) with (["0"%char] ++ PyInt.zeros n).
  rewrite digits_val_app, IH. reflexivity.
Qed.

Lemma zeros_all_digits (n : nat) : all_digits (PyInt.zeros n).
Proof.
  induction n as [|n IH]; [constructor|]. constructor; [reflexivity|exact IH].
Qed.

Lemma length_zeros (n : nat) : List.length (PyInt.zeros n) = n.
Proof. apply repeat_length. Qed.

Lemma digits_fuel_all_digits (fuel : nat) (n : Z) :
  0 <= n -> all_digits (PyStr.digits_fuel fuel n).
Proof.
  revert n. induction fuel as [|fuel IH]; intros n Hn; cbn [PyStr.digits_fuel].
  - constructor; [|constructor]. apply is_digit_digit_char.
    apply Z.mod_pos_bound. lia.
  - destruct (Z.ltb_spec n 10).
    + constructor; [|constructor]. apply is_digit_digit_char. lia.
    + apply Forall_app. split.
      * apply IH. apply Z.div_pos; lia.
      * constructor; [|constructor]. apply is_digit_digit_char.
        apply Z.mod_pos_bound. lia.
Qed.

Lemma digits_fuel_val (fuel : nat) (n : Z) :
  0 <= n < 10 ^ (Z.of_nat fuel + 1) ->
  PyStr.digits_val (PyStr.digits_fuel fuel n) = n.
Proof.
  revert n. induction fuel as [|fuel IH]; intros n Hn; cbn [PyStr.digits_fuel].
  - cbn in Hn. unfold PyStr.digits_val. cbn [fold_left].
    rewrite digit_val_digit_char by (apply Z.mod_pos_bound; lia).
    rewrite Z.mod_small; lia.
  - destruct (Z.ltb_spec n 10).
    + unfold PyStr.digits_val. cbn [fold_left].
      rewrite digit_val_digit_char; lia.
    + rewrite digits_val_app. cbn [List.length].
      rewrite IH.
      * unfold PyStr.digits_val at 1. cbn [fold_left].
        rewrite digit_val_digit_char by (apply Z.mod_pos_bound; lia).
        change (10 ^ Z.of_nat 1) with 10.
        pose proof (Z.div_mod n 10). lia.
      * split; [apply Z.div_pos; lia|].
        apply Z.div_lt_upper_bound; [lia|].
        rewrite Nat2Z.inj_succ in Hn.
        replace (Z.succ (Z.of_nat fuel) + 1) with (Z.succ (Z.of_nat fuel + 1)) in Hn by lia.
        rewrite Z.pow_succ_r in Hn by lia. lia.
Qed.

Lemma digits_of_val (n : Z) : 0 <= n -> PyStr.digits_val (PyStr.digits_of n) = n.
Proof.
  intros Hn. unfold PyStr.digits_of. apply digits_fuel_val.
  split; [exact Hn|].
  destruct (Z.eq_dec n 0) as [->|E]; [apply Z.pow_pos_nonneg; lia|].
  rewrite Z2Nat.id by apply Z.log2_nonneg.
  destruct (Z.log2_spec n) as [_ H]; [lia|].
  apply Z.lt_le_trans with (2 ^ Z.succ (Z.log2 n)); [exact H|].
  rewrite <- Z.add_1_r. apply Z.pow_le_mono_l.
  pose proof (Z.log2_nonneg n). lia.
Qed.

Lemma digits_of_all_digits (n : Z) : 0 <= n -> all_digits (PyStr.digits_of n).
Proof. apply digits_fuel_all_digits. Qed.

Lemma digits_fuel_small (fuel : nat) (n : Z) :
  0 <= n < 10 -> List.length (PyStr.digits_fuel fuel n) = 1%nat.
Proof.
  intros H. destruct fuel; cbn [PyStr.digits_fuel]; [reflexivity|].
  destruct (Z.ltb_spec n 10); [reflexivity|lia].
Qed.

Lemma digits_of_length (n : Z) :
  0 <= n < 100 ->
  List.length (PyStr.digits_of n) = if n <? 10 then 1%nat else 2%nat.
Proof.
  intros H. unfold PyStr.digits_of. destruct (Z.ltb_spec n 10).
  - apply digits_fuel_small. lia.
  - assert (L : 3 <= Z.log2 n).
    { apply Z.log2_le_pow2; lia. }
    destruct (Z.to_nat (Z.log2 n)) as [|f] eqn:E; [lia|].
    cbn [PyStr.digits_fuel]. destruct (Z.ltb_spec n 10); [lia|].
    rewrite length_app, digits_fuel_small; [reflexivity|].
    split; [apply Z.div_pos; lia|apply Z.div_lt_upper_bound; lia].
Qed.

(** ** Reading back a string of digits *)

Lemma digit_not_numeric_space (c : ascii) :
  PyStr.is_digit c = true -> PyStr.is_numeric_space c = false.
Proof.
  intros H. destruct (PyStr.is_numeric_space c) eqn:E; [|reflexivity].
  apply numeric_space_not_digit in E. congruence.
Qed.

Lemma drop_while_digits (l : list ascii) :
  all_digits l -> PyStr.drop_while PyStr.is_numeric_space l = l.
Proof.
  intros H. destruct H as [|c l Hc Hl]; [reflexivity|].
  cbn [PyStr.drop_while]. now rewrite (digit_not_numeric_space c Hc).
Qed.

Lemma strip_with_digits (l : list ascii) :
  all_digits l -> PyStr.strip_with PyStr.is_numeric_space l = l.
Proof.
  intros H. unfold PyStr.strip_with.
  rewrite (drop_while_digits l H), drop_while_digits, rev_involutive;
    [reflexivity|].
  now apply Forall_rev.
Qed.

Lemma scan_sign_digits (l : list ascii) :
  all_digits l -> PyStr.scan_sign l = (false, l).
Proof.
  intros H. destruct H as [|c l Hc Hl]; [reflexivity|].
  cbn [PyStr.scan_sign].
  destruct (Ascii.eqb_spec c "-") as [->|_]; [discriminate|].
  destruct (Ascii.eqb_spec c "+") as [->|_]; [discriminate|reflexivity].
Qed.

Lemma scan_more_digits (l : list ascii) :
  all_digits l -> PyStr.scan_more l = (l, []).
Proof.
  induction 1 as [|c l Hc Hl IH]; [reflexivity|].
  cbn [PyStr.scan_more]. now rewrite Hc, IH.
Qed.

Lemma scan_digitpart_digits (l : list ascii) :
  all_digits l -> PyStr.scan_digitpart l = (l, []).
Proof.
  intros H. destruct H as [|c l Hc Hl]; [reflexivity|].
  cbn [PyStr.scan_digitpart]. now rewrite Hc, (scan_more_digits l Hl).
Qed.

Lemma all_digits_has_digit (l : list ascii) :
  l <> [] -> all_digits l -> has_digit l = true.
Proof.
  intros Hne H. destruct H as [|c l Hc Hl]; [congruence|].
  cbn [has_digit existsb]. now rewrite Hc.
Qed.

(** [float] of a nonempty string of digits is the number they write,
    correctly rounded. *)
Lemma of_chars_digits (l : list ascii) :
  l <> [] -> all_digits l ->
  of_chars l = Some (of_decimal false (PyStr.digits_val l) 0).
Proof.
  intros Hne H. unfold of_chars.
  rewrite (strip_with_digits l H), (scan_sign_digits l H).
  rewrite !(word_is_no_digit _ l)
    by (reflexivity || now apply all_digits_has_digit).
  cbn [orb]. rewrite (scan_digitpart_digits l H).
  rewrite app_nil_r. destruct l as [|c l]; [congruence|].
  reflexivity.
Qed.

Lemma filter_digits (c : ascii) (l : list ascii) :
  PyStr.is_digit c = false -> all_digits l ->
  filter (fun x => negb (Ascii.eqb x c)) l = l.
Proof.
  intros Hc H. induction H as [|x l Hx Hl IH]; [reflexivity|].
  cbn [filter]. destruct (Ascii.eqb_spec x c) as [->|_]; [congruence|].
  cbn [negb]. now rewrite IH.
Qed.

(** ** The sort key of a formatted time *)

#[local] Instance round_half_even_proper :
  Proper (Qeq ==> eq) round_half_even.
Proof. intros x y E. now apply round_half_even_comp. Qed.

Lemma tenths_bounds (v : Q) : (0 <= v)%Q -> 0 <= tenths_of v <= 600.
Proof.
  intros Hv. destruct (minutes_seconds_bounds v Hv) as (_ & H0 & H60 & _).
  unfold tenths_of. rewrite Qabs_pos by exact H0.
  change (inject_Z (10 ^ Z.of_nat 1)) with 10%Q.
  apply round_half_even_bounds.
  - change (inject_Z 0) with 0%Q. lra.
  - change (inject_Z 600) with 600%Q. lra.
Qed.

Lemma zero_pad_false (width : nat) (body : list ascii) :
  PyInt.zero_pad width false body
  = PyInt.zeros (width - List.length body) ++ body.
Proof. unfold PyInt.zero_pad. cbn [List.length app]. now rewrite Nat.sub_0_r. Qed.

Lemma remove_separators (a dn b dq c dm : list ascii) :
  all_digits a -> all_digits dn -> all_digits b -> all_digits dq ->
  all_digits c -> all_digits dm ->
  filter (fun x => negb (Ascii.eqb x "."))
    (filter (fun x => negb (Ascii.eqb x ":"))
       ((a ++ dn) ++ [":"%char] ++ b ++ dq ++ "."%char :: c ++ dm))
  = a ++ dn ++ b ++ dq ++ c ++ dm.
Proof.
  intros Ha Hdn Hb Hdq Hc Hdm.
  rewrite !filter_app. cbn [filter Ascii.eqb Bool.eqb negb app].
  rewrite !filter_app. cbn [filter Ascii.eqb Bool.eqb negb app].
  rewrite !(filter_digits ":") by (reflexivity || assumption).
  rewrite !(filter_digits ".") by (reflexivity || assumption).
  now rewrite <- !app_assoc.
Qed.

Lemma time_text_key_chars (v : Q) :
  (0 <= v)%Q ->
  exists l,
    list_ascii_of_string
      (PyStr.remove_char "." (PyStr.remove_char ":" (time_text v))) = l
    /\ l <> [] /\ all_digits l /\ PyStr.digits_val l = surrogate v.
Proof.
  intros Hv. destruct (minutes_seconds_bounds v Hv) as (Hn & H0 & H60 & _).
  pose proof (tenths_bounds v Hv) as Hr.
  unfold surrogate. unfold tenths_of in *. unfold time_text.
  unfold PyStr.remove_char at 1 2.
  rewrite !list_ascii_of_string_of_list_ascii, !chars_app.
  unfold PyInt.format_d. rewrite !list_ascii_of_string_of_list_ascii.
  rewrite (Z.abs_eq (minutes_of v)) by exact Hn.
  replace (minutes_of v <? 0) with false by (symmetry; apply Z.ltb_ge; exact Hn).
  unfold fixed_digits.
  remember (round_half_even
              (Qabs (seconds_of v) * inject_Z (10 ^ Z.of_nat 1))) as r eqn:Er.
  change (10 ^ Z.of_nat 1) with 10.
  remember (minutes_of v) as n eqn:En.
  assert (Hq : 0 <= r / 10 < 100).
  { split; [apply Z.div_pos; lia|apply Z.div_lt_upper_bound; lia]. }
  assert (Hm : 0 <= r mod 10 < 10) by (apply Z.mod_pos_bound; lia).
  pose proof (digits_of_all_digits n Hn) as Dn.
  pose proof (digits_of_all_digits (r / 10) (proj1 Hq)) as Dq.
  pose proof (digits_of_all_digits (r mod 10) (proj1 Hm)) as Dm.
  assert (Lm : List.length (PyStr.digits_of (r mod 10)) = 1%nat).
  { rewrite digits_of_length by lia.
    destruct (Z.ltb_spec (r mod 10) 10); [reflexivity|lia]. }
  pose proof (digits_of_length (r / 10) Hq) as Lq.
  rewrite !zero_pad_false.
  change (list_ascii_of_string ":") with [":"%char].
  rewrite remove_separators by (assumption || apply zeros_all_digits).
  eexists. split; [reflexivity|].
  split; [|split].
  - intros E. apply (f_equal (@List.length ascii)) in E.
    rewrite !length_app, Lm in E. cbn [List.length] in E. lia.
  - repeat (apply Forall_app; split);
      assumption || apply zeros_all_digits.
  - rewrite !digits_val_app, !digits_val_zeros, !length_app, !length_zeros.
    rewrite !digits_of_val by lia. cbn [List.length]. rewrite !length_app.
    cbn [List.length]. rewrite !length_zeros, Lm, Lq.
    pose proof (Z.div_mod r 10).
    destruct (Z.ltb_spec (r / 10) 10); cbn -[Z.mul Z.add Z.div Z.modulo]; lia.
Qed.

(** ** Time stamps in the exact range *)

Local Open Scope Q_scope.

Lemma in_range_holds (t : float) :
  timestamp_in_range t ->
  holds t (value t) /\ representable (value t) /\ value t < pow2 53.
Proof.
  destruct t as [| |neg|v]; cbn [timestamp_in_range value]; try contradiction.
  - intros ->. split; [apply holds_zero|]. split; [now left|apply pow2_pos].
  - intros (Hd & H0 & Hb). split; [now apply holds_fin|]. split; [now right|exact Hb].
Qed.

Lemma in_range_formattable (t : float) :
  timestamp_in_range t -> formattable t = true.
Proof.
  intros H. destruct (in_range_holds t H) as (Hh & Hr & Hb).
  unfold formattable. now rewrite (fmt_time_exact t _ Hh Hr Hb).
Qed.

Lemma stamped_sort_key (t : float) (v : violation) :
  timestamp_in_range t -> stamped t v -> sort_key v = Ok (key_of_time t).
Proof.
  intros H Hs. destruct (in_range_holds t H) as (Hh & Hr & Hb).
  unfold stamped in Hs. rewrite (fmt_time_exact t _ Hh Hr Hb) in Hs.
  inversion Hs as [Ht]. unfold sort_key, of_string. rewrite <- Ht.
  destruct (time_text_key_chars (value t) (proj1 Hh)) as (l & -> & Hne & Hd & Hval).
  rewrite (of_chars_digits l Hne Hd), Hval. reflexivity.
Qed.

Lemma minutes_of_mono (v w : Q) : v <= w -> (minutes_of v <= minutes_of w)%Z.
Proof.
  intros H. apply Qfloor_resp_le. apply Qmult_le_compat_r; [exact H|].
  apply Qinv_le_0_compat. discriminate.
Qed.

Lemma surrogate_mono (v w : Q) :
  0 <= v -> v <= w -> (surrogate v <= surrogate w)%Z.
Proof.
  intros Hv H. assert (Hw : 0 <= w) by lra.
  pose proof (minutes_of_mono v w H) as Hm.
  pose proof (tenths_bounds v Hv) as Tv. pose proof (tenths_bounds w Hw) as Tw.
  unfold surrogate.
  destruct (Z.eq_dec (minutes_of v) (minutes_of w)) as [E|E]; [|lia].
  rewrite E. apply Z.add_le_mono_l. unfold tenths_of.
  destruct (minutes_seconds_bounds v Hv) as (_ & Sv & _ & _).
  destruct (minutes_seconds_bounds w Hw) as (_ & Sw & _ & _).
  apply round_half_even_mono. rewrite !Qabs_pos by assumption.
  apply Qmult_le_compat_r; [|discriminate].
  unfold seconds_of. rewrite E. lra.
Qed.

Lemma key_mono (m1 m2 : Z) :
  (0 <= m1 <= m2)%Z ->
  flt (of_decimal false m2 0) (of_decimal false m1 0) = false.
Proof.
  intros H. unfold of_decimal.
  assert (P : forall m, (0 < m)%Z -> 0 < inject_Z m * 10 ^ 0).
  { intros m Hm. change (10 ^ 0) with 1. rewrite Qmult_1_r.
    change 0 with (inject_Z 0). now rewrite <- Zlt_Qlt. }
  destruct (Z.eqb_spec m1 0) as [E1|E1]; destruct (Z.eqb_spec m2 0) as [E2|E2].
  - reflexivity.
  - apply round64_pos_not_neg. apply P. lia.
  - lia.
  - apply round64_mono; [apply P; lia|].
    change (10 ^ 0) with 1. rewrite !Qmult_1_r. rewrite <- Zle_Qle. lia.
Qed.

Lemma holds_feq (x y : float) (a b : Q) :
  holds x a -> holds y b -> feq x y = Qeq_bool a b.
Proof.
  intros Hx Hy. pose proof (holds_value x a Hx) as Ex.
  pose proof (holds_value y b Hy) as Ey.
  destruct Hx as [_ Hx], Hy as [_ Hy].
  destruct x as [| |nx|v]; try contradiction;
    destruct y as [| |ny|w]; try contradiction; cbn [feq];
    now rewrite Ex, Ey.
Qed.

Lemma time_le_value (t t' : float) :
  timestamp_in_range t -> timestamp_in_range t' ->
  time_le t t' -> value t <= value t'.
Proof.
  intros H H' Hle.
  destruct (in_range_holds t H) as (Hh & _).
  destruct (in_range_holds t' H') as (Hh' & _).
  unfold time_le, fle in Hle.
  rewrite (holds_flt _ _ _ _ Hh Hh'), (holds_feq _ _ _ _ Hh Hh') in Hle.
  apply orb_true_iff in Hle. destruct Hle as [Hl|He].
  - apply Qltb_lt in Hl. lra.
  - apply Qeq_bool_true in He. lra.
Qed.

Lemma key_of_time_mono (t t' : float) :
  timestamp_in_range t -> timestamp_in_range t' -> time_le t t' ->
  flt (key_of_time t') (key_of_time t) = false.
Proof.
  intros H H' Hle. pose proof (time_le_value t t' H H' Hle) as Hv.
  destruct (in_range_holds t H) as ([H0 _] & _).
  unfold key_of_time. apply key_mono. split.
  - unfold surrogate. pose proof (tenths_bounds _ H0).
    destruct (minutes_seconds_bounds _ H0) as (Hm & _). lia.
  - now apply surrogate_mono.
Qed.

Lemma Qle_orb (a b : Q) : Qltb a b || Qeq_bool a b = true <-> a <= b.
Proof.
  rewrite orb_true_iff, Qltb_lt, Qeq_bool_true. split.
  - intros [H|H]; lra.
  - intros H. destruct (Qeq_dec a b) as [E|E]; [now right|left; lra].
Qed.

Lemma time_le_trans (x y z : float) : time_le x y -> time_le y z -> time_le x z.
Proof.
  unfold time_le, fle. intros H1 H2.
  float_cases x; float_cases y; float_cases z;
    rewrite ?Qle_orb in *; lra.
Qed.

(** ** A run over a log in the order of time *)

Lemma flt_irrefl (x : float) : flt x x = false.
Proof. float_cases x. apply Qltb_ge. apply Qle_refl. Qed.

(** A list that is in order is left as it is by the sort. *)
Lemma stable_sort_fixed (l : list (float * violation)) :
  StronglySorted in_order l -> stable_sort l = l.
Proof.
  induction 1 as [|x l Hs IH Hx]; [reflexivity|].
  cbn [stable_sort]. rewrite IH. destruct l as [|y l]; [reflexivity|].
  cbn [insert]. apply Forall_inv in Hx. unfold in_order in Hx. now rewrite Hx.
Qed.

Lemma keyed_app (l1 l2 : list violation) :
  keyed (l1 ++ l2) =
  (k1 <- keyed l1 ;; k2 <- keyed l2 ;; Ok (k1 ++ k2)).
Proof.
  induction l1 as [|v l1 IH]; cbn [app keyed bind].
  - now destruct (keyed l2).
  - destruct (sort_key v); [|reflexivity]. cbn [bind]. rewrite IH.
    destruct (keyed l1); [|reflexivity]. cbn [bind].
    now destruct (keyed l2).
Qed.

(** The violations appended for one event in the exact range have the
    key of its time. *)
Lemma keyed_same_stamp (t : float) (out : list violation) :
  timestamp_in_range t -> Forall (stamped t) out ->
  exists ks, keyed out = Ok ks
             /\ Forall (fun a => fst a = key_of_time t) ks.
Proof.
  intros Ht. induction 1 as [|v out Hv Hout (ks & Hk & Hf)].
  - exists []. split; [reflexivity|constructor].
  - exists ((key_of_time t, v) :: ks). cbn [keyed].
    rewrite (stamped_sort_key t v Ht Hv), Hk. cbn [bind].
    split; [reflexivity|]. constructor; [reflexivity|exact Hf].
Qed.

Lemma sorted_same_key (k : float) (ks : list (float * violation)) :
  Forall (fun a => fst a = k) ks -> StronglySorted in_order ks.
Proof.
  induction 1 as [|a ks Ha Hks IH]; constructor; [exact IH|].
  revert Hks. apply Forall_impl. intros b Hb. unfold in_order.
  rewrite Ha, Hb. apply flt_irrefl.
Qed.

Lemma strongly_sorted_app {A : Type} (R : A -> A -> Prop) (l1 l2 : list A) :
  StronglySorted R l1 -> StronglySorted R l2 ->
  Forall (fun a => Forall (R a) l2) l1 ->
  StronglySorted R (l1 ++ l2).
Proof.
  intros H1 H2 Hc. induction H1 as [|a l1 Hs IH Ha]; [exact H2|].
  apply Forall_cons_iff in Hc. destruct Hc as [Hca Hc].
  cbn [app]. constructor; [now apply IH|].
  apply Forall_app. now split.
Qed.

(** Over events in the order of time, with time stamps in the exact
    range, the keys of the emitted violations are in order. *)
Lemma scan_keys_in_order (rules : road_rules) (events : list Event)
    (st st' : detector_state) (out : list violation) :
  Forall timestamp_in_range (map timestamp events) ->
  StronglySorted time_le (map timestamp events) ->
  scan rules st events = Ok (st', out) ->
  exists ks,
    keyed out = Ok ks
    /\ StronglySorted in_order ks
    /\ Forall (fun a => exists t, In t (map timestamp events)
                                  /\ fst a = key_of_time t) ks.
Proof.
  revert st out. induction events as [|[[t kind] arg] rest IH];
    intros st out Hr Hs H.
  - inversion H. exists []. split; [reflexivity|]. split; constructor.
  - cbn [map timestamp fst] in Hr, Hs.
    apply Forall_cons_iff in Hr. destruct Hr as [Ht Hr].
    apply StronglySorted_inv in Hs. destruct Hs as [Hs Hle].
    apply scan_cons in H. destruct H as (s1 & o1 & o2 & Hp & Hscan & ->).
    apply process_stamped in Hp.
    destruct (keyed_same_stamp t o1 Ht Hp) as (k1 & Hk1 & Hf1).
    destruct (IH s1 o2 Hr Hs Hscan) as (k2 & Hk2 & Hs2 & Hf2).
    exists (k1 ++ k2). rewrite keyed_app, Hk1, Hk2. cbn [bind].
    split; [reflexivity|]. split.
    + apply strongly_sorted_app; [now apply (sorted_same_key (key_of_time t))
                                 |exact Hs2|].
      revert Hf1. apply Forall_impl. intros a Ha.
      revert Hf2. apply Forall_impl. intros b (t' & Hin & Hb).
      unfold in_order. rewrite Ha, Hb.
      rewrite Forall_forall in Hr, Hle.
      apply key_of_time_mono; auto.
    + apply Forall_app. split.
      * revert Hf1. apply Forall_impl. intros a Ha. exists t.
        split; [now left|exact Ha].
      * revert Hf2. apply Forall_impl. intros b (t' & Hin & Hb). exists t'.
        split; [now right|exact Hb].
Qed.

#[local] Instance time_le_transitive : Transitive time_le.
Proof. exact time_le_trans. Qed.

(** C10, amended. Over a log whose time stamps never decrease and lie
    from [+0.0] up to, and without, [2^53], the post-pass sort changes
    nothing: a run returns the violations in their order of emission, and
    it raises exactly when the loop raises. *)
Theorem sort_keeps_emission_order (rules : road_rules)
    (events : list Event) :
  Forall timestamp_in_range (map timestamp events) ->
  Sorted time_le (map timestamp events) ->
  detect_violations rules events
  = (r <- scan rules initial_state events ;; Ok (snd r)).
Proof.
  intros Hr Hs. apply Sorted_StronglySorted in Hs; [|exact time_le_transitive].
  unfold detect_violations.
  destruct (scan rules initial_state events) as [[st out]|e] eqn:E;
    [|reflexivity].
  cbn [bind snd].
  destruct (scan_keys_in_order rules events _ _ _ Hr Hs E)
    as (ks & Hk & Hord & _).
  unfold sort_by_time. rewrite Hk. cbn [bind].
  rewrite (stable_sort_fixed ks Hord).
  destruct (keyed_spec out ks Hk) as [-> _]. reflexivity.
Qed.

(** ** The time codec: text to seconds *)

Lemma split_chars_length (sep : ascii) (cs : list ascii) :
  List.length (PyStr.split_chars sep cs)
  = S (List.length (filter (Ascii.eqb sep) cs)).
Proof.
  induction cs as [|c cs IH]; [reflexivity|].
  cbn [PyStr.split_chars filter]. rewrite (Ascii.eqb_sym sep c).
  destruct (Ascii.eqb c sep).
  - cbn [List.length]. now rewrite IH.
  - destruct (PyStr.split_chars sep cs) as [|p ps]; [discriminate|].
    exact IH.
Qed.

Lemma split_length (sep : ascii) (s : string) :
  List.length (PyStr.split sep s) = S (PyStr.count_char sep s).
Proof.
  unfold PyStr.split, PyStr.count_char.
  now rewrite length_map, split_chars_length.
Qed.

(** The text has exactly one colon when [split] cuts it in two. *)
Lemma split_two_iff (s : string) :
  PyStr.count_char ":" s = 1%nat
  <-> exists minutes seconds, PyStr.split ":" s = [minutes; seconds].
Proof.
  pose proof (split_length ":" s) as H. split.
  - intros E. rewrite E in H.
    destruct (PyStr.split ":" s) as [|a [|b [|c l]]]; try discriminate.
    now exists a, b.
  - intros (a & b & E). rewrite E in H. cbn in H. lia.
Qed.

(** C8, amended. [parse_time] raises exactly when the text does not hold
    exactly one colon, or [int()] rejects what stands before the colon, or
    [float()] rejects what stands after it, or sixty times the minutes is
    too large to be converted to a float.  The exception is always the
    one for a bad time stamp.  In every other case the result is the
    float sum of sixty times the minutes and the seconds; both parts may
    carry a sign. *)
Theorem parse_time_raises_iff (ts : string) :
  ((exists e, Parser.parse_time ts = Raise e)
   <-> PyStr.count_char ":" ts <> 1%nat
       \/ exists minutes seconds,
            PyStr.split ":" ts = [minutes; seconds]
            /\ (is_ok (PyInt.of_string minutes) = false
                \/ is_ok (of_string seconds) = false
                \/ exists m, PyInt.of_string minutes = Ok m
                             /\ is_ok (of_int (m * 60)) = false))
  /\ (forall e, Parser.parse_time ts = Raise e -> e = BadTimestamp ts)
  /\ (forall x, Parser.parse_time ts = Ok x
      <-> exists minutes seconds m s m60,
            PyStr.split ":" ts = [minutes; seconds]
            /\ PyInt.of_string minutes = Ok m
            /\ of_string seconds = Ok s
            /\ of_int (m * 60) = Ok m60
            /\ x = fadd m60 s).
Proof.
  unfold Parser.parse_time, Parser.parse_time_try.
  destruct (PyStr.split ":" ts) as [|a [|b [|c l]]] eqn:Es.
  1, 2, 4:
    (split; [split; [intros _; left; rewrite split_two_iff, Es;
                     intros (x & y & E); discriminate
                    |intros _; now eexists]
            |split; [intros e E; now inversion E
                    |intros x; split; [discriminate
                                      |intros (x1 & x2 & _ & _ & _ & E & _);
                                       discriminate]]]).
  assert (Hc : PyStr.count_char ":" ts = 1%nat).
  { apply split_two_iff. rewrite Es. now exists a, b. }
  destruct (PyInt.of_string a) as [m|e1] eqn:Ea; cbn [bind].
  2:{ split; [split; [intros _; right; exists a, b; split; [reflexivity|];
                      left; now rewrite Ea
                     |intros _; now eexists]
              |split; [intros e E; now inversion E
                      |intros x; split; [discriminate|]]].
      intros (x1 & x2 & m & s & m60 & E & Em & _). inversion E; subst.
      congruence. }
  destruct (of_string b) as [s|e2] eqn:Eb; cbn [bind].
  2:{ split; [split; [intros _; right; exists a, b; split; [reflexivity|];
                      right; left; now rewrite Eb
                     |intros _; now eexists]
              |split; [intros e E; now inversion E
                      |intros x; split; [discriminate|]]].
      intros (x1 & x2 & m' & s & m60 & E & _ & Esec & _). inversion E; subst.
      congruence. }
  destruct (of_int (m * 60)) as [m60|e3] eqn:Em; cbn [bind].
  2:{ split; [split; [intros _; right; exists a, b; split; [reflexivity|];
                      right; right; exists m; split; [exact Ea|];
                      now rewrite Em
                     |intros _; now eexists]
              |split; [intros e E; now inversion E
                      |intros x; split; [discriminate|]]].
      intros (x1 & x2 & m' & s' & m60 & E & Em' & _ & E60 & _).
      inversion E; subst. congruence. }
  split; [split|split].
  - intros (e & E). discriminate.
  - intros [H|(x1 & x2 & E & H)]; [contradiction|].
    inversion E; subst. rewrite Ea, Eb in H.
    destruct H as [H|[H|(m' & Em' & H)]]; try discriminate.
    inversion Em'; subst. rewrite Em in H. discriminate.
  - intros e E. discriminate.
  - intros x. split.
    + intros E. inversion E; subst. now exists a, b, m, s, m60.
    + intros (x1 & x2 & m' & s' & m60' & E & Em' & Es' & E60 & ->).
      inversion E; subst. congruence.
Qed.

(** ** Rounding a number of known magnitude *)

Lemma rounded_error (x : Q) : Qabs (rounded x - x) <= pow2 (rexp x - 1).
Proof.
  pose proof (round_half_even_error (x / pow2 (rexp x))) as He.
  fold (rmant x) in He. pose proof (pow2_pos (rexp x)) as Hp.
  unfold rounded. rewrite pow2_pred.
  assert (E : inject_Z (rmant x) * pow2 (rexp x) - x
              == (inject_Z (rmant x) - x / pow2 (rexp x)) * pow2 (rexp x))
    by (field; lra).
  rewrite E, Qabs_Qmult, (Qabs_pos (pow2 (rexp x))) by lra.
  apply Qle_trans with ((1 # 2) * pow2 (rexp x)).
  - apply Qmult_le_r; [exact Hp|exact He].
  - apply Qle_lteq. right. field.
Qed.

Lemma rexp_below (x : Q) (c : Z) :
  0 < x -> x < pow2 c -> (-1021 <= c)%Z -> (rexp x <= c - 53)%Z.
Proof.
  intros H0 Hc Hmin. assert (Hx : ~ x == 0) by lra.
  destruct (ilog2_spec x Hx) as [S1 _]. rewrite Qabs_pos in S1 by lra.
  assert (L : (ilog2 x < c)%Z) by (apply pow2_lt_inv; lra).
  unfold rexp. lia.
Qed.

(** A positive number between [2^(c-54)] and [2^c] rounds to a double at
    most [2^(c-54)] away. *)
Lemma round64_approx (x : Q) (c : Z) :
  pow2 (c - 54) < x -> x < pow2 c -> (-1021 <= c <= 1023)%Z ->
  exists v, round64 x = Ffin v /\ is_double v /\ 0 < v
            /\ Qabs (v - x) <= pow2 (c - 54).
Proof.
  intros Hlo Hhi Hc. pose proof (pow2_pos (c - 54)) as P.
  assert (H0 : 0 < x) by lra.
  pose proof (rounded_error x) as He.
  pose proof (rexp_below x c H0 Hhi (proj1 Hc)) as Hr.
  assert (Hb : Qabs (rounded x - x) <= pow2 (c - 54)).
  { eapply Qle_trans; [exact He|]. apply pow2_le. lia. }
  pose proof Hb as Hb'. apply Qabs_Qle_condition in Hb'.
  destruct (round64_pos_cases x H0)
    as [[_ Rz]|[[_ Ri]|(v & Ev & Hv & V0 & V1)]].
  - exfalso. lra.
  - exfalso.
    assert (pow2 c + pow2 (c - 54) < pow2 1024); [|lra].
    apply Qlt_le_trans with (pow2 (c + 1)).
    + rewrite pow2_succ. assert (pow2 (c - 54) < pow2 c) by (apply pow2_lt; lia).
      lra.
    + apply pow2_le. lia.
  - exists v. split; [exact Ev|]. split; [exact (round64_is_double x v Ev)|].
    split; [exact V0|]. now rewrite Hv.
Qed.

Lemma holds_fadd (x y : float) (a b : Q) :
  holds x a -> holds y b -> representable (a + b) ->
  holds (fadd x y) (a + b).
Proof.
  intros Hx Hy Hr. pose proof Hx as [Ha _]. pose proof Hy as [Hb _].
  assert (H0 : 0 <= a + b) by lra.
  pose proof (holds_round (a + b) H0 Hr) as Hres.
  pose proof (holds_value x a Hx) as Ex. pose proof (holds_value y b Hy) as Ey.
  assert (E : value x + value y == a + b) by (now rewrite Ex, Ey).
  destruct Hx as [_ Hx], Hy as [_ Hy].
  destruct x as [| |nx|v]; try contradiction;
    destruct y as [| |ny|w]; try contradiction; cbn [fadd].
  - destruct Hx as [-> Hx], Hy as [-> Hy]. cbn [andb].
    split; [exact H0|]. split; [reflexivity|lra].
  - erewrite Qeqb_comp; [|exact E|reflexivity].
    rewrite (round64_comp _ _ E). exact Hres.
  - erewrite Qeqb_comp; [|exact E|reflexivity].
    rewrite (round64_comp _ _ E). exact Hres.
  - erewrite Qeqb_comp; [|exact E|reflexivity].
    rewrite (round64_comp _ _ E). exact Hres.
Qed.

Lemma round_half_even_near (x : Q) (k : Z) :
  Qabs (x - inject_Z k) < 1 # 2 -> round_half_even x = k.
Proof.
  intros H. apply Qabs_Qlt_condition in H.
  destruct (round_half_even_cases x) as (F0 & F1 & HF).
  pose proof (Qfloor_le x) as L1. pose proof (Qlt_floor x) as L2.
  rewrite inject_Z_plus in L2. change (inject_Z 1) with 1 in L2.
  assert (Hf : (Qfloor x = k - 1 \/ Qfloor x = k)%Z).
  { assert (A : (k - 2 < Qfloor x)%Z).
    { rewrite Zlt_Qlt. unfold Z.sub. rewrite inject_Z_plus, inject_Z_opp.
      change (inject_Z 2) with 2. lra. }
    assert (B : (Qfloor x < k + 1)%Z).
    { rewrite Zlt_Qlt, inject_Z_plus. change (inject_Z 1) with 1. lra. }
    lia. }
  destruct Hf as [E|E]; rewrite E in *.
  - unfold Z.sub in *. rewrite inject_Z_plus, inject_Z_opp in *.
    change (inject_Z 1) with 1 in *.
    destruct HF as [[Hr _]|[[Hr _]|[Hr ->]]]; try lra. lia.
  - destruct HF as [[Hr ->]|[[Hr _]|[Hr _]]]; try lra. reflexivity.
Qed.

Lemma Qfloor_unique (x : Q) (k : Z) :
  inject_Z k <= x -> x < inject_Z k + 1 -> Qfloor x = k.
Proof.
  intros H1 H2. pose proof (Qfloor_le x) as L1. pose proof (Qlt_floor x) as L2.
  rewrite inject_Z_plus in L2. change (inject_Z 1) with 1 in L2.
  assert (A : (k <= Qfloor x)%Z).
  { rewrite <- (Qfloor_Z k). now apply Qfloor_resp_le. }
  assert (B : (Qfloor x < k + 1)%Z).
  { rewrite Zlt_Qlt, inject_Z_plus. change (inject_Z 1) with 1. lra. }
  lia.
Qed.

(** ** Reading a text in canonical form *)

Local Open Scope Z_scope.

Lemma two_digits_all_digits (n : Z) : 0 <= n < 100 -> all_digits (two_digits n).
Proof.
  intros H. repeat constructor; apply is_digit_digit_char.
  - split; [apply Z.div_pos; lia|apply Z.div_lt_upper_bound; lia].
  - apply Z.mod_pos_bound. lia.
Qed.

Lemma two_digits_val (n : Z) : 0 <= n < 100 -> PyStr.digits_val (two_digits n) = n.
Proof.
  intros H. unfold two_digits, PyStr.digits_val. cbn [fold_left].
  rewrite !digit_val_digit_char.
  - pose proof (Z.div_mod n 10). lia.
  - apply Z.mod_pos_bound. lia.
  - split; [apply Z.div_pos; lia|apply Z.div_lt_upper_bound; lia].
Qed.

Lemma int_of_digits (l : list ascii) :
  l <> [] -> all_digits l -> PyInt.of_chars l = Some (PyStr.digits_val l).
Proof.
  intros Hne H. unfold PyInt.of_chars.
  rewrite (strip_with_digits l H), (scan_sign_digits l H),
    (scan_digitpart_digits l H).
  destruct l; [congruence|reflexivity].
Qed.

Lemma split_no_sep (sep : ascii) (l : list ascii) :
  Forall (fun c => Ascii.eqb c sep = false) l ->
  PyStr.split_chars sep l = [l].
Proof.
  induction 1 as [|c l Hc Hl IH]; [reflexivity|].
  cbn [PyStr.split_chars]. now rewrite Hc, IH.
Qed.

Lemma split_one_sep (sep : ascii) (a b : list ascii) :
  Forall (fun c => Ascii.eqb c sep = false) a ->
  Forall (fun c => Ascii.eqb c sep = false) b ->
  PyStr.split_chars sep (a ++ sep :: b) = [a; b].
Proof.
  intros Ha Hb. induction Ha as [|c a Hc Ha IH].
  - cbn [app PyStr.split_chars]. rewrite Ascii.eqb_refl.
    now rewrite (split_no_sep sep b Hb).
  - cbn [app PyStr.split_chars]. now rewrite Hc, IH.
Qed.

Lemma digit_not_char (c x : ascii) :
  PyStr.is_digit x = false -> PyStr.is_digit c = true -> Ascii.eqb c x = false.
Proof.
  intros Hx Hc. destruct (Ascii.eqb_spec c x) as [->|_]; congruence.
Qed.

Lemma digits_no_char (x : ascii) (l : list ascii) :
  PyStr.is_digit x = false -> all_digits l ->
  Forall (fun c => Ascii.eqb c x = false) l.
Proof.
  intros Hx. apply Forall_impl. intros c. now apply digit_not_char.
Qed.

Lemma scan_more_stop (l : list ascii) (c : ascii) (r : list ascii) :
  all_digits l -> PyStr.is_digit c = false -> PyStr.is_underscore c = false ->
  PyStr.scan_more (l ++ c :: r) = (l, c :: r).
Proof.
  intros H Hc Hu. induction H as [|x l Hx Hl IH].
  - cbn [app PyStr.scan_more]. now rewrite Hc, Hu.
  - cbn [app PyStr.scan_more]. now rewrite Hx, IH.
Qed.

Lemma strip_with_ends (p : ascii -> bool) (c d : ascii) (l : list ascii) :
  p c = false -> p d = false ->
  PyStr.strip_with p (c :: l ++ [d]) = c :: l ++ [d].
Proof.
  intros Hc Hd. unfold PyStr.strip_with. cbn [PyStr.drop_while].
  rewrite Hc. change (c :: l ++ [d]) with ((c :: l) ++ [d]).
  rewrite rev_app_distr. cbn [rev app PyStr.drop_while]. rewrite Hd.
  change (d :: rev l ++ [c]) with ([d] ++ rev (c :: l)) at 1.
  rewrite rev_app_distr, rev_involutive. reflexivity.
Qed.

(** [float] of [II.F], for a digit [F]. *)
Lemma float_of_fraction (ip : list ascii) (d : ascii) :
  ip <> [] -> all_digits ip -> PyStr.is_digit d = true ->
  of_chars (ip ++ ["."%char; d])
  = Some (of_decimal false (PyStr.digits_val (ip ++ [d])) (-1)).
Proof.
  intros Hne Hip Hd. unfold of_chars.
  destruct ip as [|c ip]; [congruence|].
  apply Forall_cons_iff in Hip. destruct Hip as [Hc Hip].
  assert (Es : PyStr.strip_with PyStr.is_numeric_space ((c :: ip) ++ ["."%char; d])
               = (c :: ip) ++ ["."%char; d]).
  { change ((c :: ip) ++ ["."%char; d]) with (c :: ip ++ ["."%char; d]).
    replace (ip ++ ["."%char; d]) with ((ip ++ ["."%char]) ++ [d])
      by (now rewrite <- app_assoc).
    apply strip_with_ends; now apply digit_not_numeric_space. }
  rewrite Es. cbn [app PyStr.scan_sign].
  destruct (Ascii.eqb_spec c "-") as [->|_]; [discriminate|].
  destruct (Ascii.eqb_spec c "+") as [->|_]; [discriminate|].
  rewrite !(word_is_no_digit _ (c :: ip ++ ["."%char; d]))
    by (reflexivity || (cbn [has_digit existsb]; now rewrite Hc)).
  cbn [orb PyStr.scan_digitpart]. rewrite Hc.
  rewrite (scan_more_stop ip "." [d] Hip) by reflexivity.
  cbn [Ascii.eqb Bool.eqb PyStr.scan_digitpart]. rewrite Hd.
  cbn [PyStr.scan_more app scan_exponent List.length Z.of_nat].
  reflexivity.
Qed.

Lemma forall_below (n : nat) (P : Z -> bool) :
  forallb P (map Z.of_nat (seq 0 n)) = true ->
  forall z, 0 <= z < Z.of_nat n -> P z = true.
Proof.
  intros H z Hz. rewrite forallb_forall in H. apply H.
  apply in_map_iff. exists (Z.to_nat z). split; [lia|].
  apply in_seq. lia.
Qed.

Lemma string_of_list_ascii_app (a b : list ascii) :
  string_of_list_ascii (a ++ b)
  = (string_of_list_ascii a ++ string_of_list_ascii b)%string.
Proof.
  induction a as [|c a IH]; [reflexivity|].
  cbn [app string_of_list_ascii String.append]. now rewrite IH.
Qed.

Lemma time_text_eq (v : Q) :
  time_text v
  = (PyInt.format_d 2 (minutes_of v) ++ ":" ++ seconds_text (tenths_of v))%string.
Proof. reflexivity. Qed.

Lemma format_d_two_digits (m : Z) :
  0 <= m < 60 -> PyInt.format_d 2 m = string_of_list_ascii (two_digits m).
Proof.
  intros H. apply String.eqb_eq.
  apply (forall_below 60
           (fun m => String.eqb (PyInt.format_d 2 m)
                       (string_of_list_ascii (two_digits m))));
    [vm_compute; reflexivity|exact H].
Qed.

Lemma seconds_text_two_digits (r : Z) :
  0 <= r < 600 ->
  seconds_text r
  = string_of_list_ascii
      (two_digits (r / 10) ++ ["."%char; PyStr.digit_char (r mod 10)]).
Proof.
  intros H. apply String.eqb_eq.
  apply (forall_below 600
           (fun r => String.eqb (seconds_text r)
                       (string_of_list_ascii
                          (two_digits (r / 10)
                             ++ ["."%char; PyStr.digit_char (r mod 10)]))));
    [vm_compute; reflexivity|exact H].
Qed.

Local Open Scope Q_scope.

Lemma fadd_approx (x y : float) (a b : Q) (c : Z) :
  holds x a -> holds y b ->
  pow2 (c - 54) < a + b -> a + b < pow2 c -> (-1021 <= c <= 1023)%Z ->
  exists v, fadd x y = Ffin v /\ is_double v /\ 0 < v
            /\ Qabs (v - (a + b)) <= pow2 (c - 54).
Proof.
  intros Hx Hy Hlo Hhi Hc. pose proof (pow2_pos (c - 54)) as P.
  pose proof (holds_value x a Hx) as Ex. pose proof (holds_value y b Hy) as Ey.
  assert (E : value x + value y == a + b) by (now rewrite Ex, Ey).
  assert (Hn : ~ a + b == 0) by lra.
  destruct (round64_approx (a + b) c Hlo Hhi Hc) as (v & Hv & Hd & V0 & Verr).
  exists v. split; [|auto].
  destruct Hx as [Ha Hx], Hy as [Hb Hy].
  destruct x as [| |nx|vx]; try contradiction;
    destruct y as [| |ny|vy]; try contradiction; cbn [fadd].
  - destruct Hx as [_ Hx], Hy as [_ Hy]. exfalso. apply Hn. lra.
  - erewrite Qeqb_comp; [|exact E|reflexivity].
    rewrite (Qeq_bool_false _ _ Hn), (round64_comp _ _ E). exact Hv.
  - erewrite Qeqb_comp; [|exact E|reflexivity].
    rewrite (Qeq_bool_false _ _ Hn), (round64_comp _ _ E). exact Hv.
  - erewrite Qeqb_comp; [|exact E|reflexivity].
    rewrite (Qeq_bool_false _ _ Hn), (round64_comp _ _ E). exact Hv.
Qed.

(** The seconds of a canonical text, as [float] reads them. *)
Lemma seconds_literal (r : Z) :
  (0 <= r < 600)%Z ->
  exists q, holds (of_decimal false r (-1)) q
            /\ Qabs (q - inject_Z r / 10) <= pow2 (-48).
Proof.
  intros Hr. unfold of_decimal.
  destruct (Z.eqb_spec r 0) as [->|E].
  - exists 0. split; [apply holds_zero|]. discriminate.
  - assert (Ex : inject_Z r * 10 ^ (-1) == inject_Z r / 10) by reflexivity.
    assert (H1 : 1 <= inject_Z r).
    { change 1 with (inject_Z 1). rewrite <- Zle_Qle. lia. }
    assert (H2 : inject_Z r < 600).
    { change 600 with (inject_Z 600). rewrite <- Zlt_Qlt. lia. }
    destruct (round64_approx (inject_Z r / 10) 6) as (q & Hq & Hd & Q0 & Qe).
    + change (pow2 (6 - 54)) with (1 # 281474976710656).
      apply Qlt_shift_div_l; [reflexivity|]. lra.
    + change (pow2 6) with 64. apply Qlt_shift_div_r; [reflexivity|]. lra.
    + lia.
    + exists q. rewrite (round64_comp _ _ Ex), Hq.
      split; [now apply holds_fin|exact Qe].
Qed.

Lemma parse_canonical (m s d : Z) :
  (0 <= m < 60)%Z -> (0 <= s < 60)%Z -> (0 <= d < 10)%Z ->
  exists m60,
    of_int (m * 60) = Ok m60
    /\ holds m60 (inject_Z (m * 60))
    /\ Parser.parse_time (canonical_text m s d)
       = Ok (fadd m60 (of_decimal false (10 * s + d) (-1))).
Proof.
  intros Hm Hs Hd.
  destruct (holds_of_int (m * 60)) as (m60 & E60 & H60);
    [lia|apply representable_Z; lia|].
  exists m60. split; [exact E60|]. split; [exact H60|].
  assert (Dm : all_digits (two_digits m)) by (apply two_digits_all_digits; lia).
  assert (Ds : all_digits (two_digits s)) by (apply two_digits_all_digits; lia).
  assert (Dd : PyStr.is_digit (PyStr.digit_char d) = true)
    by (now apply is_digit_digit_char).
  unfold Parser.parse_time, Parser.parse_time_try, PyStr.split, canonical_text.
  rewrite list_ascii_of_string_of_list_ascii.
  rewrite split_one_sep.
  - cbn [map]. unfold PyInt.of_string, of_string.
    rewrite !list_ascii_of_string_of_list_ascii.
    rewrite int_of_digits by (discriminate || exact Dm).
    rewrite two_digits_val by lia. cbn [bind].
    rewrite float_of_fraction by (discriminate || assumption).
    rewrite digits_val_app, two_digits_val by lia.
    cbn [bind List.length Z.of_nat].
    unfold PyStr.digits_val at 1. cbn [fold_left].
    rewrite digit_val_digit_char by lia. rewrite E60. cbn [bind].
    do 3 f_equal. change (10 ^ Z.of_nat 1)%Z with 10%Z. ring.
  - now apply digits_no_char.
  - apply Forall_app. split; [now apply digits_no_char|].
    repeat constructor. now apply digit_not_char.
Qed.

(** C7, amended. A text [MM:SS.d] -- two digits of minutes below 60, two
    digits of seconds below 60 and one decimal digit -- is read by
    [parse_time] as a time that [_fmt_time] writes as the same text. *)
Theorem roundtrip_canonical_text (m s d : Z) :
  (0 <= m < 60)%Z -> (0 <= s < 60)%Z -> (0 <= d < 10)%Z ->
  (t <- Parser.parse_time (canonical_text m s d) ;; _fmt_time t)
  = Ok (canonical_text m s d).
Proof.
  intros Hm Hs Hd.
  destruct (parse_canonical m s d Hm Hs Hd) as (m60 & _ & H60 & ->).
  cbn [bind].
  set (r := (10 * s + d)%Z).
  assert (Hr : (0 <= r < 600)%Z) by (subst r; lia).
  destruct (seconds_literal r Hr) as (q & Hq & Qe).
  change (pow2 (-48)) with (1 # 281474976710656) in Qe.
  apply Qabs_Qle_condition in Qe.
  assert (M0 : 0 <= inject_Z (m * 60)).
  { change 0 with (inject_Z 0). rewrite <- Zle_Qle. lia. }
  assert (M1 : inject_Z (m * 60) == 60 * inject_Z m).
  { rewrite inject_Z_mult. change (inject_Z 60) with 60. ring. }
  assert (Mm : inject_Z m <= 59).
  { change 59 with (inject_Z 59). rewrite <- Zle_Qle. lia. }
  assert (R0 : 0 <= inject_Z r).
  { change 0 with (inject_Z 0). rewrite <- Zle_Qle. lia. }
  assert (R1 : inject_Z r <= 599).
  { change 599 with (inject_Z 599). rewrite <- Zle_Qle. lia. }
  (* the time that the text is read as *)
  assert (Ht : exists v,
            holds (fadd m60 (of_decimal false r (-1))) v
            /\ representable v
            /\ Qabs (v - (60 * inject_Z m + inject_Z r / 10)) <= 1 # 1000000
            /\ (r = 0%Z -> v == 60 * inject_Z m)).
  { destruct (Z.eq_dec r 0) as [E0|E0].
    - rewrite E0 in *. exists (inject_Z (m * 60) + 0).
      assert (Hz : holds (of_decimal false 0 (-1)) 0) by apply holds_zero.
      assert (Rep : representable (inject_Z (m * 60) + 0)).
      { destruct (representable_Z (m * 60)) as [R|R]; [lia|left|right].
        - rewrite R. reflexivity.
        - destruct R as (k & e & R1' & R2). exists k, e.
          now rewrite Qplus_0_r. }
      split; [now apply holds_fadd|]. split; [exact Rep|]. split.
      + apply Qabs_Qle_condition.
        assert (Z0 : inject_Z 0 / 10 == 0) by reflexivity.
        rewrite Z0, M1. lra.
      + intros _. rewrite M1. ring.
    - assert (R2 : 1 <= inject_Z r).
      { change 1 with (inject_Z 1). rewrite <- Zle_Qle. lia. }
      assert (Q1 : inject_Z r / 10 == inject_Z r * (1 # 10)) by reflexivity.
      destruct (fadd_approx m60 (of_decimal false r (-1))
                  (inject_Z (m * 60)) q 12 H60 Hq) as (v & Ev & Dv & V0 & Ve).
      + change (pow2 (12 - 54)) with (1 # 4398046511104). lra.
      + change (pow2 12) with 4096. lra.
      + lia.
      + change (pow2 (12 - 54)) with (1 # 4398046511104) in Ve.
        apply Qabs_Qle_condition in Ve.
        exists v. rewrite Ev. split; [now apply holds_fin|].
        split; [now right|]. split; [|contradiction].
        apply Qabs_Qle_condition. lra. }
  destruct Ht as (v & Hv & Rv & Ve & Vz).
  apply Qabs_Qle_condition in Ve.
  assert (Q1 : inject_Z r / 10 == inject_Z r * (1 # 10)) by reflexivity.
  assert (Vb : v < pow2 53).
  { apply Qlt_trans with 4096; [lra|reflexivity]. }
  rewrite (fmt_time_exact _ v Hv Rv Vb), time_text_eq. f_equal.
  (* the minutes *)
  assert (Emin : minutes_of v = m).
  { unfold minutes_of. apply Qfloor_unique.
    - apply Qle_shift_div_l; [reflexivity|].
      destruct (Z.eq_dec r 0) as [E0|E0]; [rewrite (Vz E0); lra|].
      assert (1 <= inject_Z r)
        by (change 1 with (inject_Z 1); rewrite <- Zle_Qle; lia).
      lra.
    - apply Qlt_shift_div_r; [reflexivity|]. lra. }
  (* the tenths of a second *)
  assert (Eten : tenths_of v = r).
  { unfold tenths_of, seconds_of. rewrite Emin.
    apply round_half_even_near.
    change (inject_Z (10 ^ Z.of_nat 1)) with 10.
    assert (S0 : 0 <= v - 60 * inject_Z m).
    { destruct (Z.eq_dec r 0) as [E0|E0]; [rewrite (Vz E0); lra|].
      assert (1 <= inject_Z r)
        by (change 1 with (inject_Z 1); rewrite <- Zle_Qle; lia).
      lra. }
    rewrite (Qabs_pos (v - 60 * inject_Z m)) by exact S0.
    apply Qabs_Qlt_condition. lra. }
  rewrite Emin, Eten.
  rewrite (format_d_two_digits m Hm), (seconds_text_two_digits r Hr).
  unfold canonical_text.
  assert (Er1 : (r / 10 = s)%Z).
  { subst r. rewrite Z.mul_comm, Z.div_add_l by lia.
    rewrite Z.div_small; lia. }
  assert (Er2 : (r mod 10 = d)%Z).
  { subst r. rewrite Z.add_comm, Z.mul_comm, Z.mod_add by lia.
    apply Z.mod_small. lia. }
  rewrite Er1, Er2.
  rewrite (string_of_list_ascii_app (two_digits m)).
  reflexivity.
Qed.

Lemma timestamp_in_range_Z (n : Z) :
  (0 < n < 2 ^ 53)%Z -> timestamp_in_range (Ffin (inject_Z n)).
Proof.
  intros H. cbn [timestamp_in_range]. split; [|split].
  - destruct (representable_Z n) as [R|R]; [lia| |exact R].
    apply (inject_Z_injective n 0) in R. lia.
  - change 0 with (inject_Z 0). rewrite <- Zlt_Qlt. lia.
  - rewrite pow2_Z by lia. rewrite <- Zlt_Qlt. lia.
Qed.

(** The docstring's own example, in canonical form. *)
Lemma roundtrip_canonical_text_witness :
  (t <- Parser.parse_time "01:02.5" ;; _fmt_time t) = Ok "01:02.5"%string.
Proof.
  exact (roundtrip_canonical_text 1 2 5
           ltac:(lia) ltac:(lia) ltac:(lia)).
Defined.

(** Two accepted texts of less than sixty minutes and one decimal digit
    that do not come back: the docstring's ["1:02.5"], whose minutes get
    a second digit, and ["00:75.0"], whose seconds carry into the
    minutes. *)
Lemma roundtrip_fails_outside_canonical_form :
  Parser.parse_time "1:02.5" = Ok (Ffin (125 # 2))
  /\ _fmt_time (Ffin (125 # 2)) = Ok "01:02.5"%string
  /\ (t <- Parser.parse_time "1:02.5" ;; _fmt_time t) <> Ok "1:02.5"%string
  /\ Parser.parse_time "00:75.0" = Ok (Ffin 75)
  /\ _fmt_time (Ffin 75) = Ok "01:15.0"%string
  /\ (t <- Parser.parse_time "00:75.0" ;; _fmt_time t) <> Ok "00:75.0"%string.
Proof.
  split; [vm_compute; reflexivity|].
  split; [vm_compute; reflexivity|].
  split; [vm_compute; discriminate|].
  split; [vm_compute; reflexivity|].
  split; [vm_compute; reflexivity|].
  vm_compute; discriminate.
Qed.

(** The description asks for a failure on ["-1:30"] and on ["0:-30"],
    whose minutes, respectively seconds, are negative; [parse_time]
    returns [-30.0] on both. *)
Lemma parse_time_accepts_signs :
  Spec.parse_time_must_fail "-1:30"
  /\ Parser.parse_time "-1:30" = Ok (Ffin (-30 # 1))
  /\ Spec.parse_time_must_fail "0:-30"
  /\ Parser.parse_time "0:-30" = Ok (Ffin (-30 # 1)).
Proof.
  split; [|split; [vm_compute; reflexivity|split; [|vm_compute; reflexivity]]].
  - right. exists "-1"%string, "30"%string. split; [reflexivity|]. left.
    intros (n & E & H). vm_compute in E. inversion E. subst. lia.
  - right. exists "0"%string, "-30"%string. split; [reflexivity|]. right.
    intros (x & E & H & _). vm_compute in E. inversion E. subst.
    vm_compute in H. discriminate.
Qed.

(** No seconds after the colon. *)
Lemma parse_time_raises_iff_witness :
  exists e, Parser.parse_time "1:" = Raise e.
Proof.
  apply (parse_time_raises_iff "1:"). right.
  exists "1"%string, EmptyString. split; [reflexivity|]. right; left. reflexivity.
Defined.

(** A log in the order of time, with two violations at each of two
    times. *)
Lemma sort_keeps_emission_order_witness :
  detect_violations Samples.rules60 Samples.ordered_events
  = Ok Samples.ordered_violations.
Proof.
  rewrite (sort_keeps_emission_order Samples.rules60 Samples.ordered_events).
  - vm_compute. reflexivity.
  - repeat apply Forall_cons; try apply Forall_nil.
    + reflexivity.
    + apply (timestamp_in_range_Z 1); lia.
    + apply (timestamp_in_range_Z 2); lia.
    + apply (timestamp_in_range_Z 2); lia.
    + apply (timestamp_in_range_Z 3); lia.
  - repeat constructor.
Defined.

(** Two logs in the order of time.  At [-30.0] and [-0.5] the loop emits
    the violations in that order and the run returns them in the other
    order, the keys being [-1300] and [-1595].  At [-0.0] the loop
    returns and the run raises, on the key text ["00-00"]. *)
Lemma sort_breaks_emission_order :
  Sorted time_le (map timestamp Samples.negative_events)
  /\ (exists st, scan Samples.rules60 initial_state Samples.negative_events
                 = Ok (st, [Samples.at_minus_30; Samples.at_minus_half]))
  /\ detect_violations Samples.rules60 Samples.negative_events
     = Ok [Samples.at_minus_half; Samples.at_minus_30]
  /\ Sorted time_le (map timestamp Samples.minus_zero_events)
  /\ (exists r, scan Samples.rules60 initial_state Samples.minus_zero_events
                = Ok r)
  /\ detect_violations Samples.rules60 Samples.minus_zero_events
     = Raise (BadFloatLiteral "00-00").
Proof.
  split; [repeat constructor|].
  split; [eexists; vm_compute; reflexivity|].
  split; [vm_compute; reflexivity|].
  split; [repeat constructor|].
  split; [eexists; vm_compute; reflexivity|].
  vm_compute. reflexivity.
Qed.

(** * Further properties *)

Import Reader.

(** ** The log reader *)

Lemma split_ws_drop_while (cs : list ascii) :
  split_ws (PyStr.drop_while PyStr.is_space cs) = split_ws cs.
Proof.
  induction cs as [|c cs IH]; [reflexivity|].
  cbn [PyStr.drop_while split_ws].
  destruct (PyStr.is_space c) eqn:E; [exact IH|].
  cbn [split_ws]. now rewrite E.
Qed.

Lemma starts_with_space_app (l1 l2 : list ascii) :
  l1 <> [] -> starts_with_space (l1 ++ l2) = starts_with_space l1.
Proof. destruct l1; [congruence|reflexivity]. Qed.

Lemma split_ws_all_space (cs : list ascii) :
  forallb PyStr.is_space cs = true -> split_ws cs = [].
Proof.
  induction cs as [|c cs IH]; [reflexivity|].
  cbn [forallb split_ws]. intros H. apply andb_true_iff in H.
  destruct H as [-> H]. now apply IH.
Qed.

Lemma split_ws_nil (cs : list ascii) :
  split_ws cs = [] <-> forallb PyStr.is_space cs = true.
Proof.
  split; [|apply split_ws_all_space].
  induction cs as [|c cs IH]; [reflexivity|].
  cbn [forallb split_ws]. destruct (PyStr.is_space c); [exact IH|].
  destruct (starts_with_space cs); [discriminate|].
  destruct (split_ws cs); discriminate.
Qed.

(** White space at the end of the text adds no word. *)
Lemma split_ws_app_space (cs ws : list ascii) :
  forallb PyStr.is_space ws = true -> split_ws (cs ++ ws) = split_ws cs.
Proof.
  intros Hw. induction cs as [|c cs IH].
  - now apply split_ws_all_space.
  - cbn [app split_ws]. rewrite IH.
    destruct (PyStr.is_space c); [reflexivity|].
    destruct cs as [|c' cs].
    + cbn [app starts_with_space split_ws].
      destruct ws as [|w ws]; [reflexivity|].
      cbn [forallb] in Hw. apply andb_true_iff in Hw. destruct Hw as [Hw _].
      cbn [starts_with_space]. now rewrite Hw.
    + reflexivity.
Qed.

Lemma rev_drop_while_split (p : ascii -> bool) (cs : list ascii) :
  exists ws, forallb p ws = true
             /\ cs = (rev (PyStr.drop_while p (rev cs)) ++ ws)%list.
Proof.
  assert (H : forall l, exists ws, forallb p ws = true
                          /\ l = (ws ++ PyStr.drop_while p l)%list).
  { induction l as [|c l IH]; [now exists []|].
    cbn [PyStr.drop_while]. destruct (p c) eqn:E.
    - destruct IH as (ws & Hw & El). exists (c :: ws). cbn [forallb app].
      rewrite E, Hw. split; [reflexivity|]. now rewrite <- El.
    - now exists []. }
  destruct (H (rev cs)) as (ws & Hw & E).
  exists (rev ws). split.
  - rewrite forallb_forall in *. intros x Hx. apply Hw. now apply in_rev.
  - rewrite <- (rev_involutive cs) at 1. rewrite E at 1.
    now rewrite rev_app_distr.
Qed.

Lemma split_ws_strip (cs : list ascii) :
  split_ws (PyStr.strip_with PyStr.is_space cs) = split_ws cs.
Proof.
  unfold PyStr.strip_with.
  destruct (rev_drop_while_split PyStr.is_space
              (PyStr.drop_while PyStr.is_space cs)) as (ws & Hw & E).
  rewrite <- (split_ws_drop_while cs). rewrite E at 2.
  now rewrite split_ws_app_space.
Qed.

Lemma chars_of_chars (cs : list ascii) :
  list_ascii_of_string (string_of_list_ascii cs) = cs.
Proof. apply list_ascii_of_string_of_list_ascii. Qed.

Lemma split_words_strip (s : string) :
  split_words (PyStr.strip s) = split_words s.
Proof.
  unfold split_words, PyStr.strip. rewrite chars_of_chars.
  now rewrite split_ws_strip.
Qed.

Lemma strip_empty_words (s : string) :
  PyStr.strip s = EmptyString <-> split_words s = [].
Proof.
  rewrite strip_empty_iff. unfold split_words. rewrite <- split_ws_nil.
  destruct (split_ws (list_ascii_of_string s)); cbn [map]; split;
    congruence.
Qed.

Import Terms.

Lemma read_tokens_yield (line : string) (tokens : list string) (ev : Event) :
  read_tokens line tokens = Yield ev ->
  well_formed ev = true
  /\ exists ts, Parser.parse_time ts = Ok (timestamp ev)
                /\ (tokens = [ts; snd (fst ev); snd ev]
                    \/ tokens = [ts; snd (fst ev)]).
Proof.
  destruct tokens as [|ts [|kind rest]]; try discriminate.
  cbn [read_tokens].
  destruct (Parser.parse_time ts) as [time|] eqn:Et; [|discriminate].
  destruct (kind =? "SPEED")%string eqn:E1.
  { destruct rest as [|arg [|]]; try discriminate.
    destruct (of_string arg) eqn:Ea; [|discriminate].
    intros H; inversion H; subst ev; clear H.
    cbn [well_formed timestamp fst snd]. rewrite E1, Ea. cbn [orb is_ok].
    split; [reflexivity|]. exists ts. split; [exact Et|now left]. }
  destruct (kind =? "FOLLOW_DISTANCE")%string eqn:E2.
  { destruct rest as [|arg [|]]; try discriminate.
    destruct (of_string arg) eqn:Ea; [|discriminate].
    intros H; inversion H; subst ev; clear H.
    cbn [well_formed timestamp fst snd]. rewrite E1, E2, Ea. cbn [orb is_ok].
    split; [reflexivity|]. exists ts. split; [exact Et|now left]. }
  destruct (kind =? "LANE_CHANGE")%string eqn:E3.
  { destruct rest as [|arg [|]]; try discriminate.
    destruct ((arg =? "LEFT") || (arg =? "RIGHT"))%string eqn:Ea;
      [|discriminate].
    intros H; inversion H; subst ev; clear H.
    cbn [well_formed timestamp fst snd]. rewrite E1, E2, E3, Ea. cbn [orb].
    split; [reflexivity|]. exists ts. split; [exact Et|now left]. }
  destruct (kind =? "STOP_SIGN_DETECTED")%string eqn:E4; [|discriminate].
  destruct rest; [|discriminate].
  intros H; inversion H; subst ev; clear H.
  cbn [well_formed timestamp fst snd]. rewrite E1, E2, E3, E4. cbn [orb].
  split; [reflexivity|]. exists ts. split; [exact Et|now right].
Qed.

Lemma read_line_yield (raw : string) (ev : Event) :
  read_line raw = Yield ev ->
  well_formed ev = true
  /\ exists ts, Parser.parse_time ts = Ok (timestamp ev)
                /\ (split_words raw = [ts; snd (fst ev); snd ev]
                    \/ split_words raw = [ts; snd (fst ev)]).
Proof.
  unfold read_line. cbv zeta.
  destruct (PyStr.strip raw =? EmptyString)%string; [discriminate|].
  rewrite split_words_strip. apply read_tokens_yield.
Qed.

Lemma read_log_cons (raw : string) (rest : list string) :
  read_log (raw :: rest)
  = match read_line raw with
    | Continue => read_log rest
    | Yield ev => (ev :: fst (read_log rest), snd (read_log rest))
    | Throw e => ([], Some e)
    end.
Proof.
  cbn [read_log]. destruct (read_line raw); try reflexivity.
  now destruct (read_log rest).
Qed.

Lemma read_log_app_eq (l1 l2 : list string) :
  read_log (l1 ++ l2)
  = match snd (read_log l1) with
    | Some e => read_log l1
    | None => (fst (read_log l1) ++ fst (read_log l2), snd (read_log l2))
    end.
Proof.
  induction l1 as [|raw l1 IH].
  - cbn [app read_log fst snd]. now destruct (read_log l2).
  - cbn [app]. rewrite !read_log_cons.
    destruct (read_line raw) as [|ev|e]; [exact IH| |reflexivity].
    rewrite IH. cbn [fst snd].
    destruct (read_log l1) as [evs1 [e1|]]; reflexivity.
Qed.

Lemma read_line_blank (raw : string) :
  read_line raw = Continue <-> blank raw = true.
Proof.
  unfold blank. rewrite <- strip_empty_iff. unfold read_line. cbv zeta.
  destruct (PyStr.strip raw =? EmptyString)%string eqn:E.
  - apply String.eqb_eq in E. tauto.
  - apply String.eqb_neq in E. split; [|tauto].
    intros H. exfalso.
    assert (Hw : split_words (PyStr.strip raw) <> []).
    { rewrite split_words_strip. now rewrite <- strip_empty_words. }
    destruct (split_words (PyStr.strip raw)) as [|ts [|kind rest]];
      [congruence|discriminate|].
    cbn [read_tokens] in H.
    destruct (Parser.parse_time ts); [|discriminate].
    destruct (kind =? "SPEED")%string.
    { destruct rest as [|arg [|]]; try discriminate.
      destruct (of_string arg); discriminate. }
    destruct (kind =? "FOLLOW_DISTANCE")%string.
    { destruct rest as [|arg [|]]; try discriminate.
      destruct (of_string arg); discriminate. }
    destruct (kind =? "LANE_CHANGE")%string.
    { destruct rest as [|arg [|]]; try discriminate.
      destruct ((arg =? "LEFT") || (arg =? "RIGHT"))%string; discriminate. }
    destruct (kind =? "STOP_SIGN_DETECTED")%string; [|discriminate].
    destruct rest; discriminate.
Qed.

(** X1. Whatever the lines, [read_log] yields only events as the log
    format describes them -- a known kind; after SPEED and
    FOLLOW_DISTANCE an argument that [float()] accepts; LEFT or RIGHT
    after LANE_CHANGE; the empty argument for STOP_SIGN_DETECTED -- whose
    time stamp is what [parse_time] returns on the first token of a line,
    and whose kind and argument are the next tokens of that line. *)
Theorem read_log_yields_well_formed (lines : list string)
    (events : list Event) (e : option log_exn) :
  read_log lines = (events, e) ->
  Forall (fun ev =>
            well_formed ev = true
            /\ known_kind (snd (fst ev)) = true
            /\ exists raw ts,
                 In raw lines
                 /\ Parser.parse_time ts = Ok (timestamp ev)
                 /\ (split_words raw = [ts; snd (fst ev); snd ev]
                     \/ (split_words raw = [ts; snd (fst ev)]
                         /\ snd ev = EmptyString)))
         events.
Proof.
  revert events e. induction lines as [|raw rest IH]; intros events e.
  - cbn [read_log]. intros H; inversion H. constructor.
  - rewrite read_log_cons.
    destruct (read_line raw) as [|ev|x] eqn:El.
    + intros H. specialize (IH _ _ H). revert IH. apply Forall_impl.
      intros a (Hw & Hk & r & ts & Hin & Hr). repeat split; try assumption.
      exists r, ts. split; [now right|exact Hr].
    + intros H; inversion H; subst events e; clear H.
      constructor.
      * pose proof El as Hy. apply read_line_yield in Hy.
        destruct Hy as (Hw & ts & Ht & Hs).
        split; [exact Hw|]. split.
        { destruct ev as [[t kind] arg]. cbn [fst snd].
          unfold well_formed in Hw. unfold known_kind.
          destruct (kind =? "SPEED")%string; [reflexivity|].
          destruct (kind =? "FOLLOW_DISTANCE")%string; [reflexivity|].
          destruct (kind =? "LANE_CHANGE")%string; [reflexivity|].
          destruct (kind =? "STOP_SIGN_DETECTED")%string;
            [reflexivity|discriminate]. }
        exists raw, ts. split; [now left|]. split; [exact Ht|].
        destruct Hs as [Hs|Hs]; [now left|right]. split; [exact Hs|].
        unfold read_line in El. cbv zeta in El.
        destruct (PyStr.strip raw =? EmptyString)%string; [discriminate|].
        rewrite split_words_strip, Hs in El. cbn [read_tokens] in El.
        destruct (Parser.parse_time ts); [|discriminate].
        destruct (snd (fst ev) =? "SPEED")%string; [discriminate|].
        destruct (snd (fst ev) =? "FOLLOW_DISTANCE")%string; [discriminate|].
        destruct (snd (fst ev) =? "LANE_CHANGE")%string; [discriminate|].
        destruct (snd (fst ev) =? "STOP_SIGN_DETECTED")%string;
          [|discriminate].
        inversion El as [E]. rewrite <- E at 1. reflexivity.
      * specialize (IH _ _ (surjective_pairing _)). revert IH.
        apply Forall_impl.
        intros a (Hw & Hk & r & ts & Hin & Hr). repeat split; try assumption.
        exists r, ts. split; [now right|exact Hr].
    + intros H; inversion H. constructor.
Qed.

Lemma read_log_yields_well_formed_witness :
  Forall (fun ev => well_formed ev = true)
    [(Ffin 1, "SPEED"%string, "70.0"%string);
     (Ffin 2, "STOP_SIGN_DETECTED"%string, EmptyString)].
Proof.
  assert (H : read_log ["00:01.0 SPEED 70.0"%string; EmptyString;
                        "00:02.0  STOP_SIGN_DETECTED "%string;
                        "00:03.0 SPEED fast"%string]
              = ([(Ffin 1, "SPEED"%string, "70.0"%string);
                  (Ffin 2, "STOP_SIGN_DETECTED"%string, EmptyString)],
                 Some (BadSpeed "00:03.0 SPEED fast")))
    by (vm_compute; reflexivity).
  pose proof (read_log_yields_well_formed _ _ _ H) as Hf.
  revert Hf. apply Forall_impl. intros a Ha. exact (proj1 Ha).
Defined.

(** X2. Reading one sequence of lines after another: when the first
    part raises, the whole raises the same exception after the same
    events and the second part is not read; otherwise the events of the
    second part follow those of the first, and the exception of the
    second part, if any, ends the whole. *)
Theorem read_log_concat (l1 l2 : list string) :
  (forall evs1 x,
     read_log l1 = (evs1, Some x) -> read_log (l1 ++ l2) = (evs1, Some x))
  /\ (forall evs1 evs2 r,
        read_log l1 = (evs1, None) -> read_log l2 = (evs2, r) ->
        read_log (l1 ++ l2) = (evs1 ++ evs2, r)%list).
Proof.
  split.
  - intros evs1 x H. rewrite read_log_app_eq, H. reflexivity.
  - intros evs1 evs2 r H1 H2. rewrite read_log_app_eq, H1, H2. reflexivity.
Qed.

Lemma read_log_concat_witness :
  read_log (["0:01 SPEED 70.0"%string] ++ ["0:02 LANE_CHANGE UP"%string])
  = ([(Ffin 1, "SPEED"%string, "70.0"%string)],
     Some (BadLaneChange "0:02 LANE_CHANGE UP")).
Proof.
  assert (H1 : read_log ["0:01 SPEED 70.0"%string]
               = ([(Ffin 1, "SPEED"%string, "70.0"%string)], None))
    by (vm_compute; reflexivity).
  assert (H2 : read_log ["0:02 LANE_CHANGE UP"%string]
               = ([], Some (BadLaneChange "0:02 LANE_CHANGE UP")))
    by (vm_compute; reflexivity).
  exact (proj2 (read_log_concat _ _) _ _ _ H1 H2).
Defined.

(** X3. A line of white space only, wherever it stands, changes neither
    the events nor the exception. *)
Theorem read_log_skips_blank_lines (l1 l2 : list string) (raw : string) :
  blank raw = true -> read_log (l1 ++ raw :: l2) = read_log (l1 ++ l2).
Proof.
  intros H. apply read_line_blank in H.
  rewrite !read_log_app_eq, read_log_cons, H. reflexivity.
Qed.

Lemma read_log_skips_blank_lines_witness :
  read_log (["0:01 SPEED 70.0"%string] ++ "   "%string :: ["0:02 SPEED 80"%string])
  = read_log (["0:01 SPEED 70.0"%string] ++ ["0:02 SPEED 80"%string]).
Proof.
  apply (read_log_skips_blank_lines _ _ "   "). reflexivity.
Defined.

(** X4. [read_log] yields at most one event for each line that is not
    blank, and exactly one for each when it raises nothing. *)
Theorem read_log_one_event_per_line (lines : list string)
    (events : list Event) (e : option log_exn) :
  read_log lines = (events, e) ->
  (List.length events
   <= List.length (filter (fun raw => negb (blank raw)) lines))%nat
  /\ (e = None ->
      List.length events
      = List.length (filter (fun raw => negb (blank raw)) lines)).
Proof.
  revert events e. induction lines as [|raw rest IH]; intros events e.
  - cbn [read_log]. intros H; inversion H. split; reflexivity.
  - rewrite read_log_cons. cbn [filter].
    destruct (read_line raw) as [|ev|x] eqn:El.
    + apply read_line_blank in El. rewrite El. cbn [negb]. apply IH.
    + assert (Hb : blank raw = false).
      { destruct (blank raw) eqn:Eb; [|reflexivity].
        apply read_line_blank in Eb. congruence. }
      rewrite Hb. intros H; inversion H; subst events e; clear H.
      cbn [negb List.length].
      destruct (IH _ _ (surjective_pairing _)) as [H1 H2].
      split; [lia|]. intros Hn. now rewrite (H2 Hn).
    + intros H; inversion H; subst events e; clear H.
      split; [cbn [List.length]; lia|discriminate].
Qed.

Lemma read_log_one_event_per_line_witness :
  List.length [(Ffin 1, "SPEED"%string, "70.0"%string)]
  = List.length
      (filter (fun raw => negb (blank raw))
         ["0:01 SPEED 70.0"%string; "  "%string]).
Proof.
  assert (H : read_log ["0:01 SPEED 70.0"%string; "  "%string]
              = ([(Ffin 1, "SPEED"%string, "70.0"%string)], None))
    by (vm_compute; reflexivity).
  exact (proj2 (read_log_one_event_per_line _ _ _ H) eq_refl).
Defined.

Lemma read_line_words (raw : string) :
  read_line raw
  = match split_words raw with
    | [] => Continue
    | tokens => read_tokens (PyStr.strip raw) tokens
    end.
Proof.
  unfold read_line. cbv zeta.
  destruct (PyStr.strip raw =? EmptyString)%string eqn:E.
  - apply String.eqb_eq in E. apply strip_empty_words in E. now rewrite E.
  - apply String.eqb_neq in E. rewrite split_words_strip.
    destruct (split_words raw) eqn:Ew; [|reflexivity].
    exfalso. apply E. now apply strip_empty_words.
Qed.

(** The outcome of a line but for the text that an exception quotes. *)
Lemma read_tokens_line (line line' : string) (tokens : list string) :
  match read_tokens line tokens, read_tokens line' tokens with
  | Yield ev, Yield ev' => ev = ev'
  | Throw _, Throw _ => True
  | _, _ => False
  end.
Proof.
  destruct tokens as [|ts [|kind rest]]; cbn [read_tokens]; try exact I.
  destruct (Parser.parse_time ts); [|exact I].
  destruct (kind =? "SPEED")%string.
  { destruct rest as [|arg [|]]; try exact I.
    destruct (of_string arg); [reflexivity|exact I]. }
  destruct (kind =? "FOLLOW_DISTANCE")%string.
  { destruct rest as [|arg [|]]; try exact I.
    destruct (of_string arg); [reflexivity|exact I]. }
  destruct (kind =? "LANE_CHANGE")%string.
  { destruct rest as [|arg [|]]; try exact I.
    destruct ((arg =? "LEFT") || (arg =? "RIGHT"))%string;
      [reflexivity|exact I]. }
  destruct (kind =? "STOP_SIGN_DETECTED")%string; [|exact I].
  destruct rest; [reflexivity|exact I].
Qed.

(** X5. What [read_log] does with a line depends on its words only, not
    on the white space around and between them: two lines of the same
    words are both skipped, or yield the same event, or both raise. *)
Theorem read_line_depends_on_words (raw raw' : string) :
  split_words raw = split_words raw' ->
  match read_line raw, read_line raw' with
  | Continue, Continue => True
  | Yield ev, Yield ev' => ev = ev'
  | Throw _, Throw _ => True
  | _, _ => False
  end.
Proof.
  intros H. rewrite !read_line_words, <- H.
  destruct (split_words raw) as [|w ws]; [exact I|].
  pose proof (read_tokens_line (PyStr.strip raw) (PyStr.strip raw') (w :: ws))
    as Hl.
  destruct (read_tokens (PyStr.strip raw) (w :: ws)),
    (read_tokens (PyStr.strip raw') (w :: ws)); tauto.
Qed.

Lemma read_line_depends_on_words_witness :
  match read_line "0:01 SPEED 70.0", read_line "  0:01   SPEED 70.0  " with
  | Yield ev, Yield ev' => ev = ev'
  | _, _ => False
  end.
Proof.
  assert (H : split_words "0:01 SPEED 70.0"
              = split_words "  0:01   SPEED 70.0  ") by reflexivity.
  pose proof (read_line_depends_on_words _ _ H) as Hr.
  assert (E1 : read_line "0:01 SPEED 70.0"
               = Yield (Ffin 1, "SPEED"%string, "70.0"%string))
    by (vm_compute; reflexivity).
  assert (E2 : read_line "  0:01   SPEED 70.0  "
               = Yield (Ffin 1, "SPEED"%string, "70.0"%string))
    by (vm_compute; reflexivity).
  rewrite E1, E2 in *. exact Hr.
Defined.

(** X6. [read_log] yields the event [(t, kind, arg)] for a line exactly
    when the words of the line are a time stamp that [parse_time] reads
    as [t], then [kind], then [arg] -- with no third word for
    STOP_SIGN_DETECTED, whose argument is empty -- and the event is as the
    log format describes it.  Every such line is accepted, however its
    words are spaced. *)
Theorem read_line_yields_iff (raw : string) (t : float) (kind arg : string) :
  read_line raw = Yield (t, kind, arg)
  <-> exists ts,
        split_words raw
        = ts :: kind
             :: (if (kind =? "STOP_SIGN_DETECTED")%string then [] else [arg])
        /\ Parser.parse_time ts = Ok t
        /\ well_formed (t, kind, arg) = true.
Proof.
  rewrite read_line_words. split.
  - destruct (split_words raw) as [|ts [|k rest]]; try discriminate.
    cbn [read_tokens].
    destruct (Parser.parse_time ts) as [time|] eqn:Et; [|discriminate].
    unfold well_formed.
    destruct (k =? "SPEED")%string eqn:K1.
    { apply String.eqb_eq in K1. subst k.
      destruct rest as [|a [|]]; try discriminate.
      destruct (of_string a) eqn:Ea; [|discriminate].
      intros H; inversion H; subst. exists ts. cbn. now rewrite Ea. }
    destruct (k =? "FOLLOW_DISTANCE")%string eqn:K2.
    { apply String.eqb_eq in K2. subst k.
      destruct rest as [|a [|]]; try discriminate.
      destruct (of_string a) eqn:Ea; [|discriminate].
      intros H; inversion H; subst. exists ts. cbn. now rewrite Ea. }
    destruct (k =? "LANE_CHANGE")%string eqn:K3.
    { apply String.eqb_eq in K3. subst k.
      destruct rest as [|a [|]]; try discriminate.
      destruct ((a =? "LEFT") || (a =? "RIGHT"))%string eqn:Ea;
        [|discriminate].
      intros H; inversion H; subst. exists ts. cbn [String.eqb Ascii.eqb
        Bool.eqb orb]. now rewrite Ea. }
    destruct (k =? "STOP_SIGN_DETECTED")%string eqn:K4; [|discriminate].
    destruct rest; [|discriminate].
    intros H; inversion H; subst. exists ts.
    rewrite K1, K2, K3, K4. cbn [orb]. auto.
  - intros (ts & -> & Et & Hw). cbn [read_tokens]. rewrite Et.
    unfold well_formed in Hw.
    destruct (kind =? "SPEED")%string eqn:K1.
    { apply String.eqb_eq in K1. subst kind.
      cbn [String.eqb Ascii.eqb Bool.eqb orb] in *.
      destruct (of_string arg); [reflexivity|discriminate]. }
    destruct (kind =? "FOLLOW_DISTANCE")%string eqn:K2.
    { apply String.eqb_eq in K2. subst kind.
      cbn [String.eqb Ascii.eqb Bool.eqb orb] in *.
      destruct (of_string arg); [reflexivity|discriminate]. }
    cbn [orb] in Hw.
    destruct (kind =? "LANE_CHANGE")%string eqn:K3.
    { apply String.eqb_eq in K3. subst kind.
      cbn [String.eqb Ascii.eqb Bool.eqb]. now rewrite Hw. }
    destruct (kind =? "STOP_SIGN_DETECTED")%string eqn:K4; [|discriminate].
    apply String.eqb_eq in Hw. now subst arg.
Qed.

Lemma read_line_yields_iff_witness :
  read_line "  1:02.5   LANE_CHANGE LEFT "
  = Yield (Ffin (125 # 2), "LANE_CHANGE"%string, "LEFT"%string).
Proof.
  apply read_line_yields_iff. exists "1:02.5"%string.
  split; [reflexivity|]. split; [vm_compute; reflexivity|reflexivity].
Defined.

(** ** The reader and the detector *)

Lemma well_formed_event_ok (ev : Event) :
  well_formed ev = true -> formattable (timestamp ev) = true ->
  event_ok ev = true.
Proof.
  destruct ev as [[t kind] arg]. cbn [timestamp fst].
  unfold well_formed, event_ok, known_kind. intros Hw ->. cbn [andb].
  destruct (kind =? "SPEED")%string; [cbn [orb andb] in *; exact Hw|].
  destruct (kind =? "FOLLOW_DISTANCE")%string;
    [cbn [orb andb] in *; exact Hw|].
  destruct (kind =? "LANE_CHANGE")%string; [reflexivity|].
  destruct (kind =? "STOP_SIGN_DETECTED")%string; [reflexivity|discriminate].
Qed.

Lemma keyed_in_range (out : list violation) :
  Forall (fun v => exists t, timestamp_in_range t /\ stamped t v) out ->
  exists ks, keyed out = Ok ks.
Proof.
  induction 1 as [|v out (t & Hr & Hs) _ (ks & Hk)]; [now exists []|].
  cbn [keyed]. rewrite (stamped_sort_key t v Hr Hs), Hk. cbn [bind].
  now eexists.
Qed.

Lemma detect_violations_in_range (rules : road_rules) (events : list Event) :
  Forall (fun ev => well_formed ev = true) events ->
  Forall timestamp_in_range (map timestamp events) ->
  exists st emitted vs,
    scan rules initial_state events = Ok (st, emitted)
    /\ detect_violations rules events = Ok vs.
Proof.
  intros Hw Hr.
  assert (Hok : forallb event_ok events = true).
  { apply forallb_forall. intros ev Hin. apply well_formed_event_ok.
    - rewrite Forall_forall in Hw. now apply Hw.
    - apply in_range_formattable. rewrite Forall_forall in Hr. apply Hr.
      now apply in_map. }
  destruct (scan_total rules events initial_state Hok) as [[st out] Hs].
  assert (Hk : exists ks, keyed out = Ok ks).
  { apply keyed_in_range. pose proof (scan_stamped _ _ _ _ _ Hs) as Hst.
    revert Hst. apply Forall_impl. intros v (t & Hin & Ht).
    exists t. split; [|exact Ht]. rewrite Forall_forall in Hr. now apply Hr. }
  destruct Hk as [ks Hk].
  exists st, out, (map snd (stable_sort ks)). split; [exact Hs|].
  unfold detect_violations, sort_by_time. rewrite Hs. cbn [bind snd].
  rewrite Hk. reflexivity.
Qed.

Lemma read_log_well_formed (lines : list string) (events : list Event)
    (e : option log_exn) :
  read_log lines = (events, e) ->
  Forall (fun ev => well_formed ev = true) events.
Proof.
  revert events e. induction lines as [|raw rest IH]; intros events e E.
  - cbn [read_log] in E. inversion E. constructor.
  - rewrite read_log_cons in E.
    destruct (read_line raw) as [|ev|x] eqn:El.
    + now apply (IH _ e).
    + inversion E; subst. constructor.
      * apply read_line_yield in El. exact (proj1 El).
      * apply (IH _ _ (surjective_pairing _)).
    + inversion E. constructor.
Qed.

(** X7. The events of a log that [read_log] reads to its end, when their
    time stamps lie from [+0.0] up to, and without, [2^53] seconds, are
    analysed without an exception, whatever the thresholds: the loop
    accepts every event and the sort accepts every key. *)
Theorem read_events_are_analysed (rules : road_rules) (lines : list string)
    (events : list Event) :
  read_events lines = Returns events ->
  Forall timestamp_in_range (map timestamp events) ->
  exists vs, detect_violations rules events = Ok vs.
Proof.
  unfold read_events. intros H Hr.
  destruct (read_log lines) as [evs [x|]] eqn:E; [discriminate|].
  inversion H; subst evs; clear H.
  pose proof (read_log_well_formed _ _ _ E) as Hw.
  destruct (detect_violations_in_range rules events Hw Hr)
    as (_ & _ & vs & _ & Hd).
  now exists vs.
Qed.

Lemma read_events_are_analysed_witness :
  exists vs,
    detect_violations Samples.rules60 [(Ffin 1, "SPEED"%string, "70.0"%string)]
    = Ok vs.
Proof.
  apply (read_events_are_analysed Samples.rules60 ["0:01 SPEED 70.0"%string]).
  - vm_compute. reflexivity.
  - repeat apply Forall_cons; try apply Forall_nil.
    apply (timestamp_in_range_Z 1). lia.
Defined.

(** ** The scenario loader *)

Import Scenario.

Lemma lookup_app (l1 l2 : list (string * json)) (key : string) :
  lookup (l1 ++ l2) key
  = match lookup l1 key with
    | Some v => Some v
    | None => lookup l2 key
    end.
Proof.
  induction l1 as [|[k v] l1 IH]; [reflexivity|].
  cbn [app lookup]. destruct (k =? key)%string; [reflexivity|exact IH].
Qed.

Lemma lookup_setdefault (entries : list (string * json)) (key : string)
    (default : json) (k : string) :
  lookup (setdefault entries key default) k
  = match lookup entries k with
    | Some v => Some v
    | None => if (key =? k)%string then Some default else None
    end.
Proof.
  unfold setdefault, Scenario.has_key.
  destruct (lookup entries key) as [v|] eqn:E.
  - destruct (lookup entries k) as [w|] eqn:Ek; [reflexivity|].
    destruct (key =? k)%string eqn:Eq; [|reflexivity].
    apply String.eqb_eq in Eq. congruence.
  - rewrite lookup_app. cbn [lookup]. reflexivity.
Qed.

Lemma setdefault_present (entries : list (string * json)) (key : string)
    (default : json) :
  Scenario.has_key (setdefault entries key default) key = true.
Proof.
  unfold Scenario.has_key. rewrite lookup_setdefault.
  destruct (lookup entries key); [reflexivity|].
  now rewrite String.eqb_refl.
Qed.

Lemma first_missing_none (road_rules : list (string * json))
    (keys : list string) :
  first_missing road_rules keys = None
  <-> Forall (fun key => Scenario.has_key road_rules key = true) keys.
Proof.
  induction keys as [|key rest IH]; cbn [first_missing].
  - split; [constructor|reflexivity].
  - destruct (Scenario.has_key road_rules key) eqn:E.
    + rewrite IH. split; [now constructor|]. intros H. now inversion H.
    + split; [discriminate|]. intros H. inversion H. congruence.
Qed.

(** What [load_scenario] requires of a decoded object. *)
Lemma load_scenario_dict (entries : list (string * json)) :
  load_scenario (Some (JDict entries))
  = match lookup entries "road_rules" with
    | None => Raises MissingRoadRules
    | Some (JDict road_rules) =>
        match first_missing road_rules required_keys with
        | Some key => Raises (MissingRuleKey key)
        | None =>
            match lookup entries "speed_zones" with
            | None =>
                Returns (JDict (entries ++ [("speed_zones"%string, JList [])]))
            | Some (JList _) => Returns (JDict entries)
            | Some _ => Raises SpeedZonesNotList
            end
        end
    | Some _ => Raises RoadRulesNotDict
    end.
Proof.
  unfold load_scenario, member, Scenario.has_key.
  destruct (lookup entries "road_rules") as [rr|]; [|reflexivity].
  destruct rr; try reflexivity.
  destruct (first_missing _ _); [reflexivity|].
  rewrite lookup_setdefault. unfold setdefault, Scenario.has_key.
  destruct (lookup entries "speed_zones") as [z|]; [|reflexivity].
  destruct z; reflexivity.
Qed.

Lemma load_scenario_not_dict (file : option json) (d : json) :
  load_scenario file = Returns d ->
  exists entries, file = Some (JDict entries).
Proof.
  destruct file as [data|]; [|discriminate].
  destruct data; try discriminate.
  - unfold load_scenario, member.
    destruct (contains s "road_rules"); discriminate.
  - unfold load_scenario, member.
    destruct (existsb _ items); discriminate.
  - now eexists.
Qed.

(** What a returned scenario tells about the decoded object. *)
Lemma load_scenario_inv (file : option json) (d : json) :
  load_scenario file = Returns d ->
  exists entries road_rules zones,
    file = Some (JDict entries)
    /\ lookup entries "road_rules" = Some (JDict road_rules)
    /\ first_missing road_rules required_keys = None
    /\ d = JDict (setdefault entries "speed_zones" (JList []))
    /\ lookup (setdefault entries "speed_zones" (JList [])) "speed_zones"
       = Some (JList zones).
Proof.
  intros H. destruct (load_scenario_not_dict _ _ H) as [entries ->].
  rewrite load_scenario_dict in H.
  destruct (lookup entries "road_rules") as [rr|] eqn:Er; [|discriminate].
  destruct rr as [| | | | | |road_rules]; try discriminate.
  destruct (first_missing road_rules required_keys) eqn:Ef; [discriminate|].
  destruct (lookup entries "speed_zones") as [z|] eqn:Ez.
  - destruct z as [| | | | |zones|]; try discriminate.
    exists entries, road_rules, zones. inversion H; subst d.
    rewrite lookup_setdefault. unfold setdefault, Scenario.has_key.
    rewrite Ez. auto.
  - exists entries, road_rules, []. inversion H; subst d.
    rewrite lookup_setdefault. unfold setdefault, Scenario.has_key.
    rewrite Ez. auto.
Qed.

(** X8. [load_scenario] returns exactly when the file decodes to a
    [dict] whose [road_rules] entry is a [dict] holding the three
    thresholds and whose [speed_zones] entry is absent or a list; the
    values of the thresholds are not looked at.  It returns that [dict],
    with the empty list under [speed_zones] when the entry was absent. *)
Theorem load_scenario_returns_iff (file : option json) (d : json) :
  load_scenario file = Returns d
  <-> exists entries road_rules,
        file = Some (JDict entries)
        /\ lookup entries "road_rules" = Some (JDict road_rules)
        /\ Forall (fun key => Scenario.has_key road_rules key = true)
             required_keys
        /\ ((lookup entries "speed_zones" = None
             /\ d = JDict (entries ++ [("speed_zones"%string, JList [])]))
            \/ (exists zones,
                  lookup entries "speed_zones" = Some (JList zones)
                  /\ d = JDict entries)).
Proof.
  split.
  - intros H. apply load_scenario_inv in H.
    destruct H as (entries & road_rules & zones & -> & Er & Ef & -> & Hz).
    apply first_missing_none in Ef.
    exists entries, road_rules. split; [reflexivity|]. split; [exact Er|].
    split; [exact Ef|].
    rewrite lookup_setdefault in Hz. unfold setdefault, Scenario.has_key.
    destruct (lookup entries "speed_zones") as [z|] eqn:Ez.
    + right. exists zones. split; [exact Hz|reflexivity].
    + left. split; reflexivity.
  - intros (entries & road_rules & -> & Er & Ef & Hz).
    rewrite load_scenario_dict, Er.
    apply first_missing_none in Ef. rewrite Ef.
    destruct Hz as [[-> ->]|(zones & -> & ->)]; reflexivity.
Qed.

Lemma load_scenario_returns_iff_witness :
  load_scenario
    (Some (JDict [("road_rules"%string,
                   JDict [("max_speed"%string, JInt 35);
                          ("min_follow_distance"%string, JStr "five");
                          ("stop_sign_wait"%string, JNull)])]))
  = Returns
      (JDict [("road_rules"%string,
               JDict [("max_speed"%string, JInt 35);
                      ("min_follow_distance"%string, JStr "five");
                      ("stop_sign_wait"%string, JNull)]);
              ("speed_zones"%string, JList [])]).
Proof.
  apply load_scenario_returns_iff.
  eexists _, _. split; [reflexivity|]. split; [reflexivity|].
  split; [repeat constructor|]. left. split; reflexivity.
Defined.

(** X9. A scenario that [load_scenario] returns is accepted again and
    returned unchanged; it holds a list under [speed_zones], and under
    every other key what the decoded object held. *)
Theorem load_scenario_idempotent (file : option json) (d : json) :
  load_scenario file = Returns d ->
  load_scenario (Some d) = Returns d
  /\ exists entries entries' zones,
       file = Some (JDict entries) /\ d = JDict entries'
       /\ lookup entries' "speed_zones" = Some (JList zones)
       /\ forall key, key <> "speed_zones"%string ->
                      lookup entries' key = lookup entries key.
Proof.
  intros H. apply load_scenario_inv in H.
  destruct H as (entries & rr & zones & -> & Er & Ef & -> & Hz).
  assert (Hsame : forall key, key <> "speed_zones"%string ->
            lookup (setdefault entries "speed_zones" (JList [])) key
            = lookup entries key).
  { intros key Hk. rewrite lookup_setdefault.
    destruct (lookup entries key); [reflexivity|].
    destruct ("speed_zones" =? key)%string eqn:E; [|reflexivity].
    apply String.eqb_eq in E. congruence. }
  split.
  - rewrite load_scenario_dict, Hsame, Er, Ef, Hz by discriminate.
    reflexivity.
  - exists entries, (setdefault entries "speed_zones" (JList [])), zones.
    auto.
Qed.

Lemma load_scenario_idempotent_witness :
  let d := JDict [("road_rules"%string,
                   JDict [("max_speed"%string, JInt 35);
                          ("min_follow_distance"%string, JInt 5);
                          ("stop_sign_wait"%string, JInt 3)]);
                  ("speed_zones"%string, JList [])] in
  load_scenario (Some d) = Returns d.
Proof.
  refine (proj1 (load_scenario_idempotent
            (Some (JDict [("road_rules"%string,
                   JDict [("max_speed"%string, JInt 35);
                          ("min_follow_distance"%string, JInt 5);
                          ("stop_sign_wait"%string, JInt 3)])])) _ _)).
  reflexivity.
Defined.

Lemma threshold_dict (entries road_rules : list (string * json))
    (key : string) :
  lookup entries "road_rules" = Some (JDict road_rules) ->
  threshold (JDict entries) key
  = match lookup road_rules key with
    | Some x => to_float x
    | None => Raises (KeyError key)
    end.
Proof.
  intros H. unfold threshold, subscript. rewrite H.
  destruct (lookup road_rules key); reflexivity.
Qed.

(** X10. A scenario that [load_scenario] returns is a dict whose
    ["road_rules"] is a dict that holds the three thresholds, and the
    head of [detect_violations] finds them: it is the three conversions
    [float(...)] of the values under ["max_speed"],
    ["min_follow_distance"] and ["stop_sign_wait"], in that order, and
    raises only what a conversion raises, no [KeyError] and no
    [TypeError] of a subscript.  The run is the same on the returned
    scenario and on the decoded object. *)
Theorem loaded_scenario_has_thresholds (file : option json) (d : json) :
  load_scenario file = Returns d ->
  (exists entries thresholds_dict a b c,
     d = JDict entries
     /\ lookup entries "road_rules" = Some (JDict thresholds_dict)
     /\ lookup thresholds_dict "max_speed" = Some a
     /\ lookup thresholds_dict "min_follow_distance" = Some b
     /\ lookup thresholds_dict "stop_sign_wait" = Some c
     /\ thresholds d
     = match to_float a with
       | Raises e => Raises e
       | Returns max_speed =>
           match to_float b with
           | Raises e => Raises e
           | Returns min_follow =>
               match to_float c with
               | Raises e => Raises e
               | Returns stop_wait =>
                   Returns {| max_speed := max_speed;
                              min_follow_distance := min_follow;
                              stop_sign_wait := stop_wait |}
               end
           end
       end)
  /\ (forall e, thresholds d = Raises e ->
        e = FloatOfNonNumber \/ e = Detector IntTooLarge
        \/ exists s, e = Detector (BadFloatLiteral s))
  /\ (forall data events,
        file = Some data ->
        Scenario.detect_violations d events
        = Scenario.detect_violations data events).
Proof.
  intros H. apply load_scenario_inv in H.
  destruct H as (entries & rr & zones & -> & Er & Ef & -> & _).
  apply first_missing_none in Ef.
  remember (setdefault entries "speed_zones" (JList [])) as entries' eqn:E'.
  assert (Er' : lookup entries' "road_rules" = Some (JDict rr)).
  { subst entries'. now rewrite lookup_setdefault, Er. }
  assert (Ht : forall key, threshold (JDict entries') key
                           = threshold (JDict entries) key).
  { intros key. now rewrite (threshold_dict _ _ _ Er'), (threshold_dict _ _ _ Er). }
  rewrite Forall_forall in Ef.
  pose proof (Ef "max_speed"%string (or_introl eq_refl)) as H1.
  pose proof (Ef "min_follow_distance"%string
                (or_intror (or_introl eq_refl))) as H2.
  pose proof (Ef "stop_sign_wait"%string
                (or_intror (or_intror (or_introl eq_refl)))) as H3.
  unfold Scenario.has_key in H1, H2, H3.
  destruct (lookup rr "max_speed") as [a|] eqn:Ea; [|discriminate].
  destruct (lookup rr "min_follow_distance") as [b|] eqn:Eb; [|discriminate].
  destruct (lookup rr "stop_sign_wait") as [c|] eqn:Ec; [|discriminate].
  assert (Hth : thresholds (JDict entries')
     = match to_float a with
       | Raises e => Raises e
       | Returns max_speed =>
           match to_float b with
           | Raises e => Raises e
           | Returns min_follow =>
               match to_float c with
               | Raises e => Raises e
               | Returns stop_wait =>
                   Returns {| max_speed := max_speed;
                              min_follow_distance := min_follow;
                              stop_sign_wait := stop_wait |}
               end
           end
       end).
  { unfold thresholds. rewrite !(threshold_dict _ _ _ Er'), Ea, Eb, Ec.
    reflexivity. }
  assert (Hf : forall x e, to_float x = Raises e ->
            e = FloatOfNonNumber \/ e = Detector IntTooLarge
            \/ exists s, e = Detector (BadFloatLiteral s)).
  { intros x e. destruct x; cbn [to_float]; try discriminate;
      try (intros Hx; inversion Hx; now left).
    - unfold of_int. destruct (round64 (inject_Z n)); try discriminate.
      intros Hx; inversion Hx. right. now left.
    - unfold of_string. destruct (of_chars _); [discriminate|].
      intros Hx; inversion Hx. right. right. now eexists. }
  split; [now exists entries', rr, a, b, c|]. split.
  - intros e. rewrite Hth.
    destruct (to_float a) eqn:Fa; [|intros Hx; inversion Hx; subst; eauto].
    destruct (to_float b) eqn:Fb; [|intros Hx; inversion Hx; subst; eauto].
    destruct (to_float c) eqn:Fc; [discriminate|].
    intros Hx; inversion Hx; subst; eauto.
  - intros data events Hd. inversion Hd; subst data; clear Hd.
    unfold Scenario.detect_violations, thresholds. now rewrite !Ht.
Qed.

Lemma loaded_scenario_has_thresholds_witness :
  Scenario.detect_violations
    (JDict [("road_rules"%string,
             JDict [("max_speed"%string, JInt 60);
                    ("min_follow_distance"%string, JInt 10);
                    ("stop_sign_wait"%string, JInt 3)]);
            ("speed_zones"%string, JList [])])
    [(Ffin 1, "SPEED"%string, "70.0"%string)]
  = Scenario.detect_violations
      (JDict [("road_rules"%string,
               JDict [("max_speed"%string, JInt 60);
                      ("min_follow_distance"%string, JInt 10);
                      ("stop_sign_wait"%string, JInt 3)])])
      [(Ffin 1, "SPEED"%string, "70.0"%string)].
Proof.
  refine (proj2 (proj2 (loaded_scenario_has_thresholds
            (Some (JDict [("road_rules"%string,
               JDict [("max_speed"%string, JInt 60);
                      ("min_follow_distance"%string, JInt 10);
                      ("stop_sign_wait"%string, JInt 3)])])) _ _)) _ _ eq_refl).
  reflexivity.
Defined.

(** The names of the detector come first again. *)
Import Rules Props.

(** ** The detector: where violations come from *)

Lemma guarded_emit_inv (b : bool) (ty : string) (t : float) (text : string)
    (l : list violation) :
  (if b then emit ty t text else Ok []) = Ok l -> appended b ty t text l.
Proof.
  unfold appended. destruct b.
  - apply emit_inv.
  - intros H. now inversion H.
Qed.

(** The loop body, kind by kind, when it raises nothing. *)
Lemma process_cases (rules : road_rules) (st st' : detector_state)
    (t : float) (kind arg : string) (out : list violation) :
  process rules st (t, kind, arg) = Ok (st', out) ->
  (kind = "SPEED"%string
   /\ exists v sp rs,
        of_string arg = Ok v /\ out = (sp ++ rs)%list
        /\ appended (flt (max_speed rules) v) "SPEEDING" t
             (speeding_details rules v) sp
        /\ ((exists t0,
               stop_detect_time st = Some t0
               /\ flt one v && flt t0 t = true
               /\ appended (flt (fsub t t0) (stop_sign_wait rules))
                    "ROLLING_STOP" t
                    (rolling_stop_details rules (fsub t t0)) rs
               /\ st' = {| last_follow := last_follow st;
                           stop_detect_time := None |})
            \/ (rs = [] /\ st' = st
                /\ match stop_detect_time st with
                   | Some t0 => flt one v && flt t0 t = false
                   | None => True
                   end)))
  \/ (kind = "FOLLOW_DISTANCE"%string
      /\ exists d,
           of_string arg = Ok d
           /\ appended (flt d (min_follow_distance rules)) "TAILGATING" t
                (tailgating_details rules d) out
           /\ st' = {| last_follow := Some d;
                       stop_detect_time := stop_detect_time st |})
  \/ (kind = "LANE_CHANGE"%string /\ st' = st
      /\ match last_follow st with
         | Some d =>
             appended (flt d (min_follow_distance rules))
               "UNSAFE_LANE_CHANGE" t (unsafe_lane_change_details rules d) out
         | None => out = []
         end)
  \/ (kind = "STOP_SIGN_DETECTED"%string /\ out = []
      /\ st' = {| last_follow := last_follow st;
                  stop_detect_time := Some t |}).
Proof.
  unfold process. intros H.
  destruct (kind =? "SPEED")%string eqn:K1.
  { apply String.eqb_eq in K1. subst kind. left. split; [reflexivity|].
    destruct (of_string arg) as [v|]; [|discriminate]. cbn [bind] in H.
    destruct (if flt (max_speed rules) v then _ else _) as [sp|] eqn:E1;
      [|discriminate].
    apply guarded_emit_inv in E1. cbn [bind] in H.
    destruct (stop_detect_time st) as [t0|] eqn:Es.
    - destruct (flt one v && flt t0 t) eqn:Eg.
      + destruct (if flt (fsub t t0) (stop_sign_wait rules) then _ else _)
          as [rs|] eqn:E2; [|discriminate].
        apply guarded_emit_inv in E2. cbn [bind] in H.
        inversion H; subst st' out; clear H.
        exists v, sp, rs. split; [reflexivity|]. split; [reflexivity|].
        split; [exact E1|]. left. exists t0. auto.
      + inversion H; subst st' out; clear H.
        exists v, sp, []. split; [reflexivity|].
        split; [now rewrite app_nil_r|]. split; [exact E1|].
        right. auto.
    - inversion H; subst st' out; clear H.
      exists v, sp, []. split; [reflexivity|].
      split; [now rewrite app_nil_r|]. split; [exact E1|].
      right. auto. }
  destruct (kind =? "FOLLOW_DISTANCE")%string eqn:K2.
  { apply String.eqb_eq in K2. subst kind. right; left.
    split; [reflexivity|].
    destruct (of_string arg) as [d|]; [|discriminate]. cbn [bind] in H.
    destruct (if flt d (min_follow_distance rules) then _ else _)
      as [l|] eqn:E1; [|discriminate].
    apply guarded_emit_inv in E1. cbn [bind] in H.
    inversion H; subst st' out; clear H. exists d. auto. }
  destruct (kind =? "LANE_CHANGE")%string eqn:K3.
  { apply String.eqb_eq in K3. subst kind. right; right; left.
    split; [reflexivity|].
    destruct (last_follow st) as [d|].
    - destruct (flt d (min_follow_distance rules)) eqn:Eg.
      + destruct (emit _ _ _) as [l|] eqn:E1; [|discriminate].
        apply emit_inv in E1. cbn [bind] in H.
        inversion H; subst st' out; clear H.
        split; [reflexivity|]. exact E1.
      + inversion H; subst st' out; clear H.
        split; reflexivity.
    - inversion H; subst st' out; clear H. auto. }
  destruct (kind =? "STOP_SIGN_DETECTED")%string eqn:K4; [|discriminate].
  apply String.eqb_eq in K4. subst kind. right; right; right.
  inversion H; subst st' out; clear H. auto.
Qed.

Lemma appended_cases (b : bool) (ty : string) (t : float) (text : string)
    (l : list violation) :
  appended b ty t text l ->
  l = [] \/ exists tm, _fmt_time t = Ok tm
                       /\ l = [{| type := ty; time := tm; details := text |}].
Proof. unfold appended. destruct b; [now right|now left]. Qed.

(** The types that one event appends, in order. *)
Lemma process_types (rules : road_rules) (st st' : detector_state)
    (t : float) (kind arg : string) (out : list violation) :
  process rules st (t, kind, arg) = Ok (st', out) ->
  Forall (stamped t) out
  /\ ((kind = "SPEED"%string
       /\ (map type out = [] \/ map type out = ["SPEEDING"%string]
           \/ (map type out = ["ROLLING_STOP"%string]
               /\ pending st = 1%nat /\ pending st' = 0%nat)
           \/ (map type out = ["SPEEDING"%string; "ROLLING_STOP"%string]
               /\ pending st = 1%nat /\ pending st' = 0%nat))
       /\ (pending st' <= pending st)%nat)
      \/ (kind = "FOLLOW_DISTANCE"%string
          /\ (map type out = [] \/ map type out = ["TAILGATING"%string])
          /\ pending st' = pending st)
      \/ (kind = "LANE_CHANGE"%string
          /\ (map type out = []
              \/ map type out = ["UNSAFE_LANE_CHANGE"%string])
          /\ pending st' = pending st)
      \/ (kind = "STOP_SIGN_DETECTED"%string /\ out = []
          /\ pending st' = 1%nat)).
Proof.
  intros H. split; [exact (process_stamped _ _ _ _ _ _ _ H)|].
  apply process_cases in H.
  destruct H as [(-> & v & sp & rs & _ & -> & Hsp & Hrs)
                |[(-> & d & _ & Ho & ->)
                 |[(-> & -> & Ho)|(-> & -> & ->)]]].
  - left. split; [reflexivity|]. apply appended_cases in Hsp.
    destruct Hrs as [(t0 & Es & _ & Hrs & ->)|(-> & -> & _)].
    + apply appended_cases in Hrs. unfold pending. rewrite Es.
      cbn [stop_detect_time].
      destruct Hsp as [->|(tm & _ & ->)], Hrs as [->|(tm' & _ & ->)];
        cbn [app map type]; intuition.
    + rewrite app_nil_r.
      destruct Hsp as [->|(tm & _ & ->)]; cbn [map type]; intuition.
  - right; left. split; [reflexivity|]. apply appended_cases in Ho.
    destruct Ho as [->|(tm & _ & ->)]; cbn [map type]; split; auto.
  - right; right; left. split; [reflexivity|].
    destruct (last_follow st) as [d|].
    + apply appended_cases in Ho.
      destruct Ho as [->|(tm & _ & ->)]; cbn [map type]; split; auto.
    + subst out. split; auto.
  - right; right; right. auto.
Qed.

Lemma count_type_map (ty : string) (out : list violation) :
  count_type ty out
  = List.length (filter (fun s => (s =? ty)%string) (map type out)).
Proof.
  unfold count_type. induction out as [|v out IH]; [reflexivity|].
  cbn [filter map]. destruct (type v =? ty)%string; cbn [List.length];
    now rewrite IH.
Qed.

Lemma count_kind_cons (kind : string) (t : float) (k arg : string)
    (events : list Event) :
  count_kind kind ((t, k, arg) :: events)
  = ((if (k =? kind)%string then 1 else 0) + count_kind kind events)%nat.
Proof.
  unfold count_kind. cbn [filter fst snd].
  destruct (k =? kind)%string; reflexivity.
Qed.

(** What one event adds to the count of a type. *)
Lemma process_count (rules : road_rules) (st st' : detector_state)
    (t : float) (kind arg : string) (out : list violation)
    (ty k : string) :
  process rules st (t, kind, arg) = Ok (st', out) ->
  kind_of_type ty = Some k ->
  (count_type ty out <= if (kind =? k)%string then 1 else 0)%nat.
Proof.
  intros H Hk. apply process_types in H. destruct H as [_ H].
  rewrite count_type_map. unfold kind_of_type in Hk.
  destruct H as [(-> & Ho & _)|[(-> & Ho & _)|[(-> & Ho & _)|(-> & -> & _)]]].
  - destruct Ho as [->|[->|[(-> & _)|(-> & _)]]]; cbn [filter];
      destruct (ty =? "SPEEDING")%string eqn:E1;
      destruct (ty =? "ROLLING_STOP")%string eqn:E2;
      try (apply String.eqb_eq in E1; subst ty);
      try (apply String.eqb_eq in E2; subst ty);
      try discriminate; cbn [orb] in Hk;
      try (rewrite String.eqb_sym, E1); try (rewrite String.eqb_sym, E2);
      try (inversion Hk; subst k); cbn; try lia;
      destruct (("SPEED" =? k)%string); lia.
  - destruct Ho as [->| ->]; cbn [filter];
      destruct (ty =? "SPEEDING")%string eqn:E1;
      destruct (ty =? "ROLLING_STOP")%string eqn:E2;
      destruct (ty =? "TAILGATING")%string eqn:E3;
      try (apply String.eqb_eq in E1; subst ty);
      try (apply String.eqb_eq in E2; subst ty);
      try (apply String.eqb_eq in E3; subst ty);
      try discriminate; cbn [orb] in Hk;
      try (rewrite String.eqb_sym, E3);
      try (inversion Hk; subst k); cbn; try lia;
      destruct (("FOLLOW_DISTANCE" =? k)%string); lia.
  - destruct Ho as [->| ->]; cbn [filter];
      destruct (ty =? "SPEEDING")%string eqn:E1;
      destruct (ty =? "ROLLING_STOP")%string eqn:E2;
      destruct (ty =? "TAILGATING")%string eqn:E3;
      destruct (ty =? "UNSAFE_LANE_CHANGE")%string eqn:E4;
      try (apply String.eqb_eq in E1; subst ty);
      try (apply String.eqb_eq in E2; subst ty);
      try (apply String.eqb_eq in E3; subst ty);
      try (apply String.eqb_eq in E4; subst ty);
      try discriminate; cbn [orb] in Hk;
      try (rewrite String.eqb_sym, E4);
      try (inversion Hk; subst k); cbn; try lia;
      destruct (("LANE_CHANGE" =? k)%string); lia.
  - cbn. lia.
Qed.

Lemma scan_count (rules : road_rules) (events : list Event)
    (st st' : detector_state) (out : list violation) (ty k : string) :
  scan rules st events = Ok (st', out) ->
  kind_of_type ty = Some k ->
  (count_type ty out <= count_kind k events)%nat.
Proof.
  intros H Hk. revert st out H.
  induction events as [|[[t kind] arg] rest IH]; intros st out H.
  - cbn [scan] in H. inversion H. cbn. lia.
  - apply scan_cons in H. destruct H as (st1 & o1 & o2 & Hp & Hs & ->).
    rewrite count_type_app, count_kind_cons.
    pose proof (process_count _ _ _ _ _ _ _ ty k Hp Hk).
    pose proof (IH _ _ Hs). lia.
Qed.

(** Every ROLLING_STOP uses up one stop sign. *)
Lemma scan_rolling_stops (rules : road_rules) (events : list Event)
    (st st' : detector_state) (out : list violation) :
  scan rules st events = Ok (st', out) ->
  (count_type "ROLLING_STOP" out + pending st'
   <= pending st + count_kind "STOP_SIGN_DETECTED" events)%nat.
Proof.
  revert st out. induction events as [|[[t kind] arg] rest IH]; intros st out H.
  - cbn [scan] in H. inversion H. cbn. lia.
  - apply scan_cons in H. destruct H as (st1 & o1 & o2 & Hp & Hs & ->).
    rewrite count_type_app, count_kind_cons. specialize (IH _ _ Hs).
    apply process_types in Hp. destruct Hp as [_ Hp].
    assert (Hst : (pending st <= 1)%nat)
      by (unfold pending; destruct (stop_detect_time st); lia).
    destruct Hp as [(-> & Ho & Hle)|[(-> & Ho & He)
                   |[(-> & Ho & He)|(-> & -> & He)]]];
      rewrite ?count_type_map in *.
    + destruct Ho as [Ho|[Ho|[(Ho & H1 & H0)|(Ho & H1 & H0)]]];
        rewrite Ho; cbn in *; lia.
    + destruct Ho as [Ho|Ho]; rewrite Ho; cbn in *; lia.
    + destruct Ho as [Ho|Ho]; rewrite Ho; cbn in *; lia.
    + cbn in *. lia.
Qed.

Lemma Permutation_filter_length {A : Type} (f : A -> bool) (l l' : list A) :
  Permutation l l' ->
  List.length (filter f l) = List.length (filter f l').
Proof.
  induction 1 as [|x l l' _ IH|x y l|l l' l'' _ IH1 _ IH2]; cbn [filter].
  - reflexivity.
  - destruct (f x); cbn [List.length]; now rewrite IH.
  - destruct (f x), (f y); reflexivity.
  - now rewrite IH1.
Qed.

(** A run that returns: the loop returned, and the result holds the
    violations it emitted, in some order. *)
Lemma detect_violations_perm (rules : road_rules) (events : list Event)
    (vs : list violation) :
  detect_violations rules events = Ok vs ->
  exists st emitted,
    scan rules initial_state events = Ok (st, emitted)
    /\ Permutation emitted vs.
Proof.
  unfold detect_violations, sort_by_time.
  destruct (scan rules initial_state events) as [[st emitted]|] eqn:Es;
    [|discriminate].
  cbn [bind snd]. destruct (keyed emitted) as [kvs|] eqn:Ek; [|discriminate].
  cbn [bind]. intros H; inversion H; subst vs; clear H.
  exists st, emitted. split; [reflexivity|].
  destruct (keyed_spec emitted kvs Ek) as [Hm _].
  rewrite <- Hm at 1. apply Permutation_map. apply stable_sort_perm.
Qed.

(** X11. In the list that a run returns there are at most as many
    SPEEDING violations as SPEED events in the log, as many TAILGATING
    violations as FOLLOW_DISTANCE events and as many UNSAFE_LANE_CHANGE
    violations as LANE_CHANGE events; there are at most as many
    ROLLING_STOP violations as SPEED events, and as many as
    STOP_SIGN_DETECTED events: a stop sign is charged once at most. *)
Theorem violations_bounded_by_events (rules : road_rules)
    (events : list Event) (vs : list violation) :
  detect_violations rules events = Ok vs ->
  (count_type "SPEEDING" vs <= count_kind "SPEED" events)%nat
  /\ (count_type "TAILGATING" vs <= count_kind "FOLLOW_DISTANCE" events)%nat
  /\ (count_type "UNSAFE_LANE_CHANGE" vs
      <= count_kind "LANE_CHANGE" events)%nat
  /\ (count_type "ROLLING_STOP" vs <= count_kind "SPEED" events)%nat
  /\ (count_type "ROLLING_STOP" vs
      <= count_kind "STOP_SIGN_DETECTED" events)%nat.
Proof.
  intros H. apply detect_violations_perm in H.
  destruct H as (st & emitted & Hs & Hp).
  assert (Hc : forall ty, count_type ty vs = count_type ty emitted).
  { intros ty. unfold count_type. symmetry.
    now apply Permutation_filter_length. }
  rewrite !Hc.
  split; [exact (scan_count _ _ _ _ _ "SPEEDING" "SPEED" Hs eq_refl)|].
  split;
    [exact (scan_count _ _ _ _ _ "TAILGATING" "FOLLOW_DISTANCE" Hs eq_refl)|].
  split;
    [exact (scan_count _ _ _ _ _ "UNSAFE_LANE_CHANGE" "LANE_CHANGE" Hs
              eq_refl)|].
  split; [exact (scan_count _ _ _ _ _ "ROLLING_STOP" "SPEED" Hs eq_refl)|].
  pose proof (scan_rolling_stops _ _ _ _ _ Hs) as Hr.
  cbn [pending initial_state stop_detect_time] in Hr. lia.
Qed.

Lemma violations_bounded_by_events_witness :
  (count_type "ROLLING_STOP" Samples.ordered_violations
   <= count_kind "STOP_SIGN_DETECTED" Samples.ordered_events)%nat.
Proof.
  assert (H : detect_violations Samples.rules60 Samples.ordered_events
              = Ok Samples.ordered_violations) by (vm_compute; reflexivity).
  exact (proj2 (proj2 (proj2 (proj2
           (violations_bounded_by_events _ _ _ H))))).
Defined.

Lemma scan_traced (rules : road_rules) (events : list Event)
    (st st' : detector_state) (out : list violation) :
  scan rules st events = Ok (st', out) ->
  Forall (fun v =>
            exists t kind arg,
              In (t, kind, arg) events
              /\ _fmt_time t = Ok (time v)
              /\ kind_of_type (type v) = Some kind) out.
Proof.
  revert st out. induction events as [|[[t kind] arg] rest IH]; intros st out H.
  - cbn [scan] in H. inversion H. constructor.
  - apply scan_cons in H. destruct H as (st1 & o1 & o2 & Hp & Hs & ->).
    apply Forall_app. split.
    + apply process_types in Hp. destruct Hp as [Hst Hp].
      assert (Hk : Forall (fun v => kind_of_type (type v) = Some kind) o1).
      { rewrite <- (Forall_map type
                      (fun s => kind_of_type s = Some kind)).
        destruct Hp as [(-> & Ho & _)|[(-> & Ho & _)
                       |[(-> & Ho & _)|(-> & -> & _)]]].
        - destruct Ho as [->|[->|[(-> & _)|(-> & _)]]];
            repeat constructor.
        - destruct Ho as [->| ->]; repeat constructor.
        - destruct Ho as [->| ->]; repeat constructor.
        - constructor. }
      rewrite Forall_forall in *. intros v Hin.
      exists t, kind, arg. split; [now left|].
      split; [exact (Hst v Hin)|exact (Hk v Hin)].
    + specialize (IH _ _ Hs). revert IH. apply Forall_impl.
      intros v (t' & k' & a' & Hin & Hr). exists t', k', a'.
      split; [now right|exact Hr].
Qed.

(** X12. Every violation that a run returns comes from an event of the
    log: its time is the formatted time stamp of an event whose kind is
    SPEED for SPEEDING and ROLLING_STOP, FOLLOW_DISTANCE for TAILGATING
    and LANE_CHANGE for UNSAFE_LANE_CHANGE; there is no other type, and
    no violation carries the time of a stop sign as such. *)
Theorem violations_come_from_events (rules : road_rules)
    (events : list Event) (vs : list violation) :
  detect_violations rules events = Ok vs ->
  Forall (fun v =>
            exists t kind arg,
              In (t, kind, arg) events
              /\ _fmt_time t = Ok (time v)
              /\ kind_of_type (type v) = Some kind) vs.
Proof.
  intros H. apply detect_violations_perm in H.
  destruct H as (st & emitted & Hs & Hp).
  apply scan_traced in Hs. revert Hs. apply Permutation_Forall. exact Hp.
Qed.

Lemma violations_come_from_events_witness :
  Forall (fun v =>
            exists t kind arg,
              In (t, kind, arg) Samples.unordered_events
              /\ _fmt_time t = Ok (time v)
              /\ kind_of_type (type v) = Some kind)
    Samples.unordered_sorted.
Proof.
  assert (H : detect_violations Samples.rules60 Samples.unordered_events
              = Ok Samples.unordered_sorted) by (vm_compute; reflexivity).
  exact (violations_come_from_events _ _ _ H).
Defined.

(** ** The detector: relaxing the rules *)

Lemma fle_flt_trans (a b c : float) :
  fle a b = true -> flt b c = true -> flt a c = true.
Proof.
  unfold fle. intros H1 H2. apply orb_true_iff in H1.
  float_cases a; float_cases b; float_cases c;
    destruct H1 as [H1|H1]; try discriminate; float_order; lra.
Qed.

Lemma flt_fle_trans (a b c : float) :
  flt a b = true -> fle b c = true -> flt a c = true.
Proof.
  unfold fle. intros H1 H2. apply orb_true_iff in H2.
  float_cases a; float_cases b; float_cases c;
    destruct H2 as [H2|H2]; try discriminate; float_order; lra.
Qed.

(** [o'] holds no more than [o]: no more violations of any type, and
    only types and times that [o] holds. *)
Lemma covered_app (o1 o2 o1' o2' : list violation) :
  ((forall ty, (count_type ty o1' <= count_type ty o1)%nat)
   /\ incl (map stamp o1') (map stamp o1)) ->
  ((forall ty, (count_type ty o2' <= count_type ty o2)%nat)
   /\ incl (map stamp o2') (map stamp o2)) ->
  (forall ty, (count_type ty (o1' ++ o2') <= count_type ty (o1 ++ o2))%nat)
  /\ incl (map stamp (o1' ++ o2')) (map stamp (o1 ++ o2)).
Proof.
  intros [C1 I1] [C2 I2]. split.
  - intros ty. rewrite !count_type_app. specialize (C1 ty).
    specialize (C2 ty). lia.
  - rewrite !map_app. apply incl_app_app; assumption.
Qed.

Lemma covered_nil (o : list violation) :
  (forall ty, (count_type ty [] <= count_type ty o)%nat)
  /\ incl (map stamp []) (map stamp o).
Proof. split; [intros ty; cbn; lia|apply incl_nil_l]. Qed.

Lemma guarded_relaxed (b b' : bool) (ty : string) (t : float)
    (text text' : string) (l : list violation) :
  (b' = true -> b = true) ->
  appended b ty t text l ->
  exists l',
    (if b' then emit ty t text' else Ok []) = Ok l'
    /\ (forall k, (count_type k l' <= count_type k l)%nat)
    /\ incl (map stamp l') (map stamp l).
Proof.
  intros Hb Ha. destruct b'.
  - rewrite (Hb eq_refl) in Ha. destruct Ha as (tm & Htm & ->).
    unfold emit. rewrite Htm. cbn [bind]. eexists. split; [reflexivity|].
    split.
    { intros k. unfold count_type. cbn [filter type].
      destruct (ty =? k)%string; apply Nat.le_refl. }
    unfold stamp. cbn [map type time]. apply incl_refl.
  - exists []. split; [reflexivity|]. apply covered_nil.
Qed.

Lemma process_relaxed (rules rules' : road_rules) (st st' : detector_state)
    (ev : Event) (out : list violation) :
  relaxed rules rules' ->
  process rules st ev = Ok (st', out) ->
  exists out',
    process rules' st ev = Ok (st', out')
    /\ (forall ty, (count_type ty out' <= count_type ty out)%nat)
    /\ incl (map stamp out') (map stamp out).
Proof.
  intros (Hm & Hf & Hw) H. destruct ev as [[t kind] arg].
  apply process_cases in H.
  destruct H as [(-> & v & sp & rs & Hv & -> & Hsp & Hrs)
                |[(-> & d & Hd & Ho & ->)
                 |[(-> & -> & Ho)|(-> & -> & ->)]]].
  - rewrite process_speed, Hv. cbn [bind].
    destruct (guarded_relaxed _ (flt (max_speed rules') v) _ _ _
                (speeding_details rules' v) _
                (fle_flt_trans _ _ _ Hm) Hsp) as (sp' & -> & Csp).
    cbn [bind].
    destruct Hrs as [(t0 & -> & -> & Hrs & ->)|(-> & -> & Hg)].
    + destruct (guarded_relaxed _ (flt (fsub t t0) (stop_sign_wait rules'))
                  _ _ _ (rolling_stop_details rules' (fsub t t0)) _
                  (fun H => flt_fle_trans _ _ _ H Hw) Hrs)
        as (rs' & -> & Crs).
      cbn [bind]. exists (sp' ++ rs')%list. split; [reflexivity|].
      now apply covered_app.
    + exists sp'. split.
      * destruct (stop_detect_time st) as [t0|]; [rewrite Hg|]; reflexivity.
      * rewrite app_nil_r. exact Csp.
  - rewrite process_follow_distance, Hd. cbn [bind].
    destruct (guarded_relaxed _ (flt d (min_follow_distance rules')) _ _ _
                (tailgating_details rules' d) _
                (fun H => flt_fle_trans _ _ _ H Hf) Ho) as (o' & -> & Co).
    cbn [bind]. exists o'. split; [reflexivity|exact Co].
  - rewrite process_lane_change.
    destruct (last_follow st) as [d|].
    + destruct (guarded_relaxed _ (flt d (min_follow_distance rules')) _ _ _
                  (unsafe_lane_change_details rules' d) _
                  (fun H => flt_fle_trans _ _ _ H Hf) Ho) as (o' & Ho' & Co).
      exists o'. split; [|exact Co].
      destruct (flt d (min_follow_distance rules')).
      * rewrite Ho'. reflexivity.
      * now inversion Ho'.
    + subst out. exists []. split; [reflexivity|apply covered_nil].
  - rewrite process_stop_sign. exists []. split; [reflexivity|].
    apply covered_nil.
Qed.

Lemma scan_relaxed (rules rules' : road_rules) (events : list Event)
    (st st' : detector_state) (out : list violation) :
  relaxed rules rules' ->
  scan rules st events = Ok (st', out) ->
  exists out',
    scan rules' st events = Ok (st', out')
    /\ (forall ty, (count_type ty out' <= count_type ty out)%nat)
    /\ incl (map stamp out') (map stamp out).
Proof.
  intros Hr. revert st out.
  induction events as [|ev rest IH]; intros st out H.
  - cbn [scan] in *. inversion H; subst. exists [].
    split; [reflexivity|apply covered_nil].
  - apply scan_cons in H. destruct H as (st1 & o1 & o2 & Hp & Hs & ->).
    destruct (process_relaxed _ _ _ _ _ _ Hr Hp) as (o1' & Hp' & C1).
    destruct (IH _ _ Hs) as (o2' & Hs' & C2).
    exists (o1' ++ o2')%list. split.
    + apply scan_cons. now exists st1, o1', o2'.
    + now apply covered_app.
Qed.

Lemma keyed_ok_iff (l : list violation) :
  (exists ks, keyed l = Ok ks)
  <-> Forall (fun v => is_ok (sort_key v) = true) l.
Proof.
  induction l as [|v l IH]; cbn [keyed].
  - split; [constructor|now eexists].
  - destruct (sort_key v) as [k|] eqn:Ek; cbn [bind].
    + destruct (keyed l) as [ks|]; cbn [bind].
      * split; [|now eexists]. intros _. constructor; [now rewrite Ek|].
        apply IH. now eexists.
      * split; [intros [ks H]; discriminate|].
        intros H. inversion H as [|? ? _ Hl]. apply IH in Hl.
        destruct Hl; discriminate.
    + split; [intros [ks H]; discriminate|].
      intros H. inversion H as [|? ? Hv _]. rewrite Ek in Hv. discriminate.
Qed.

Lemma sort_key_stamp (v w : violation) :
  stamp v = stamp w -> sort_key v = sort_key w.
Proof. unfold stamp, sort_key. intros H. inversion H. congruence. Qed.

(** X13. Relaxing the rules -- a speed limit that is not lower, a
    follow distance and a wait at stop signs that are not higher -- never
    makes a run fail and never adds a violation: the run on the same log
    returns, with at most as many violations of each type, each of a type
    and at a time that the stricter run reports. *)
Theorem relaxed_rules_report_less (rules rules' : road_rules)
    (events : list Event) (vs : list violation) :
  relaxed rules rules' ->
  detect_violations rules events = Ok vs ->
  exists vs',
    detect_violations rules' events = Ok vs'
    /\ (forall ty, (count_type ty vs' <= count_type ty vs)%nat)
    /\ incl (map stamp vs') (map stamp vs).
Proof.
  intros Hr H. pose proof H as Hd. apply detect_violations_perm in H.
  destruct H as (st & out & Hs & Hp).
  destruct (scan_relaxed _ _ _ _ _ _ Hr Hs) as (out' & Hs' & Hc & Hi).
  assert (Hk : exists ks, keyed out = Ok ks).
  { unfold detect_violations, sort_by_time in Hd. rewrite Hs in Hd.
    cbn [bind snd] in Hd. destruct (keyed out); [now eexists|discriminate]. }
  assert (Hk' : exists ks', keyed out' = Ok ks').
  { apply keyed_ok_iff. apply keyed_ok_iff in Hk.
    rewrite Forall_forall in *. intros v' Hin.
    assert (Hin' : In (stamp v') (map stamp out))
      by (apply Hi; now apply in_map).
    apply in_map_iff in Hin'. destruct Hin' as (v & Ev & Hv).
    rewrite <- (sort_key_stamp v v' Ev). now apply Hk. }
  destruct Hk' as [ks' Hk'].
  assert (Hd' : detect_violations rules' events
                = Ok (map snd (stable_sort ks'))).
  { unfold detect_violations, sort_by_time. rewrite Hs'. cbn [bind snd].
    now rewrite Hk'. }
  exists (map snd (stable_sort ks')). split; [exact Hd'|].
  apply detect_violations_perm in Hd'.
  destruct Hd' as (st2 & out2 & Hs2 & Hp2).
  rewrite Hs' in Hs2. inversion Hs2; subst st2 out2; clear Hs2.
  split.
  - intros ty. unfold count_type.
    rewrite <- (Permutation_filter_length _ _ _ Hp2),
      <- (Permutation_filter_length _ _ _ Hp).
    apply Hc.
  - intros x Hx. apply (Permutation_in _ (Permutation_map stamp Hp)).
    apply Hi.
    apply (Permutation_in _ (Permutation_map stamp (Permutation_sym Hp2))).
    exact Hx.
Qed.

Lemma relaxed_rules_report_less_witness :
  exists vs',
    detect_violations
      {| max_speed := Ffin 75; min_follow_distance := Ffin 10;
         stop_sign_wait := Ffin 3 |} Samples.ordered_events = Ok vs'
    /\ (count_type "SPEEDING" vs'
        <= count_type "SPEEDING" Samples.ordered_violations)%nat.
Proof.
  assert (H : detect_violations Samples.rules60 Samples.ordered_events
              = Ok Samples.ordered_violations) by (vm_compute; reflexivity).
  assert (Hr : relaxed Samples.rules60
                 {| max_speed := Ffin 75; min_follow_distance := Ffin 10;
                    stop_sign_wait := Ffin 3 |})
    by (repeat split; reflexivity).
  destruct (relaxed_rules_report_less _ _ _ _ Hr H) as (vs' & Hd & Hc & _).
  exists vs'. split; [exact Hd|apply Hc].
Defined.

(** ** The time codec: the shape of a formatted time *)

Lemma tenths_sixty (v : Q) :
  0 <= v -> (tenths_of v = 600%Z <-> 1199 # 20 <= seconds_of v).
Proof.
  intros Hv. destruct (minutes_seconds_bounds v Hv) as (_ & H0 & H60 & _).
  assert (E : tenths_of v = round_half_even (seconds_of v * 10)).
  { unfold tenths_of. apply round_half_even_comp.
    rewrite Qabs_pos by exact H0. reflexivity. }
  rewrite E. clear E.
  remember (seconds_of v) as s eqn:Es. clear Es Hv v.
  pose proof (round_half_even_cases (s * 10)) as Hc. cbv zeta in Hc.
  pose proof (Qfloor_le (s * 10)) as F1.
  pose proof (Qlt_floor (s * 10)) as F2.
  remember (Qfloor (s * 10)) as f eqn:Ef. clear Ef.
  rewrite inject_Z_plus in F2. change (inject_Z 1) with 1 in F2.
  assert (Hf : (f <= 599)%Z).
  { apply Z.lt_succ_r. rewrite Zlt_Qlt. change (inject_Z (Z.succ 599)) with 600.
    lra. }
  destruct Hc as (_ & _ & Hc). split.
  - intros E.
    destruct Hc as [(Hr & Hc)|[(Hr & Hc)|(Hr & Hc)]]; rewrite Hc in E.
    + lia.
    + assert (f = 599%Z) by (destruct (Z.even f); lia). subst f.
      change (inject_Z 599) with 599 in *. lra.
    + assert (f = 599%Z) by lia. subst f.
      change (inject_Z 599) with 599 in *. lra.
  - intros Hs.
    assert (f = 599%Z).
    { apply Z.le_antisymm; [exact Hf|]. apply Z.lt_succ_r. rewrite Zlt_Qlt.
      rewrite <- Z.add_1_r, inject_Z_plus.
      change (inject_Z 599) with 599. change (inject_Z 1) with 1. lra. }
    subst f. change (inject_Z 599) with 599 in *.
    destruct Hc as [(Hr & Hc)|[(Hr & Hc)|(Hr & Hc)]]; rewrite Hc.
    + lra.
    + reflexivity.
    + reflexivity.
Qed.

Lemma seconds_text_width (r : Z) :
  (0 <= r <= 600)%Z ->
  seconds_text r
  = string_of_list_ascii
      (two_digits (r / 10) ++ ["."%char; PyStr.digit_char (r mod 10)]).
Proof.
  intros H. destruct (Z.eq_dec r 600) as [->|Hn]; [reflexivity|].
  apply seconds_text_two_digits. lia.
Qed.

(** X14. A time stamp from [+0.0] up to, and without, [2^53] seconds is
    written as the whole minutes on two digits or more, a colon, and the
    seconds rounded to a tenth on two digits, a point and one digit.  The
    seconds field runs from [00.0] to [60.0]: it reads [60.0], with the
    minutes not carried, exactly when the seconds within the minute are
    59.95 or more. *)
Theorem fmt_time_shape (t : float) :
  timestamp_in_range t ->
  let m := minutes_of (value t) in
  let r := tenths_of (value t) in
  (0 <= m)%Z /\ (0 <= r <= 600)%Z
  /\ _fmt_time t
     = Ok (PyInt.format_d 2 m ++ ":"
           ++ string_of_list_ascii
                (two_digits (r / 10)
                   ++ ["."%char; PyStr.digit_char (r mod 10)]))%string
  /\ (r = 600%Z <-> 1199 # 20 <= seconds_of (value t)).
Proof.
  intros Hr. cbv zeta.
  destruct (in_range_holds t Hr) as (Hh & Hrep & Hb).
  pose proof Hh as [Hv _].
  destruct (minutes_seconds_bounds _ Hv) as (Hm & _).
  pose proof (tenths_bounds _ Hv) as Ht.
  split; [exact Hm|]. split; [exact Ht|]. split.
  - rewrite (fmt_time_exact t _ Hh Hrep Hb), time_text_eq.
    now rewrite (seconds_text_width _ Ht).
  - now apply tenths_sixty.
Qed.

Lemma fmt_time_shape_witness :
  _fmt_time (Ffin (1919 # 32)) = Ok "00:60.0"%string.
Proof.
  assert (Hr : timestamp_in_range (Ffin (1919 # 32))).
  { cbn [timestamp_in_range]. split; [|split; reflexivity].
    exists 1919%Z, (-5)%Z. split; [reflexivity|].
    split; [lia|]. split; [lia|reflexivity]. }
  destruct (fmt_time_shape _ Hr) as (_ & _ & H & _).
  rewrite H. vm_compute. reflexivity.
Defined.

(** ** The time codec: whole seconds *)

Lemma minutes_of_Z (n : Z) :
  (0 <= n)%Z -> minutes_of (inject_Z n) = (n / 60)%Z.
Proof.
  intros H. unfold minutes_of. apply Qfloor_unique.
  - apply Qle_shift_div_l; [reflexivity|].
    change 60 with (inject_Z 60). rewrite <- inject_Z_mult, <- Zle_Qle.
    pose proof (Z.mul_div_le n 60). lia.
  - apply Qlt_shift_div_r; [reflexivity|].
    change 60 with (inject_Z 60). change 1 with (inject_Z 1).
    rewrite <- inject_Z_plus, <- inject_Z_mult, <- Zlt_Qlt.
    pose proof (Z.div_mod n 60). pose proof (Z.mod_pos_bound n 60). lia.
Qed.

Lemma seconds_of_Z (n : Z) :
  (0 <= n)%Z -> seconds_of (inject_Z n) == inject_Z (n mod 60).
Proof.
  intros H. unfold seconds_of. rewrite (minutes_of_Z n H).
  rewrite Z.mod_eq by lia. unfold Z.sub.
  rewrite inject_Z_plus, inject_Z_opp, inject_Z_mult.
  change (inject_Z 60) with 60. ring.
Qed.

Lemma tenths_of_Z (n : Z) :
  (0 <= n)%Z -> tenths_of (inject_Z n) = (10 * (n mod 60))%Z.
Proof.
  intros H. unfold tenths_of. apply round_half_even_Z.
  pose proof (Z.mod_pos_bound n 60).
  assert (E : Qabs (seconds_of (inject_Z n)) == inject_Z (n mod 60)).
  { rewrite (seconds_of_Z n H). apply Qabs_pos.
    change 0 with (inject_Z 0). rewrite <- Zle_Qle. lia. }
  rewrite E, <- inject_Z_mult. change (10 ^ Z.of_nat 1)%Z with 10%Z.
  now rewrite Z.mul_comm.
Qed.

Lemma representable_comp (q q' : Q) :
  q == q' -> representable q -> representable q'.
Proof.
  intros E [H|(k & e & H1 & H2 & H3 & H4)]; [left; now rewrite <- E|right].
  exists k, e. now rewrite <- E.
Qed.

Lemma digits_fuel_nonempty (fuel : nat) (n : Z) :
  PyStr.digits_fuel fuel n <> [].
Proof.
  destruct fuel; cbn [PyStr.digits_fuel]; [discriminate|].
  destruct (n <? 10)%Z; [discriminate|].
  intros H. apply app_eq_nil in H. destruct H; discriminate.
Qed.

(** The minutes as [format] writes them are read back by [int()]. *)
Lemma int_of_format_d (m : Z) :
  (0 <= m)%Z ->
  all_digits (list_ascii_of_string (PyInt.format_d 2 m))
  /\ PyInt.of_string (PyInt.format_d 2 m) = Ok m.
Proof.
  intros H. unfold PyInt.format_d, PyInt.of_string.
  rewrite list_ascii_of_string_of_list_ascii.
  replace (m <? 0)%Z with false by (symmetry; apply Z.ltb_ge; lia).
  rewrite Z.abs_eq by lia. rewrite zero_pad_false.
  assert (Hd : all_digits (PyInt.zeros (2 - List.length (PyStr.digits_of m))
                           ++ PyStr.digits_of m)).
  { apply Forall_app. split; [apply zeros_all_digits|].
    now apply digits_of_all_digits. }
  split; [exact Hd|].
  rewrite int_of_digits; [|intros E; apply app_eq_nil in E; destruct E as [_ E];
                           exact (digits_fuel_nonempty _ _ E)|exact Hd].
  rewrite digits_val_app, digits_val_zeros, digits_of_val by lia.
  reflexivity.
Qed.

(** The seconds [SS.0] are read by [float()] as the integer [SS]. *)
Lemma float_of_whole_seconds (s : Z) :
  (0 <= s < 60)%Z ->
  exists x,
    of_string (string_of_list_ascii
                 (two_digits s ++ ["."%char; PyStr.digit_char 0]))
    = Ok x
    /\ holds x (inject_Z s).
Proof.
  intros H. unfold of_string. rewrite list_ascii_of_string_of_list_ascii.
  rewrite float_of_fraction;
    [|discriminate|apply two_digits_all_digits; lia|reflexivity].
  eexists. split; [reflexivity|].
  rewrite digits_val_app, two_digits_val by lia.
  change (PyStr.digits_val [PyStr.digit_char 0]) with 0%Z.
  change (10 ^ Z.of_nat (List.length [PyStr.digit_char 0]))%Z with 10%Z.
  unfold of_decimal.
  destruct (Z.eqb_spec (s * 10 + 0) 0) as [E|E].
  - assert (s = 0%Z) by lia. subst s. apply holds_zero.
  - assert (Hs : 0 <= inject_Z s).
    { change 0 with (inject_Z 0). rewrite <- Zle_Qle. lia. }
    assert (Eq : inject_Z (s * 10 + 0) * 10 ^ (-1) == inject_Z s).
    { rewrite Z.add_0_r, inject_Z_mult. change (inject_Z 10) with 10.
      change (10 ^ (-1)) with (1 # 10). field. }
    rewrite (round64_comp _ _ Eq).
    pose proof (holds_round (inject_Z s) Hs) as Hr.
    rewrite Qeq_bool_false in Hr.
    + apply Hr. apply representable_Z. lia.
    + intros E0. apply E. rewrite Z.add_0_r.
      apply (inject_Z_injective s 0) in E0. lia.
Qed.

(** X15. A time of a whole number [n] of seconds from 0 up to, and
    without, [2^53] is written by [_fmt_time] as the minutes [n // 60]
    on two digits or more, a colon, the seconds [n % 60] on two digits
    and [.0]; and [parse_time] reads that text back as a float equal to
    the time. *)
Theorem whole_seconds_round_trip (t : float) (n : Z) :
  (0 <= n < 2 ^ 53)%Z ->
  holds t (inject_Z n) ->
  exists text x,
    _fmt_time t = Ok text
    /\ text = (PyInt.format_d 2 (n / 60) ++ ":"
               ++ string_of_list_ascii
                    (two_digits (n mod 60) ++ [".";"0"]%char))%string
    /\ Parser.parse_time text = Ok x
    /\ feq x t = true.
Proof.
  intros Hn Ht.
  assert (Hn0 : (0 <= n)%Z) by lia.
  pose proof (Z.mod_pos_bound n 60 eq_refl) as Hs.
  pose proof (Z.div_mod n 60) as Hdm.
  assert (Hm : (0 <= n / 60)%Z) by (apply Z.div_pos; lia).
  assert (Hb : inject_Z n < pow2 53).
  { rewrite pow2_Z by lia. rewrite <- Zlt_Qlt. lia. }
  pose proof (fmt_time_exact t _ Ht (representable_Z n Hn) Hb) as Hf.
  rewrite time_text_eq, (minutes_of_Z n Hn0), (tenths_of_Z n Hn0) in Hf.
  rewrite seconds_text_width in Hf by lia.
  replace (10 * (n mod 60) / 10)%Z with (n mod 60)%Z in Hf
    by (rewrite Z.mul_comm, Z.div_mul; lia).
  replace ((10 * (n mod 60)) mod 10)%Z with 0%Z in Hf
    by (rewrite Z.mul_comm, Z.mod_mul; lia).
  change (PyStr.digit_char 0) with "0"%char in Hf.
  destruct (int_of_format_d (n / 60) Hm) as [Dm Em].
  destruct (float_of_whole_seconds (n mod 60)) as (sx & Es & Hsx); [lia|].
  change (PyStr.digit_char 0) with "0"%char in Es.
  destruct (holds_of_int (n / 60 * 60)) as (m60 & E60 & H60);
    [lia|apply representable_Z; lia|].
  assert (Ep : Parser.parse_time
                 (PyInt.format_d 2 (n / 60) ++ ":"
                  ++ string_of_list_ascii
                       (two_digits (n mod 60) ++ [".";"0"]%char))%string
               = Ok (fadd m60 sx)).
  { unfold Parser.parse_time, Parser.parse_time_try, PyStr.split.
    rewrite chars_app. cbn [list_ascii_of_string String.append].
    rewrite list_ascii_of_string_of_list_ascii.
    rewrite split_one_sep.
    - cbn [map]. rewrite string_of_list_ascii_of_string, Em. cbn [bind].
      rewrite Es. cbn [bind]. rewrite E60. reflexivity.
    - now apply digits_no_char.
    - apply Forall_app. split.
      + apply digits_no_char; [reflexivity|].
        apply two_digits_all_digits. lia.
      + repeat constructor. }
  eexists _, (fadd m60 sx). split; [exact Hf|]. split; [reflexivity|].
  split; [exact Ep|].
  assert (Hsum : holds (fadd m60 sx)
                   (inject_Z (n / 60 * 60) + inject_Z (n mod 60))).
  { apply holds_fadd; [exact H60|exact Hsx|].
    apply (representable_comp (inject_Z n)); [|now apply representable_Z].
    rewrite <- inject_Z_plus.
    now replace (n / 60 * 60 + n mod 60)%Z with n by lia. }
  rewrite (holds_feq _ _ _ _ Hsum Ht). apply Qeq_bool_true.
  rewrite <- inject_Z_plus.
  now replace (n / 60 * 60 + n mod 60)%Z with n by lia.
Qed.

Lemma whole_seconds_round_trip_witness :
  exists text x,
    _fmt_time (Ffin 3725) = Ok text
    /\ text = "62:05.0"%string
    /\ Parser.parse_time text = Ok x
    /\ feq x (Ffin 3725) = true.
Proof.
  apply (whole_seconds_round_trip (Ffin 3725) 3725).
  - lia.
  - apply (holds_fin 3725). reflexivity.
Defined.

(** ** The report: the name of the scenario *)

Lemma drop_while_head (p : ascii -> bool) (l : list ascii) :
  match PyStr.drop_while p l with
  | c :: _ => p c = false
  | [] => True
  end.
Proof.
  induction l as [|c l IH]; [exact I|].
  cbn [PyStr.drop_while]. destruct (p c) eqn:E; [exact IH|exact E].
Qed.

Lemma drop_while_fixed (p : ascii -> bool) (l : list ascii) :
  match l with c :: _ => p c = false | [] => True end ->
  PyStr.drop_while p l = l.
Proof. destruct l as [|c l]; [reflexivity|]. cbn. now intros ->. Qed.

Lemma strip_with_idempotent (p : ascii -> bool) (cs : list ascii) :
  PyStr.strip_with p (PyStr.strip_with p cs) = PyStr.strip_with p cs.
Proof.
  unfold PyStr.strip_with.
  remember (PyStr.drop_while p cs) as a eqn:Ea.
  pose proof (drop_while_head p cs) as Ha. rewrite <- Ea in Ha.
  destruct (rev_drop_while_split p a) as (ws & _ & E).
  pose proof (drop_while_head p (rev a)) as Hb.
  remember (PyStr.drop_while p (rev a)) as b eqn:Eb. clear Ea Eb.
  assert (H1 : PyStr.drop_while p (rev b) = rev b).
  { apply drop_while_fixed. destruct (rev b) as [|c r]; [exact I|].
    rewrite E in Ha. exact Ha. }
  rewrite H1, rev_involutive. now rewrite (drop_while_fixed p b Hb).
Qed.

Lemma strip_idempotent (s : string) :
  PyStr.strip (PyStr.strip s) = PyStr.strip s.
Proof.
  unfold PyStr.strip. rewrite list_ascii_of_string_of_list_ascii.
  now rewrite strip_with_idempotent.
Qed.

(** X16. Whatever the scenario and its name, the [scenario] field of a
    report is never empty and has no white space at either end:
    stripping it again changes nothing. *)
Theorem make_report_name_is_trimmed (scenario : option Report.dict)
    (violations : list violation) :
  let name := Report.scenario (Report.make_report scenario violations) in
  name <> EmptyString /\ PyStr.strip name = name.
Proof.
  cbv zeta. unfold Report.make_report. cbn [Report.scenario].
  destruct scenario as [d|]; [|split; [discriminate|reflexivity]].
  destruct (negb (Report.truthy (Report.get d "name"))
            || negb (Report.truthy
                       (Report.PStr
                          (PyStr.strip (Report.str (Report.get d "name"))))))
    eqn:E; [split; [discriminate|reflexivity]|].
  apply orb_false_iff in E. destruct E as [_ E].
  apply negb_false_iff in E. cbn [Report.truthy] in E.
  apply negb_true_iff in E. apply String.eqb_neq in E.
  split; [exact E|apply strip_idempotent].
Qed.

(** ** The time codec: no negative zero *)

Lemma double_grid (v : Q) :
  is_double v -> exists K : Z, v == inject_Z K * pow2 (-1074).
Proof.
  intros (k & e & Hv & _ & He & _).
  exists (k * 2 ^ (e + 1074))%Z. rewrite Hv, inject_Z_mult.
  rewrite <- (pow2_Z (e + 1074)) by lia.
  rewrite <- Qmult_assoc, <- pow2_add.
  replace (e + 1074 + -1074)%Z with e by ring. reflexivity.
Qed.

Lemma grid_plus (a b : Q) :
  (exists K : Z, a == inject_Z K * pow2 (-1074)) ->
  (exists K : Z, b == inject_Z K * pow2 (-1074)) ->
  exists K : Z, a + b == inject_Z K * pow2 (-1074).
Proof.
  intros [K1 E1] [K2 E2]. exists (K1 + K2)%Z.
  rewrite E1, E2, inject_Z_plus. ring.
Qed.

(** A nonzero multiple of [2^-1074] does not round to zero. *)
Lemma rmant_grid (r : Q) (K : Z) :
  r == inject_Z K * pow2 (-1074) -> ~ r == 0 -> rmant r <> 0%Z.
Proof.
  intros E Hr. unfold rmant.
  pose proof (pow2_pos (rexp r)) as Pe.
  destruct (Z.le_gt_cases (ilog2 r - 52) (-1074)) as [Hc|Hc].
  - assert (Ee : rexp r = (-1074)%Z) by (unfold rexp; lia).
    rewrite Ee.
    rewrite (round_half_even_Z _ K).
    + intros ->. apply Hr. rewrite E. change (inject_Z 0) with 0. ring.
    + rewrite E. field. pose proof (pow2_pos (-1074)). lra.
  - assert (Ee : rexp r = (ilog2 r - 52)%Z) by (unfold rexp; lia).
    destruct (ilog2_spec r Hr) as [Hlo _].
    assert (P52 : pow2 (ilog2 r) == pow2 52 * pow2 (rexp r)).
    { rewrite Ee, <- pow2_add. now replace (52 + (ilog2 r - 52))%Z
        with (ilog2 r) by ring. }
    assert (H1 : 1 <= Qabs r / pow2 (rexp r)).
    { apply Qle_shift_div_l; [exact Pe|].
      apply Qle_trans with (pow2 (ilog2 r)); [|exact Hlo].
      rewrite P52. change (pow2 52) with 4503599627370496.
      nra. }
    destruct (Qlt_le_dec r 0) as [Hn|Hp].
    + rewrite Qabs_neg in H1 by lra.
      assert (Hx : r / pow2 (rexp r) <= inject_Z (-1)).
      { change (inject_Z (-1)) with (-(1)).
        assert (Eq : - r / pow2 (rexp r) == - (r / pow2 (rexp r)))
          by (field; lra).
        rewrite Eq in H1. lra. }
      pose proof (round_half_even_mono _ _ Hx) as M.
      rewrite (round_half_even_Z (inject_Z (-1)) (-1)) in M by reflexivity.
      lia.
    + rewrite Qabs_pos in H1 by exact Hp.
      assert (Hx : inject_Z 1 <= r / pow2 (rexp r)) by exact H1.
      pose proof (round_half_even_mono _ _ Hx) as M.
      rewrite (round_half_even_Z (inject_Z 1) 1) in M by reflexivity.
      lia.
Qed.

Lemma round64_grid (r : Q) :
  (exists K : Z, r == inject_Z K * pow2 (-1074)) ->
  round64 r <> Fzero true.
Proof.
  intros [K E]. rewrite round64_eq.
  destruct (Qeq_dec r 0) as [Hz|Hn].
  - rewrite (rmant_zero r Hz). cbn [Z.eqb].
    rewrite (Qnum_neg_comp r 0 Hz). discriminate.
  - pose proof (rmant_grid r K E Hn) as Hm.
    apply Z.eqb_neq in Hm. rewrite Hm.
    destruct (1024 <=? _)%Z; discriminate.
Qed.

Lemma value_grid (x : float) :
  is_float x -> exists K : Z, value x == inject_Z K * pow2 (-1074).
Proof.
  destruct x as [| | |v]; cbn [is_float value];
    try (intros _; exists 0%Z; change (inject_Z 0) with 0; ring).
  apply double_grid.
Qed.

(** [-0.0] is a sum of two floats only as [-0.0 + -0.0]. *)
Lemma fadd_negative_zero (x y : float) :
  is_float x -> is_float y -> fadd x y = Fzero true ->
  x = Fzero true /\ y = Fzero true.
Proof.
  intros Hx Hy.
  pose proof (round64_grid _ (grid_plus _ _ (value_grid x Hx) (value_grid y Hy)))
    as Hg.
  destruct x as [|a|a|v], y as [|b|b|w]; cbn [fadd value] in *;
    try discriminate;
    try (destruct (Bool.eqb a b); discriminate);
    try (destruct (Qeq_bool _ 0); [discriminate|intros H; contradiction]).
  destruct a, b; cbn [andb]; try discriminate. auto.
Qed.

Lemma of_int_is_float (n : Z) (x : float) :
  of_int n = Ok x -> is_float x /\ x <> Fzero true.
Proof.
  unfold of_int. intros H.
  assert (Hg : round64 (inject_Z n) <> Fzero true).
  { apply round64_grid. exists (n * 2 ^ 1074)%Z.
    rewrite inject_Z_mult, <- (pow2_Z 1074) by lia.
    rewrite <- Qmult_assoc, <- pow2_add. change (pow2 (1074 + -1074)) with 1.
    ring. }
  destruct (round64 (inject_Z n)) as [| | |v] eqn:E; try discriminate;
    inversion H; subst x; clear H; (split; [|exact Hg]); try exact I.
  cbn [is_float]. exact (round64_is_double _ _ E).
Qed.

Lemma of_string_is_float (s : string) (x : float) :
  of_string s = Ok x -> is_float x.
Proof.
  unfold of_string, of_chars.
  destruct (PyStr.scan_sign _) as [neg body].
  destruct (word_is "inf" body || word_is "infinity" body);
    [intros H; inversion H; exact I|].
  destruct (word_is "nan" body); [intros H; inversion H; exact I|].
  destruct (PyStr.scan_digitpart body) as [ip r1].
  destruct (match r1 with
            | [] => ([], [])
            | c :: r => if Ascii.eqb c "." then PyStr.scan_digitpart r
                        else ([], r1)
            end) as [fp r2].
  destruct (ip ++ fp)%list; [discriminate|].
  destruct (scan_exponent r2) as [[e [|? ?]]|]; try discriminate.
  unfold of_decimal.
  destruct (_ =? 0)%Z; [intros H; inversion H; exact I|].
  destruct (round64 _) as [| | |v] eqn:E; intros H; inversion H; subst;
    try exact I.
  cbn [is_float]. exact (round64_is_double _ _ E).
Qed.

Lemma parse_time_not_negative_zero (ts : string) :
  Parser.parse_time ts <> Ok (Fzero true).
Proof.
  unfold Parser.parse_time, Parser.parse_time_try.
  destruct (PyStr.split ":" ts) as [|a [|b [|c l]]]; try discriminate.
  destruct (PyInt.of_string a) as [m|]; [|discriminate]. cbn [bind].
  destruct (of_string b) as [s|] eqn:Es; [|discriminate]. cbn [bind].
  destruct (of_int (m * 60)) as [m60|] eqn:Em; [|discriminate]. cbn [bind].
  intros H. inversion H as [Hf].
  destruct (of_int_is_float _ _ Em) as [F1 N1].
  apply fadd_negative_zero in Hf; [|exact F1|exact (of_string_is_float _ _ Es)].
  destruct Hf as [Hf _]. contradiction.
Qed.

(** X17. [parse_time] never returns [-0.0], whatever the text, signs
    included; so no event that [read_log] yields has the time stamp
    [-0.0], the one that [_fmt_time] writes as [00:-0.0]. *)
Theorem read_log_never_yields_negative_zero :
  (forall ts, Parser.parse_time ts <> Ok (Fzero true))
  /\ (forall lines events e,
        read_log lines = (events, e) ->
        Forall (fun ev => timestamp ev <> Fzero true) events)
  /\ _fmt_time (Fzero true) = Ok "00:-0.0"%string.
Proof.
  split; [exact parse_time_not_negative_zero|]. split; [|reflexivity].
  induction lines as [|raw rest IH]; intros events e H.
  - cbn [read_log] in H. inversion H. constructor.
  - rewrite read_log_cons in H.
    destruct (read_line raw) as [|ev|x] eqn:El.
    + exact (IH _ _ H).
    + inversion H; subst events e; clear H. constructor.
      * apply read_line_yield in El. destruct El as (_ & ts & Ht & _).
        intros E. rewrite E in Ht.
        exact (parse_time_not_negative_zero ts Ht).
      * exact (IH _ _ (surjective_pairing _)).
    + inversion H. constructor.
Qed.

Lemma read_log_never_yields_negative_zero_witness :
  Forall (fun ev => timestamp ev <> Fzero true)
    [(Fzero false, "SPEED"%string, "70.0"%string)].
Proof.
  assert (H : read_log ["-0:-0.0 SPEED 70.0"%string]
              = ([(Fzero false, "SPEED"%string, "70.0"%string)], None))
    by (vm_compute; reflexivity).
  exact (proj1 (proj2 read_log_never_yields_negative_zero) _ _ _ H).
Defined.

(** ** The detector: a log that grows *)

Lemma strongly_sorted_prefix {A : Type} (R : A -> A -> Prop)
    (l1 l2 : list A) :
  StronglySorted R (l1 ++ l2) -> StronglySorted R l1.
Proof.
  induction l1 as [|a l1 IH]; [constructor|].
  cbn [app]. intros H. inversion H as [|? ? Hs Hf]; subst.
  constructor; [now apply IH|]. apply Forall_app in Hf. tauto.
Qed.

(** Over time stamps in the exact range that never decrease, the sort
    leaves the emitted list as it is. *)
Lemma detect_in_order (rules : road_rules) (events : list Event) :
  Forall timestamp_in_range (map timestamp events) ->
  StronglySorted time_le (map timestamp events) ->
  detect_violations rules events
  = (r <- scan rules initial_state events ;; Ok (snd r)).
Proof.
  intros Hr Hs. unfold detect_violations.
  destruct (scan rules initial_state events) as [[st out]|e] eqn:E;
    [|reflexivity].
  cbn [bind snd].
  destruct (scan_keys_in_order rules events _ _ _ Hr Hs E)
    as (ks & Hk & Hord & _).
  unfold sort_by_time. rewrite Hk. cbn [bind].
  rewrite (stable_sort_fixed ks Hord).
  destruct (keyed_spec out ks Hk) as [-> _]. reflexivity.
Qed.

(** X18. Over a log whose time stamps never decrease and lie from
    [+0.0] up to, and without, [2^53] seconds, reading more events only
    adds violations at the end: when the run on a log returns, the run on
    every prefix of the log returns a prefix of its result. *)
Theorem longer_log_appends_violations (rules : road_rules)
    (events more : list Event) (vs : list violation) :
  Forall timestamp_in_range (map timestamp (events ++ more)) ->
  Sorted time_le (map timestamp (events ++ more)) ->
  detect_violations rules (events ++ more) = Ok vs ->
  exists before after,
    detect_violations rules events = Ok before
    /\ vs = (before ++ after)%list.
Proof.
  intros Hr Hs H.
  apply Sorted_StronglySorted in Hs; [|exact time_le_trans].
  rewrite (detect_in_order rules _ Hr Hs) in H.
  rewrite map_app in Hr, Hs. apply Forall_app in Hr. destruct Hr as [Hr _].
  apply strongly_sorted_prefix in Hs.
  rewrite (detect_in_order rules _ Hr Hs).
  rewrite scan_app_eq in H.
  destruct (scan rules initial_state events) as [[st1 o1]|]; [|discriminate].
  cbn [bind fst snd] in *.
  destruct (scan rules st1 more) as [[st2 o2]|]; [|discriminate].
  cbn [bind fst snd] in H. inversion H.
  now exists o1, o2.
Qed.

Lemma longer_log_appends_violations_witness :
  exists before after,
    detect_violations Samples.rules60 (firstn 2 Samples.ordered_events)
    = Ok before
    /\ Samples.ordered_violations = (before ++ after)%list.
Proof.
  apply (longer_log_appends_violations Samples.rules60
           (firstn 2 Samples.ordered_events)
           (skipn 2 Samples.ordered_events)).
  - repeat apply Forall_cons; try apply Forall_nil.
    + reflexivity.
    + apply (timestamp_in_range_Z 1); lia.
    + apply (timestamp_in_range_Z 2); lia.
    + apply (timestamp_in_range_Z 2); lia.
    + apply (timestamp_in_range_Z 3); lia.
  - repeat constructor.
  - vm_compute. reflexivity.
Defined.

(** ** The mutant that reports every lane change *)

Lemma mutant_process_other (rules : road_rules) (st : detector_state)
    (ev : Event) :
  is_lane_change ev = false ->
  Mutant.process rules st ev = process rules st ev.
Proof.
  destruct ev as [[t kind] arg]. cbn [is_lane_change]. intros H.
  unfold Mutant.process, process. rewrite H. reflexivity.
Qed.

Lemma mutant_scan_other (rules : road_rules) (events : list Event)
    (st : detector_state) :
  existsb is_lane_change events = false ->
  Mutant.scan rules st events = scan rules st events.
Proof.
  revert st. induction events as [|ev rest IH]; intros st H; [reflexivity|].
  cbn [existsb] in H. apply orb_false_iff in H. destruct H as [H1 H2].
  cbn [Mutant.scan scan]. rewrite (mutant_process_other _ _ _ H1).
  destruct (process rules st ev) as [[s o]|]; [|reflexivity].
  cbn [bind fst snd]. now rewrite (IH _ H2).
Qed.

(** X19. The mutant and [detect_violations] differ on lane changes
    only.  On one LANE_CHANGE event with a time stamp that can be
    formatted they do the same exactly when the last follow distance is
    known and below the threshold; on every other event they do the same,
    and so do the two runs over a log without lane change. *)
Theorem mutant_differs_on_lane_changes (rules : road_rules) :
  (forall st ev, is_lane_change ev = false ->
                 Mutant.process rules st ev = process rules st ev)
  /\ (forall events, existsb is_lane_change events = false ->
        Mutant.detect_violations rules events
        = detect_violations rules events)
  /\ (forall st t direction,
        formattable t = true ->
        (Mutant.process rules st (t, "LANE_CHANGE"%string, direction)
         = process rules st (t, "LANE_CHANGE"%string, direction)
         <-> exists d, last_follow st = Some d
                       /\ flt d (min_follow_distance rules) = true)).
Proof.
  split; [intros st ev; apply mutant_process_other|]. split.
  - intros events H. unfold Mutant.detect_violations, detect_violations.
    now rewrite (mutant_scan_other _ _ _ H).
  - intros st t direction Ht.
    rewrite process_lane_change. unfold Mutant.process.
    cbn [String.eqb Ascii.eqb Bool.eqb].
    destruct (emit_formattable "UNSAFE_LANE_CHANGE" t
                (Mutant.lane_change_details rules (last_follow st)) Ht)
      as (tm & Htm & ->).
    cbn [bind]. destruct (last_follow st) as [d|].
    + destruct (flt d (min_follow_distance rules)) eqn:E.
      * split; [intros _; now exists d|]. intros _.
        unfold emit. rewrite Htm. reflexivity.
      * split; [discriminate|]. intros (d' & Hd & Hf).
        inversion Hd; subst. congruence.
    + split; [discriminate|]. intros (d' & Hd & _). discriminate.
Qed.

Lemma mutant_differs_on_lane_changes_witness :
  Mutant.detect_violations Samples.rules60
    [(Ffin 1, "SPEED"%string, "70.0"%string)]
  = detect_violations Samples.rules60
      [(Ffin 1, "SPEED"%string, "70.0"%string)].
Proof.
  apply (proj1 (proj2 (mutant_differs_on_lane_changes Samples.rules60))).
  reflexivity.
Defined.

Lemma sort_by_time_perm (l vs : list violation) :
  sort_by_time l = Ok vs -> Permutation l vs.
Proof.
  unfold sort_by_time. destruct (keyed l) as [kvs|] eqn:Ek; [|discriminate].
  cbn [bind]. intros H; inversion H; subst vs; clear H.
  destruct (keyed_spec l kvs Ek) as [Hm _].
  rewrite <- Hm at 1. apply Permutation_map. apply stable_sort_perm.
Qed.

Lemma guarded_emit_count (b : bool) (ty : string) (t : float)
    (text : string) (l : list violation) (k : string) :
  (if b then emit ty t text else Ok []) = Ok l ->
  (ty =? k)%string = false -> count_type k l = 0%nat.
Proof.
  intros H Hk. apply guarded_emit_inv in H. apply appended_cases in H.
  destruct H as [->|(tm & _ & ->)]; [reflexivity|].
  unfold count_type. cbn [filter type]. now rewrite Hk.
Qed.

Lemma mutant_process_count (rules : road_rules) (st st' : detector_state)
    (ev : Event) (out : list violation) :
  Mutant.process rules st ev = Ok (st', out) ->
  count_type "UNSAFE_LANE_CHANGE" out
  = if is_lane_change ev then 1%nat else 0%nat.
Proof.
  destruct ev as [[t kind] arg]. unfold Mutant.process.
  cbn [is_lane_change].
  destruct (kind =? "SPEED")%string eqn:K1.
  { apply String.eqb_eq in K1. subst kind. cbn [String.eqb Ascii.eqb Bool.eqb].
    destruct (of_string arg) as [v|]; [|discriminate]. cbn [bind].
    destruct (if flt (max_speed rules) v then _ else _) as [sp|] eqn:E1;
      [|discriminate].
    apply (guarded_emit_count _ _ _ _ _ "UNSAFE_LANE_CHANGE") in E1;
      [|reflexivity].
    cbn [bind].
    destruct (stop_detect_time st) as [t0|];
      [destruct (flt one v && flt t0 t)|];
      try (intros H; inversion H; subst; exact E1).
    destruct (if flt (fsub t t0) (stop_sign_wait rules) then _ else _)
      as [rs|] eqn:E2; [|discriminate].
    apply (guarded_emit_count _ _ _ _ _ "UNSAFE_LANE_CHANGE") in E2;
      [|reflexivity].
    cbn [bind]. intros H; inversion H; subst.
    now rewrite count_type_app, E1, E2. }
  destruct (kind =? "FOLLOW_DISTANCE")%string eqn:K2.
  { apply String.eqb_eq in K2. subst kind. cbn [String.eqb Ascii.eqb Bool.eqb].
    destruct (of_string arg) as [d|]; [|discriminate]. cbn [bind].
    destruct (if flt d (min_follow_distance rules) then _ else _)
      as [l|] eqn:E1; [|discriminate].
    apply (guarded_emit_count _ _ _ _ _ "UNSAFE_LANE_CHANGE") in E1;
      [|reflexivity].
    cbn [bind]. intros H; inversion H; subst. exact E1. }
  destruct (kind =? "LANE_CHANGE")%string eqn:K3.
  { destruct (emit _ _ _) as [l|] eqn:E1; [|discriminate].
    apply emit_inv in E1. destruct E1 as (tm & _ & ->).
    cbn [bind]. intros H; inversion H; subst. reflexivity. }
  destruct (kind =? "STOP_SIGN_DETECTED")%string; [|discriminate].
  intros H; inversion H; subst. reflexivity.
Qed.

Lemma mutant_scan_count (rules : road_rules) (events : list Event)
    (st st' : detector_state) (out : list violation) :
  Mutant.scan rules st events = Ok (st', out) ->
  count_type "UNSAFE_LANE_CHANGE" out
  = List.length (filter is_lane_change events).
Proof.
  revert st out. induction events as [|ev rest IH]; intros st out H.
  - cbn [Mutant.scan] in H. inversion H. reflexivity.
  - cbn [Mutant.scan] in H.
    destruct (Mutant.process rules st ev) as [[s1 o1]|] eqn:Ep;
      [|discriminate].
    cbn [bind fst snd] in H.
    destruct (Mutant.scan rules s1 rest) as [[s2 o2]|] eqn:Es;
      [|discriminate].
    cbn [bind fst snd] in H. inversion H; subst.
    rewrite count_type_app, (mutant_process_count _ _ _ _ _ Ep), (IH _ _ Es).
    cbn [filter]. destruct (is_lane_change ev); reflexivity.
Qed.

(** X20. When the mutant returns, its list holds exactly one
    UNSAFE_LANE_CHANGE violation for each LANE_CHANGE event of the log,
    whatever the follow distances. *)
Theorem mutant_reports_every_lane_change (rules : road_rules)
    (events : list Event) (vs : list violation) :
  Mutant.detect_violations rules events = Ok vs ->
  count_type "UNSAFE_LANE_CHANGE" vs
  = List.length (filter is_lane_change events).
Proof.
  unfold Mutant.detect_violations.
  destruct (Mutant.scan rules initial_state events) as [[st out]|] eqn:Es;
    [|discriminate].
  cbn [bind snd]. intros H. apply sort_by_time_perm in H.
  rewrite <- (mutant_scan_count _ _ _ _ _ Es).
  unfold count_type. symmetry. now apply Permutation_filter_length.
Qed.

Lemma mutant_reports_every_lane_change_witness :
  count_type "UNSAFE_LANE_CHANGE"
    [{| type := "UNSAFE_LANE_CHANGE"; time := "00:01.0";
        details := "follow 0.0 m < 10.0 m" |}]
  = List.length
      (filter is_lane_change [(Ffin 1, "LANE_CHANGE"%string, "LEFT"%string)]).
Proof.
  apply (mutant_reports_every_lane_change Samples.rules60).
  vm_compute. reflexivity.
Defined.

(** * The detector on every event

    What the loop body does on every time stamp, the ones that
    [_fmt_time] cannot write included: the time of a violation is
    formatted when the violation is appended, and an exception of
    [_fmt_time] ends the run. *)

(** ** Formatting the time of a violation *)

Lemma formattable_ok (t : float) :
  formattable t = true <-> exists tm, _fmt_time t = Ok tm.
Proof.
  unfold formattable. destruct (_fmt_time t) as [tm|e]; cbn [is_ok]; split.
  - intros _. now exists tm.
  - reflexivity.
  - discriminate.
  - intros [tm H]. discriminate.
Qed.

Lemma emit_ok (ty : string) (t : float) (text tm : string) :
  _fmt_time t = Ok tm ->
  emit ty t text = Ok [{| type := ty; time := tm; details := text |}].
Proof. intros H. unfold emit. now rewrite H. Qed.

Lemma emit_raise (ty : string) (t : float) (text : string) (e : exn) :
  _fmt_time t = Raise e -> emit ty t text = Raise e.
Proof. intros H. unfold emit. now rewrite H. Qed.

Lemma count_type_appended (b : bool) (ty ty' : string) (t : float)
    (text : string) (l : list violation) :
  appended b ty t text l ->
  count_type ty' l = (if b && (ty =? ty')%string then 1 else 0)%nat.
Proof.
  unfold appended, count_type. destruct b; cbn [andb].
  - intros (tm & _ & ->). cbn [filter type].
    destruct (ty =? ty')%string; reflexivity.
  - intros ->. reflexivity.
Qed.

(** What a SPEED event of numeric value [v] has done when the loop body
    returns. *)
Lemma process_speed_inv (rules : road_rules) (st st' : detector_state)
    (t : float) (arg : string) (v : float) (out : list violation) :
  of_string arg = Ok v ->
  process rules st (t, "SPEED"%string, arg) = Ok (st', out) ->
  exists sp rs,
    out = (sp ++ rs)%list
    /\ appended (flt (max_speed rules) v) "SPEEDING" t
         (speeding_details rules v) sp
    /\ ((exists t0,
           stop_detect_time st = Some t0
           /\ flt one v && flt t0 t = true
           /\ appended (flt (fsub t t0) (stop_sign_wait rules))
                "ROLLING_STOP" t
                (rolling_stop_details rules (fsub t t0)) rs
           /\ st' = {| last_follow := last_follow st;
                       stop_detect_time := None |})
        \/ (rs = [] /\ st' = st
            /\ match stop_detect_time st with
               | Some t0 => flt one v && flt t0 t = false
               | None => True
               end)).
Proof.
  intros Hv Hp. apply process_cases in Hp.
  destruct Hp as [(_ & v' & sp & rs & Hv' & Hout & Hsp & Hrs)
                 |[(K & _)|[(K & _)|(K & _)]]]; try discriminate.
  rewrite Hv in Hv'. inversion Hv'; subst v'.
  now exists sp, rs.
Qed.

(** An event that is no stop sign and does not resolve the pending wait
    leaves the wait as it is and appends no ROLLING_STOP, when the loop
    body returns. *)
Lemma process_wait_kept (rules : road_rules) (st st' : detector_state)
    (ev : Event) (out : list violation) :
  process rules st ev = Ok (st', out) ->
  is_stop_sign ev = false ->
  match stop_detect_time st with
  | Some t0 => resolves t0 ev = false
  | None => True
  end ->
  stop_detect_time st' = stop_detect_time st
  /\ count_type "ROLLING_STOP" out = 0%nat.
Proof.
  destruct ev as [[t kind] arg]. intros Hp Hstop Hres.
  apply process_cases in Hp.
  destruct Hp as [(-> & v & sp & rs & Hv & -> & Hsp & Hrs)
                 |[(-> & d & Hd & Ha & ->)
                  |[(-> & -> & Ha)|(-> & _)]]].
  - apply (count_type_appended _ _ "ROLLING_STOP") in Hsp.
    rewrite andb_false_r in Hsp.
    destruct Hrs as [(t0 & Et & Hg & _)|(-> & -> & _)].
    + rewrite Et in Hres. unfold resolves in Hres. rewrite Hv in Hres.
      cbn [String.eqb Ascii.eqb Bool.eqb andb] in Hres. congruence.
    + split; [reflexivity|]. now rewrite app_nil_r.
  - split; [reflexivity|].
    apply (count_type_appended _ _ "ROLLING_STOP") in Ha.
    now rewrite andb_false_r in Ha.
  - split; [reflexivity|]. destruct (last_follow st) as [d|].
    + apply (count_type_appended _ _ "ROLLING_STOP") in Ha.
      now rewrite andb_false_r in Ha.
    + now subst out.
  - discriminate.
Qed.

Lemma scan_wait_kept (rules : road_rules) (events : list Event)
    (st st' : detector_state) (out : list violation) :
  scan rules st events = Ok (st', out) ->
  existsb is_stop_sign events = false ->
  match stop_detect_time st with
  | Some t0 => existsb (resolves t0) events = false
  | None => True
  end ->
  stop_detect_time st' = stop_detect_time st
  /\ count_type "ROLLING_STOP" out = 0%nat.
Proof.
  revert st out. induction events as [|ev rest IH]; intros st out Hs Hstop Hres.
  - inversion Hs; subst. now split.
  - apply scan_cons in Hs. destruct Hs as (st1 & o1 & o2 & Hp & Hs & ->).
    cbn [existsb] in Hstop. apply orb_false_iff in Hstop.
    destruct Hstop as [Hs1 Hstop].
    assert (Hr1 : match stop_detect_time st with
                  | Some t0 => resolves t0 ev = false
                  | None => True end).
    { destruct (stop_detect_time st); [|exact I].
      cbn [existsb] in Hres. now apply orb_false_iff in Hres. }
    destruct (process_wait_kept rules st st1 ev o1 Hp Hs1 Hr1) as [Hw Hc].
    assert (Hr2 : match stop_detect_time st1 with
                  | Some t0 => existsb (resolves t0) rest = false
                  | None => True end).
    { rewrite Hw. destruct (stop_detect_time st); [|exact I].
      cbn [existsb] in Hres. now apply orb_false_iff in Hres. }
    destruct (IH st1 o2 Hs Hstop Hr2) as [Hw2 Hc2].
    split; [congruence|]. rewrite count_type_app, Hc, Hc2. reflexivity.
Qed.

(** ** The four rules *)

(** C2, amended.  For a SPEED event of numeric value [v], whatever the
    state of the detector: whenever the loop body returns, it has appended
    one SPEEDING violation, stamped with the formatted time of the event,
    when [v > max_speed], and none otherwise, [v = max_speed] included.
    When [v > max_speed] and the time of the event cannot be formatted
    the loop body raises the exception of [_fmt_time] and appends
    nothing: a SPEEDING violation is appended exactly when
    [v > max_speed] and the time can be formatted.  It returns on every
    time that can be formatted, and on every time when there is nothing
    to append. *)
Theorem speeding_iff_above_max_speed (rules : road_rules)
    (st : detector_state) (t : float) (arg : string) (v : float) :
  of_string arg = Ok v ->
  let above := flt (max_speed rules) v in
  let event := (t, "SPEED"%string, arg) in
  (forall st' out,
     process rules st event = Ok (st', out) ->
     (count_type "SPEEDING" out = 1%nat <-> above = true)
     /\ (count_type "SPEEDING" out = 0%nat <-> above = false)
     /\ (above = true ->
         exists tm, _fmt_time t = Ok tm
           /\ In {| type := "SPEEDING"; time := tm;
                    details := speeding_details rules v |} out)
     /\ (feq v (max_speed rules) = true
         -> count_type "SPEEDING" out = 0%nat))
  /\ ((exists st' out,
         process rules st event = Ok (st', out)
         /\ count_type "SPEEDING" out = 1%nat)
      <-> above = true /\ formattable t = true)
  /\ (above = true -> forall e,
        _fmt_time t = Raise e -> process rules st event = Raise e)
  /\ (formattable t = true ->
      exists st' out, process rules st event = Ok (st', out))
  /\ (above = false -> stop_detect_time st = None ->
      process rules st event = Ok (st, [])).
Proof.
  intros Hv above event.
  assert (Hc : forall st' out,
    process rules st event = Ok (st', out) ->
    count_type "SPEEDING" out = (if above then 1 else 0)%nat
    /\ (above = true ->
        exists tm, _fmt_time t = Ok tm
          /\ In {| type := "SPEEDING"; time := tm;
                   details := speeding_details rules v |} out)).
  { intros st' out Hp.
    destruct (process_speed_inv rules st st' t arg v out Hv Hp)
      as (sp & rs & -> & Hsp & Hrs).
    assert (Hr : count_type "SPEEDING" rs = 0%nat).
    { destruct Hrs as [(t0 & _ & _ & Ha & _)|(-> & _)]; [|reflexivity].
      apply (count_type_appended _ _ "SPEEDING") in Ha.
      now rewrite andb_false_r in Ha. }
    split.
    - rewrite count_type_app, Hr.
      rewrite (count_type_appended _ _ "SPEEDING" _ _ _ Hsp).
      fold above. destruct above; reflexivity.
    - intros Ha. unfold appended in Hsp. fold above in Hsp.
      rewrite Ha in Hsp. destruct Hsp as (tm & Htm & ->).
      exists tm. split; [exact Htm|]. now left. }
  assert (Hok : formattable t = true ->
                exists st' out, process rules st event = Ok (st', out)).
  { intros Ht.
    destruct (process_speed_ok rules st t arg v Hv Ht) as (tm & _ & Hp).
    cbv zeta in Hp. unfold event. rewrite Hp.
    destruct (stop_detect_time st) as [t0|];
      [destruct (flt one v && flt t0 t)|]; eexists _, _; reflexivity. }
  assert (Hraise : above = true -> forall e,
            _fmt_time t = Raise e -> process rules st event = Raise e).
  { intros Ha e He. unfold event. rewrite process_speed, Hv. cbn [bind].
    fold above. rewrite Ha, (emit_raise _ _ _ _ He). reflexivity. }
  split; [|split; [|split; [exact Hraise|split; [exact Hok|]]]].
  - intros st' out Hp. destruct (Hc st' out Hp) as [Hn Hin]. rewrite Hn.
    split; [destruct above; split; congruence|].
    split; [destruct above; split; congruence|].
    split; [exact Hin|].
    intros H. apply flt_irrefl_feq in H. fold above in H. now rewrite H.
  - split.
    + intros (st' & out & Hp & Hn). destruct (Hc st' out Hp) as [Hn' _].
      assert (Ha : above = true)
        by (destruct above; [reflexivity|congruence]).
      split; [exact Ha|].
      destruct (_fmt_time t) as [tm|e] eqn:E.
      * apply formattable_ok. now exists tm.
      * rewrite (Hraise Ha e eq_refl) in Hp. discriminate.
    + intros [Ha Ht]. destruct (Hok Ht) as (st' & out & Hp).
      exists st', out. split; [exact Hp|].
      destruct (Hc st' out Hp) as [Hn _]. now rewrite Hn, Ha.
  - intros Ha Hs. unfold event. rewrite process_speed, Hv. cbn [bind].
    fold above. rewrite Ha, Hs. reflexivity.
Qed.

Lemma speeding_iff_above_max_speed_witness :
  of_string "65.0" = Ok (Ffin 65)
  /\ exists st' out,
       process Samples.rules60 initial_state
         (Ffin 5, "SPEED"%string, "65.0"%string) = Ok (st', out)
       /\ count_type "SPEEDING" out = 1%nat.
Proof.
  split; [reflexivity|].
  destruct (speeding_iff_above_max_speed Samples.rules60 initial_state
              (Ffin 5) "65.0" (Ffin 65) eq_refl) as (_ & [_ H] & _).
  apply H. split; reflexivity.
Defined.

(** A SPEED event above the limit whose time cannot be formatted: the
    text ["0:inf"] is a time for [parse_time], the speed 70 is above the
    limit of 60, and the loop body raises what [int()] raises on a NaN;
    no violation is appended and the run returns nothing. *)
Lemma speeding_lost_at_infinite_time :
  Parser.parse_time "0:inf" = Ok Cases.at_infinity
  /\ of_string "70.0" = Ok (Ffin 70)
  /\ flt (max_speed Samples.rules60) (Ffin 70) = true
  /\ process Samples.rules60 initial_state
       (Cases.at_infinity, "SPEED"%string, "70.0"%string) = Raise NanToInt
  /\ detect_violations Samples.rules60
       [(Cases.at_infinity, "SPEED"%string, "70.0"%string)] = Raise NanToInt.
Proof. vm_compute. repeat split. Qed.

(** C3, amended.  For a FOLLOW_DISTANCE event of numeric value [d],
    whenever the loop body returns it leaves [d] as the last follow
    distance, whatever was recorded before and whether or not a violation
    is appended, and it has appended one TAILGATING violation when
    [d < min_follow_distance] and nothing otherwise, equality included.
    When [d] is not below the threshold the loop body returns on every
    time; when it is, the loop body returns when the time of the event
    can be formatted, and raises the exception of [_fmt_time] otherwise,
    so that neither the distance nor a violation is left. *)
Theorem tailgating_iff_below_min_follow (rules : road_rules)
    (st : detector_state) (t : float) (arg : string) (d : float) :
  of_string arg = Ok d ->
  let below := flt d (min_follow_distance rules) in
  let event := (t, "FOLLOW_DISTANCE"%string, arg) in
  let recorded := {| last_follow := Some d;
                     stop_detect_time := stop_detect_time st |} in
  (forall st' out,
     process rules st event = Ok (st', out) ->
     st' = recorded
     /\ (count_type "TAILGATING" out = 1%nat <-> below = true)
     /\ (out = [] <-> below = false)
     /\ (below = true ->
         exists tm, _fmt_time t = Ok tm
           /\ out = [{| type := "TAILGATING"; time := tm;
                        details := tailgating_details rules d |}]))
  /\ ((exists out,
         process rules st event = Ok (recorded, out)
         /\ count_type "TAILGATING" out = 1%nat)
      <-> below = true /\ formattable t = true)
  /\ (below = false -> process rules st event = Ok (recorded, []))
  /\ (feq (min_follow_distance rules) d = true ->
      process rules st event = Ok (recorded, []))
  /\ (below = true -> forall tm,
        _fmt_time t = Ok tm ->
        process rules st event
        = Ok (recorded, [{| type := "TAILGATING"; time := tm;
                            details := tailgating_details rules d |}]))
  /\ (below = true -> forall e,
        _fmt_time t = Raise e -> process rules st event = Raise e).
Proof.
  intros Hd below event recorded.
  assert (Heq : process rules st event =
                (v <- (if below
                       then emit "TAILGATING" t (tailgating_details rules d)
                       else Ok []) ;;
                 Ok (recorded, v))).
  { unfold event. rewrite process_follow_distance, Hd. reflexivity. }
  assert (Hfalse : below = false -> process rules st event = Ok (recorded, [])).
  { intros Hb. rewrite Heq, Hb. reflexivity. }
  assert (Htrue : below = true -> forall tm,
            _fmt_time t = Ok tm ->
            process rules st event
            = Ok (recorded, [{| type := "TAILGATING"; time := tm;
                                details := tailgating_details rules d |}])).
  { intros Hb tm Htm. rewrite Heq, Hb, (emit_ok _ _ _ _ Htm). reflexivity. }
  assert (Hraise : below = true -> forall e,
            _fmt_time t = Raise e -> process rules st event = Raise e).
  { intros Hb e He. rewrite Heq, Hb, (emit_raise _ _ _ _ He). reflexivity. }
  split; [|split; [|split; [exact Hfalse|split; [|split; assumption]]]].
  - intros st' out Hp. destruct below eqn:Hb.
    + destruct (_fmt_time t) as [tm|e] eqn:E.
      * rewrite (Htrue eq_refl tm eq_refl) in Hp.
        inversion Hp; subst st' out; clear Hp.
        split; [reflexivity|]. split; [split; reflexivity|].
        split; [split; discriminate|]. intros _. now exists tm.
      * rewrite (Hraise eq_refl e eq_refl) in Hp. discriminate.
    + rewrite (Hfalse eq_refl) in Hp. inversion Hp; subst st' out; clear Hp.
      split; [reflexivity|]. split; [split; discriminate|].
      split; [split; reflexivity|]. discriminate.
  - split.
    + intros (out & Hp & Hn). destruct below eqn:Hb.
      * split; [reflexivity|]. destruct (_fmt_time t) as [tm|e] eqn:E.
        -- apply formattable_ok. now exists tm.
        -- rewrite (Hraise eq_refl e eq_refl) in Hp. discriminate.
      * rewrite (Hfalse eq_refl) in Hp. inversion Hp; subst out.
        discriminate.
    + intros [Hb Ht]. apply formattable_ok in Ht. destruct Ht as [tm Htm].
      eexists. split; [exact (Htrue Hb tm Htm)|reflexivity].
  - intros H. apply Hfalse. unfold below. now apply flt_irrefl_feq.
Qed.

Lemma tailgating_iff_below_min_follow_witness :
  of_string "5.0" = Ok (Ffin 5)
  /\ exists out,
       process Samples.rules60 Samples.tailgating
         (Ffin 10, "FOLLOW_DISTANCE"%string, "5.0"%string)
         = Ok ({| last_follow := Some (Ffin 5); stop_detect_time := None |}, out)
       /\ count_type "TAILGATING" out = 1%nat.
Proof.
  split; [reflexivity|].
  destruct (tailgating_iff_below_min_follow Samples.rules60 Samples.tailgating
              (Ffin 10) "5.0" (Ffin 5) eq_refl) as (_ & [_ H] & _).
  apply H. split; reflexivity.
Defined.

(** A FOLLOW_DISTANCE event below the threshold whose time cannot be
    formatted: 5 is below the threshold of 10, and the loop body raises
    what [int()] raises on a NaN; no violation is appended. *)
Lemma tailgating_lost_at_infinite_time :
  Parser.parse_time "0:inf" = Ok Cases.at_infinity
  /\ of_string "5.0" = Ok (Ffin 5)
  /\ flt (Ffin 5) (min_follow_distance Samples.rules60) = true
  /\ process Samples.rules60 initial_state
       (Cases.at_infinity, "FOLLOW_DISTANCE"%string, "5.0"%string)
     = Raise NanToInt
  /\ detect_violations Samples.rules60
       [(Cases.at_infinity, "FOLLOW_DISTANCE"%string, "5.0"%string)]
     = Raise NanToInt.
Proof. vm_compute. repeat split. Qed.

(** C4, amended.  After any prefix of events that the loop has
    processed, call a LANE_CHANGE event unsafe when the prefix holds a
    FOLLOW_DISTANCE event and the distance of the last one is below
    [min_follow_distance].  Whenever the loop body returns on the event,
    it has appended one UNSAFE_LANE_CHANGE violation when the event is
    unsafe and nothing otherwise, and the state is unchanged.  An event
    that is not unsafe -- with no FOLLOW_DISTANCE event in the prefix in
    particular -- appends nothing on every time.  An unsafe event appends
    its violation when its time can be formatted and raises the exception
    of [_fmt_time] otherwise.  The direction plays no part, in the result
    and in the exception. *)
Theorem unsafe_lane_change_iff_last_follow_below (rules : road_rules)
    (pre : list Event) (st : detector_state) (emitted : list violation)
    (t : float) (direction : string) :
  scan rules initial_state pre = Ok (st, emitted) ->
  let unsafe := exists d, latest_follow pre = Some d
                          /\ flt d (min_follow_distance rules) = true in
  let event := (t, "LANE_CHANGE"%string, direction) in
  (forall st' out,
     process rules st event = Ok (st', out) ->
     st' = st
     /\ (count_type "UNSAFE_LANE_CHANGE" out = 1%nat <-> unsafe)
     /\ (out = [] <-> ~ unsafe))
  /\ ((exists out,
         process rules st event = Ok (st, out)
         /\ count_type "UNSAFE_LANE_CHANGE" out = 1%nat)
      <-> unsafe /\ formattable t = true)
  /\ (~ unsafe -> process rules st event = Ok (st, []))
  /\ (existsb is_follow_distance pre = false ->
      process rules st event = Ok (st, []))
  /\ (forall d tm,
        latest_follow pre = Some d ->
        flt d (min_follow_distance rules) = true ->
        _fmt_time t = Ok tm ->
        process rules st event
        = Ok (st, [{| type := "UNSAFE_LANE_CHANGE"; time := tm;
                      details := unsafe_lane_change_details rules d |}]))
  /\ (unsafe -> forall e,
        _fmt_time t = Raise e -> process rules st event = Raise e)
  /\ (forall direction' : string,
        process rules st (t, "LANE_CHANGE"%string, direction')
        = process rules st event).
Proof.
  intros Hs unsafe event.
  assert (Hl : last_follow st = latest_follow pre).
  { apply scan_last_follow in Hs. exact Hs. }
  assert (Hnone : existsb is_follow_distance pre = false ->
                  latest_follow pre = None).
  { intros H. unfold latest_follow.
    exact (follow_update_no_follow pre None H). }
  assert (Hsafe : ~ unsafe -> process rules st event = Ok (st, [])).
  { intros Hn. unfold event. rewrite process_lane_change, Hl.
    destruct (latest_follow pre) as [d|] eqn:El; [|reflexivity].
    destruct (flt d (min_follow_distance rules)) eqn:E; [|reflexivity].
    exfalso. apply Hn. now exists d. }
  assert (Htrue : forall d tm,
            latest_follow pre = Some d ->
            flt d (min_follow_distance rules) = true ->
            _fmt_time t = Ok tm ->
            process rules st event
            = Ok (st, [{| type := "UNSAFE_LANE_CHANGE"; time := tm;
                          details := unsafe_lane_change_details rules d |}])).
  { intros d tm El E Htm. unfold event.
    rewrite process_lane_change, Hl, El, E, (emit_ok _ _ _ _ Htm).
    reflexivity. }
  assert (Hraise : unsafe -> forall e,
            _fmt_time t = Raise e -> process rules st event = Raise e).
  { intros (d & El & E) e He. unfold event.
    rewrite process_lane_change, Hl, El, E, (emit_raise _ _ _ _ He).
    reflexivity. }
  assert (Hdec : unsafe \/ ~ unsafe).
  { unfold unsafe. destruct (latest_follow pre) as [d|].
    - destruct (flt d (min_follow_distance rules)) eqn:E.
      + left. now exists d.
      + right. intros (d' & H1 & H2). inversion H1; subst. congruence.
    - right. intros (d' & H1 & _). discriminate. }
  split; [|split; [|split; [exact Hsafe|split;
    [|split; [exact Htrue|split; [exact Hraise|reflexivity]]]]]].
  - intros st' out Hp. destruct Hdec as [Hu|Hn].
    + destruct Hu as (d & El & E).
      assert (Hu : unsafe) by now exists d.
      destruct (_fmt_time t) as [tm|e] eqn:Et.
      * rewrite (Htrue d tm El E eq_refl) in Hp.
        inversion Hp; subst st' out; clear Hp.
        split; [reflexivity|]. split; [split; [intros _; exact Hu|reflexivity]|].
        split; [discriminate|]. intros H. contradiction.
      * rewrite (Hraise Hu e eq_refl) in Hp. discriminate.
    + rewrite (Hsafe Hn) in Hp. inversion Hp; subst st' out; clear Hp.
      split; [reflexivity|]. split; [split; [discriminate|contradiction]|].
      split; [intros _; exact Hn|reflexivity].
  - split.
    + intros (out & Hp & Hc). destruct Hdec as [Hu|Hn].
      * split; [exact Hu|]. destruct (_fmt_time t) as [tm|e] eqn:Et.
        -- apply formattable_ok. now exists tm.
        -- rewrite (Hraise Hu e eq_refl) in Hp. discriminate.
      * rewrite (Hsafe Hn) in Hp. inversion Hp; subst out. discriminate.
    + intros [(d & El & E) Ht]. apply formattable_ok in Ht.
      destruct Ht as [tm Htm]. eexists.
      split; [exact (Htrue d tm El E Htm)|reflexivity].
  - intros H. apply Hsafe. intros (d & El & _). rewrite (Hnone H) in El.
    discriminate.
Qed.

Lemma unsafe_lane_change_iff_last_follow_below_witness :
  exists out,
    process Samples.rules60 Samples.tailgating
      (Ffin 3, "LANE_CHANGE"%string, "LEFT"%string)
      = Ok (Samples.tailgating, out)
    /\ count_type "UNSAFE_LANE_CHANGE" out = 1%nat.
Proof.
  destruct (unsafe_lane_change_iff_last_follow_below Samples.rules60
              [(Ffin 2, "FOLLOW_DISTANCE"%string, "5.0"%string)]
              Samples.tailgating
              [{| type := "TAILGATING"; time := "00:02.0";
                  details := "5.0 m < 10.0 m" |}]
              (Ffin 3) "LEFT" eq_refl) as (_ & [_ H] & _).
  apply H. split; [|reflexivity].
  exists (Ffin 5). split; reflexivity.
Defined.

(** A LANE_CHANGE event after a follow distance of 5, below the
    threshold of 10, at a time that cannot be formatted: the loop body
    raises what [int()] raises on a NaN, and the run returns nothing. *)
Lemma unsafe_lane_change_lost_at_infinite_time :
  Parser.parse_time "0:inf" = Ok Cases.at_infinity
  /\ scan Samples.rules60 initial_state
       [(Ffin 2, "FOLLOW_DISTANCE"%string, "5.0"%string)]
     = Ok (Samples.tailgating,
           [{| type := "TAILGATING"; time := "00:02.0";
               details := "5.0 m < 10.0 m" |}])
  /\ latest_follow [(Ffin 2, "FOLLOW_DISTANCE"%string, "5.0"%string)]
     = Some (Ffin 5)
  /\ flt (Ffin 5) (min_follow_distance Samples.rules60) = true
  /\ process Samples.rules60 Samples.tailgating
       (Cases.at_infinity, "LANE_CHANGE"%string, "LEFT"%string)
     = Raise NanToInt
  /\ detect_violations Samples.rules60
       [(Ffin 2, "FOLLOW_DISTANCE"%string, "5.0"%string);
        (Cases.at_infinity, "LANE_CHANGE"%string, "LEFT"%string)]
     = Raise NanToInt.
Proof. vm_compute. repeat split. Qed.

(** C1, amended.  A STOP_SIGN_DETECTED event at [t0] opens a wait, over
    whatever wait was pending.  Let the loop process the next events
    [mid], which hold no stop sign and no SPEED event above 1.0 read
    after [t0], and let a SPEED event of value [v > 1.0] at [t > t0]
    follow.  The wait is still open when that event is read, and nothing
    before it has appended a ROLLING_STOP violation.  Whenever the loop
    body returns on that event, the wait is closed, the event has
    appended one ROLLING_STOP violation when [t - t0 < stop_sign_wait]
    and none otherwise, equality included, and no event processed from
    there to the next stop sign appends a ROLLING_STOP violation.  The
    loop body returns on the event when its time can be formatted or when
    nothing is to be appended; when a SPEEDING or a ROLLING_STOP
    violation is to be appended and the time cannot be formatted, it
    raises the exception of [_fmt_time] instead: the wait is not closed,
    nothing is appended and the run ends there. *)
Theorem rolling_stop_fires_once (rules : road_rules) (st : detector_state)
    (t0 : float) (a0 : string) (mid : list Event)
    (st1 : detector_state) (out1 : list violation)
    (t : float) (arg : string) (v : float) :
  scan rules {| last_follow := last_follow st; stop_detect_time := Some t0 |}
    mid = Ok (st1, out1) ->
  existsb is_stop_sign mid = false ->
  existsb (resolves t0) mid = false ->
  of_string arg = Ok v ->
  flt one v = true ->
  flt t0 t = true ->
  let waited := fsub t t0 in
  let rolling := flt waited (stop_sign_wait rules) in
  let event : Event := (t, "SPEED"%string, arg) in
  let cleared := {| last_follow := last_follow st1;
                    stop_detect_time := None |} in
  process rules st (t0, "STOP_SIGN_DETECTED"%string, a0)
    = Ok ({| last_follow := last_follow st;
             stop_detect_time := Some t0 |}, [])
  /\ scan rules st ((t0, "STOP_SIGN_DETECTED"%string, a0) :: mid)
     = Ok (st1, out1)
  /\ stop_detect_time st1 = Some t0
  /\ count_type "ROLLING_STOP" out1 = 0%nat
  /\ (forall st2 out2,
        process rules st1 event = Ok (st2, out2) ->
        st2 = cleared
        /\ (count_type "ROLLING_STOP" out2 = 1%nat <-> rolling = true)
        /\ (count_type "ROLLING_STOP" out2 = 0%nat <-> rolling = false)
        /\ (feq (stop_sign_wait rules) waited = true
            -> count_type "ROLLING_STOP" out2 = 0%nat)
        /\ (rolling = true ->
            exists tm, _fmt_time t = Ok tm
              /\ In {| type := "ROLLING_STOP"; time := tm;
                       details := rolling_stop_details rules waited |} out2)
        /\ forall (post : list Event) st3 out3,
             existsb is_stop_sign post = false ->
             scan rules st2 post = Ok (st3, out3) ->
             stop_detect_time st3 = None
             /\ count_type "ROLLING_STOP" out3 = 0%nat
             /\ scan rules st
                  ((t0, "STOP_SIGN_DETECTED"%string, a0) :: mid
                     ++ event :: post)
                = Ok (st3, out1 ++ out2 ++ out3))
  /\ ((exists out2,
         process rules st1 event = Ok (cleared, out2)
         /\ count_type "ROLLING_STOP" out2 = 1%nat)
      <-> rolling = true /\ formattable t = true)
  /\ (formattable t = true ->
      exists out2, process rules st1 event = Ok (cleared, out2))
  /\ (flt (max_speed rules) v = false -> rolling = false ->
      process rules st1 event = Ok (cleared, []))
  /\ (flt (max_speed rules) v || rolling = true -> forall e,
        _fmt_time t = Raise e ->
        process rules st1 event = Raise e
        /\ forall post : list Event,
             scan rules st
               ((t0, "STOP_SIGN_DETECTED"%string, a0) :: mid
                  ++ event :: post) = Raise e).
Proof.
  intros Hmid Hms Hmr Hv H1 Hlt waited rolling event cleared.
  set (s0 := {| last_follow := last_follow st; stop_detect_time := Some t0 |})
    in *.
  destruct (scan_wait_kept rules mid s0 st1 out1 Hmid Hms Hmr) as [Hw1 Hc1].
  cbn [stop_detect_time s0] in Hw1.
  assert (Hscan1 : scan rules st
            ((t0, "STOP_SIGN_DETECTED"%string, a0) :: mid) = Ok (st1, out1)).
  { apply scan_cons. exists s0, [], out1.
    split; [apply process_stop_sign|]. split; [exact Hmid|reflexivity]. }
  assert (Heq : process rules st1 event =
            (sp <- (if flt (max_speed rules) v
                    then emit "SPEEDING" t (speeding_details rules v)
                    else Ok []) ;;
             rs <- (if rolling
                    then emit "ROLLING_STOP" t
                           (rolling_stop_details rules waited)
                    else Ok []) ;;
             Ok (cleared, (sp ++ rs)%list))).
  { unfold event. rewrite process_speed, Hv. cbn [bind].
    rewrite Hw1, H1, Hlt. reflexivity. }
  assert (Hinv : forall st2 out2,
            process rules st1 event = Ok (st2, out2) ->
            st2 = cleared
            /\ exists sp rs,
                 out2 = (sp ++ rs)%list
                 /\ appended (flt (max_speed rules) v) "SPEEDING" t
                      (speeding_details rules v) sp
                 /\ appended rolling "ROLLING_STOP" t
                      (rolling_stop_details rules waited) rs).
  { intros st2 out2 Hp.
    destruct (process_speed_inv rules st1 st2 t arg v out2 Hv Hp)
      as (sp & rs & -> & Hsp & Hrs).
    destruct Hrs as [(t0' & Et & _ & Ha & ->)|(_ & _ & Hn)].
    - rewrite Hw1 in Et. inversion Et; subst t0'.
      split; [reflexivity|]. now exists sp, rs.
    - rewrite Hw1, H1, Hlt in Hn. discriminate. }
  assert (Hcount : forall st2 out2,
            process rules st1 event = Ok (st2, out2) ->
            count_type "ROLLING_STOP" out2 = (if rolling then 1 else 0)%nat).
  { intros st2 out2 Hp.
    destruct (Hinv st2 out2 Hp) as (_ & sp & rs & -> & Hsp & Hrs).
    rewrite count_type_app.
    rewrite (count_type_appended _ _ "ROLLING_STOP" _ _ _ Hsp).
    rewrite (count_type_appended _ _ "ROLLING_STOP" _ _ _ Hrs).
    rewrite andb_false_r. destruct rolling; reflexivity. }
  assert (Hok : formattable t = true ->
                exists out2, process rules st1 event = Ok (cleared, out2)).
  { intros Ht. apply formattable_ok in Ht. destruct Ht as [tm Htm].
    rewrite Heq, !(emit_ok _ _ _ _ Htm).
    destruct (flt (max_speed rules) v), rolling; eexists; reflexivity. }
  assert (Hraise : flt (max_speed rules) v || rolling = true -> forall e,
            _fmt_time t = Raise e -> process rules st1 event = Raise e).
  { intros Hg e He. rewrite Heq, !(emit_raise _ _ _ _ He).
    destruct (flt (max_speed rules) v), rolling;
      try reflexivity; discriminate. }
  split; [apply process_stop_sign|].
  split; [exact Hscan1|].
  split; [exact Hw1|].
  split; [exact Hc1|].
  split; [|split; [|split; [exact Hok|split]]].
  - intros st2 out2 Hp. pose proof (Hcount st2 out2 Hp) as Hn.
    destruct (Hinv st2 out2 Hp) as (-> & sp & rs & Hout & _ & Hrs).
    split; [reflexivity|]. rewrite Hn.
    split; [destruct rolling; split; congruence|].
    split; [destruct rolling; split; congruence|].
    split.
    { intros H. apply flt_irrefl_feq in H. fold rolling in H. now rewrite H. }
    split.
    { intros Hr. unfold appended in Hrs. rewrite Hr in Hrs.
      destruct Hrs as (tm & Htm & ->). exists tm. split; [exact Htm|].
      rewrite Hout. apply in_or_app. right. now left. }
    intros post st3 out3 Hps Hs3.
    destruct (scan_wait_kept rules post cleared st3 out3 Hs3 Hps I)
      as [Hw3 Hc3].
    split; [exact Hw3|]. split; [exact Hc3|].
    rewrite app_comm_cons. apply scan_app.
    exists st1, out1, (out2 ++ out3). split; [exact Hscan1|].
    split; [|reflexivity].
    apply scan_cons. exists cleared, out2, out3.
    split; [exact Hp|]. split; [exact Hs3|reflexivity].
  - split.
    + intros (out2 & Hp & Hn). rewrite (Hcount _ _ Hp) in Hn.
      assert (Hr : rolling = true)
        by (destruct rolling; [reflexivity|discriminate]).
      split; [exact Hr|]. destruct (_fmt_time t) as [tm|e] eqn:E.
      * apply formattable_ok. now exists tm.
      * assert (Hg : flt (max_speed rules) v || rolling = true)
          by (rewrite Hr; apply orb_true_r).
        rewrite (Hraise Hg e eq_refl) in Hp. discriminate.
    + intros [Hr Ht]. destruct (Hok Ht) as [out2 Hp]. exists out2.
      split; [exact Hp|]. now rewrite (Hcount _ _ Hp), Hr.
  - intros Ha Hr. rewrite Heq, Ha, Hr. reflexivity.
  - intros Hg e He. pose proof (Hraise Hg e He) as Hp.
    split; [exact Hp|]. intros post.
    pose proof (scan_app_eq rules ((t0, "STOP_SIGN_DETECTED"%string, a0) :: mid)
                  (event :: post) st) as Happ.
    rewrite Hscan1 in Happ. cbn [bind fst snd scan] in Happ.
    rewrite Hp in Happ. exact Happ.
Qed.

Lemma rolling_stop_fires_once_witness :
  exists out2,
    scan Samples.rules60
      {| last_follow := last_follow Samples.waiting;
         stop_detect_time := Some (Fzero false) |}
      [(Ffin 1, "SPEED"%string, "0.5"%string)]
    = Ok ({| last_follow := None; stop_detect_time := Some (Fzero false) |}, [])
    /\ process Samples.rules60
         {| last_follow := None; stop_detect_time := Some (Fzero false) |}
         (Ffin (5 # 2), "SPEED"%string, "1.1"%string)
       = Ok ({| last_follow := None; stop_detect_time := None |}, out2)
    /\ count_type "ROLLING_STOP" out2 = 1%nat.
Proof.
  destruct (rolling_stop_fires_once Samples.rules60 Samples.waiting
              (Fzero false) EmptyString [(Ffin 1, "SPEED"%string, "0.5"%string)]
              {| last_follow := None; stop_detect_time := Some (Fzero false) |}
              []
              (Ffin (5 # 2)) "1.1"
              (Ffin (2476979795053773 # 2251799813685248))
              eq_refl eq_refl eq_refl eq_refl eq_refl eq_refl)
    as (_ & _ & _ & _ & _ & [_ H] & _).
  destruct H as (out2 & Hp & Hn); [split; reflexivity|].
  exists out2. split; [reflexivity|]. split; [exact Hp|exact Hn].
Defined.

(** A stop sign at 0:00 and then a SPEED event of 70, above 1.0 and
    above the limit of 60, at the time that [parse_time] reads from
    ["0:inf"], later than 0:00: the loop body raises what [int()] raises
    on a NaN while the SPEEDING violation is built, before the wait is
    looked at; the wait is not closed and the run returns nothing. *)
Lemma rolling_stop_wait_not_cleared_at_infinite_time :
  Reader.read_events ["0:00 STOP_SIGN_DETECTED"; "0:inf SPEED 70.0"]%string
  = Returns [(Fzero false, "STOP_SIGN_DETECTED"%string, EmptyString);
             (Cases.at_infinity, "SPEED"%string, "70.0"%string)]
  /\ of_string "70.0" = Ok (Ffin 70)
  /\ flt one (Ffin 70) = true
  /\ flt (Fzero false) Cases.at_infinity = true
  /\ process Samples.rules60
       {| last_follow := None; stop_detect_time := Some (Fzero false) |}
       (Cases.at_infinity, "SPEED"%string, "70.0"%string) = Raise NanToInt
  /\ detect_violations Samples.rules60
       [(Fzero false, "STOP_SIGN_DETECTED"%string, EmptyString);
        (Cases.at_infinity, "SPEED"%string, "70.0"%string)]
     = Raise NanToInt.
Proof. vm_compute. repeat split. Qed.

(** ** Events of unknown kind *)

(** C6, amended.  A run over a sequence that holds an event of unknown
    kind never returns a list: it raises.  What it raises is settled by
    the events before the first such event: when the loop processes them
    all, the exception is the one for that kind; when one of them makes
    the loop body raise -- a SPEED or FOLLOW_DISTANCE argument that is no
    number, a violation whose time cannot be formatted -- the run raises
    that exception and the event of unknown kind is never read.  On the
    empty sequence the run returns the empty list. *)
Theorem unknown_kind_aborts_run (rules : road_rules) (pre : list Event)
    (t : float) (kind arg : string) (post : list Event) :
  known_kind kind = false ->
  let events := pre ++ (t, kind, arg) :: post in
  detect_violations rules events
  = match scan rules initial_state pre with
    | Ok _ => Raise (UnknownEventKind kind)
    | Raise e => Raise e
    end
  /\ (exists e, detect_violations rules events = Raise e)
  /\ (forall vs, detect_violations rules events <> Ok vs)
  /\ (is_ok (scan rules initial_state pre) = true ->
      detect_violations rules events = Raise (UnknownEventKind kind))
  /\ (forallb event_ok pre = true ->
      detect_violations rules events = Raise (UnknownEventKind kind))
  /\ (forall e, scan rules initial_state pre = Raise e ->
      detect_violations rules events = Raise e)
  /\ detect_violations rules [] = Ok [].
Proof.
  intros Hk events.
  assert (Heq : detect_violations rules events
                = match scan rules initial_state pre with
                  | Ok _ => Raise (UnknownEventKind kind)
                  | Raise e => Raise e
                  end).
  { unfold detect_violations, events. rewrite scan_app_eq.
    destruct (scan rules initial_state pre) as [[st1 o1]|e]; [|reflexivity].
    cbn [bind fst snd scan].
    now rewrite (process_unknown rules st1 t arg kind Hk). }
  split; [exact Heq|]. rewrite Heq.
  split.
  { destruct (scan rules initial_state pre) as [r|e]; eexists; reflexivity. }
  split.
  { intros vs. destruct (scan rules initial_state pre); discriminate. }
  split.
  { destruct (scan rules initial_state pre); [reflexivity|discriminate]. }
  split.
  { intros Hok.
    destruct (scan_total rules pre initial_state Hok) as [r ->].
    reflexivity. }
  split; [|reflexivity].
  intros e ->. reflexivity.
Qed.

Lemma unknown_kind_aborts_run_witness :
  detect_violations Samples.rules60
    [(Ffin 1, "SPEED"%string, "70.0"%string);
     (Ffin 2, "UNKNOWN"%string, EmptyString);
     (Ffin 3, "SPEED"%string, "80.0"%string)]
  = Raise (UnknownEventKind "UNKNOWN").
Proof.
  destruct (unknown_kind_aborts_run Samples.rules60
              [(Ffin 1, "SPEED"%string, "70.0"%string)]
              (Ffin 2) "UNKNOWN" EmptyString
              [(Ffin 3, "SPEED"%string, "80.0"%string)] eq_refl)
    as (_ & _ & _ & H & _).
  apply H. reflexivity.
Defined.

(** An event of unknown kind after a SPEED event whose argument is no
    number, and after a SPEED event above the limit whose time cannot be
    formatted: the run raises what [float()] and what [int()] raise, not
    the exception of the unknown kind. *)
Lemma unknown_kind_after_failing_event :
  known_kind "BOGUS" = false
  /\ detect_violations Samples.rules60
       [(Ffin 1, "SPEED"%string, "fast"%string);
        (Ffin 2, "BOGUS"%string, EmptyString)]
     = Raise (BadFloatLiteral "fast")
  /\ detect_violations Samples.rules60
       [(Cases.at_infinity, "SPEED"%string, "70.0"%string);
        (Ffin 2, "BOGUS"%string, EmptyString)]
     = Raise NanToInt.
Proof. vm_compute. repeat split. Qed.

(** ** The order of the returned list *)

















(** ** The name of the report *)

Lemma drop_while_none (p : ascii -> bool) (l : list ascii) :
  Forall (fun c => p c = false) l -> PyStr.drop_while p l = l.
Proof.
  intros H. destruct H as [|c l Hc Hl]; [reflexivity|].
  cbn [PyStr.drop_while]. now rewrite Hc.
Qed.

Lemma strip_with_none (p : ascii -> bool) (l : list ascii) :
  Forall (fun c => p c = false) l -> PyStr.strip_with p l = l.
Proof.
  intros H. unfold PyStr.strip_with.
  rewrite (drop_while_none p l H), drop_while_none, rev_involutive;
    [reflexivity|].
  now apply Forall_rev.
Qed.

Lemma digit_not_space (c : ascii) :
  PyStr.is_digit c = true -> PyStr.is_space c = false.
Proof.
  unfold PyStr.is_digit, PyStr.is_space. cbv zeta. intros H.
  apply andb_true_iff in H. destruct H as [H1 H2].
  apply N.leb_le in H1. apply N.leb_le in H2.
  repeat (apply orb_false_iff; split);
    try (apply andb_false_iff; (left; apply N.leb_gt; lia)
                               || (right; apply N.leb_gt; lia));
    apply N.eqb_neq; lia.
Qed.

(** [str(n)] has no white space: [strip] leaves it as it is, and it is
    not empty. *)
Lemma strip_format_d (n : Z) :
  PyStr.strip (PyInt.format_d 0 n) = PyInt.format_d 0 n
  /\ PyInt.format_d 0 n <> EmptyString.
Proof.
  unfold PyStr.strip, PyInt.format_d.
  rewrite list_ascii_of_string_of_list_ascii.
  assert (Hd : all_digits (PyStr.digits_of (Z.abs n)))
    by (apply digits_of_all_digits; lia).
  assert (Hz : forall k, Forall (fun c => PyStr.is_space c = false)
                           (PyInt.zeros k)).
  { intros k. unfold PyInt.zeros. induction k; constructor; auto. }
  assert (Hs : Forall (fun c => PyStr.is_space c = false)
                 (PyInt.zero_pad 0 (n <? 0)%Z (PyStr.digits_of (Z.abs n)))).
  { unfold PyInt.zero_pad. apply Forall_app. split.
    - destruct (n <? 0)%Z; repeat constructor.
    - apply Forall_app. split; [apply Hz|].
      unfold all_digits in Hd. rewrite Forall_forall in *.
      intros c Hc. apply digit_not_space. now apply Hd. }
  split.
  - now rewrite (strip_with_none _ _ Hs).
  - intros E. pose proof (format_d_has_digit 0 n) as H.
    unfold PyInt.format_d in H. rewrite E in H. discriminate.
Qed.

(** C9, amended.  The report holds the violation list it was given,
    unchanged, and its length as [total_violations].  Its [scenario] is
    ["Unnamed"] when there is no scenario, when the scenario has no name,
    and when the name is false for [not]: [None], [False], the integer 0,
    the empty string; it is ["Unnamed"] also when the name is a string of
    white space.  Otherwise it is the text of the name, [str(name)],
    stripped of surrounding white space: the stripped string, ["True"],
    the decimal digits of a non-zero integer. *)
Theorem make_report_fields (scenario : option Report.dict)
    (violations : list violation) :
  let r := Report.make_report scenario violations in
  Report.total_violations r = Z.of_nat (List.length violations)
  /\ Report.violations r = violations
  /\ (scenario = None -> Report.scenario r = "Unnamed"%string)
  /\ (forall d, scenario = Some d ->
        (forall v, ~ In ("name"%string, v) d) ->
        Report.scenario r = "Unnamed"%string)
  /\ (forall d, scenario = Some d ->
        Report.scenario r
        = match Report.get d "name" with
          | Report.PNone => "Unnamed"%string
          | Report.PBool b => if b then "True"%string else "Unnamed"%string
          | Report.PInt n =>
              if (n =? 0)%Z then "Unnamed"%string else PyInt.format_d 0 n
          | Report.PStr s =>
              if forallb PyStr.is_space (list_ascii_of_string s)
              then "Unnamed"%string
              else PyStr.strip s
          end)
  /\ (forall d, scenario = Some d ->
        Report.truthy (Report.get d "name") = false ->
        Report.scenario r = "Unnamed"%string)
  /\ (forall d, scenario = Some d ->
        Report.truthy (Report.get d "name") = true ->
        Report.scenario r
        = if forallb PyStr.is_space
               (list_ascii_of_string (Report.str (Report.get d "name")))
          then "Unnamed"%string
          else PyStr.strip (Report.str (Report.get d "name"))).
Proof.
  cbv zeta. split; [reflexivity|]. split; [reflexivity|].
  assert (Hfalsy : forall d, Report.truthy (Report.get d "name") = false ->
            Report.scenario (Report.make_report (Some d) violations)
            = "Unnamed"%string).
  { intros d H. cbn [Report.make_report Report.scenario]. now rewrite H. }
  assert (Htruthy : forall d, Report.truthy (Report.get d "name") = true ->
            Report.scenario (Report.make_report (Some d) violations)
            = if forallb PyStr.is_space
                   (list_ascii_of_string (Report.str (Report.get d "name")))
              then "Unnamed"%string
              else PyStr.strip (Report.str (Report.get d "name"))).
  { intros d H. cbn [Report.make_report Report.scenario]. rewrite H.
    cbn [negb orb Report.truthy].
    destruct (forallb PyStr.is_space _) eqn:Hw.
    - apply strip_empty_iff in Hw. now rewrite Hw.
    - assert (Hs : (PyStr.strip (Report.str (Report.get d "name"))
                    =? EmptyString)%string = false).
      { apply String.eqb_neq. intros E. apply strip_empty_iff in E.
        congruence. }
      now rewrite Hs. }
  split; [intros ->; reflexivity|].
  split.
  { intros d -> H. apply Hfalsy. now rewrite (get_absent d "name" H). }
  split; [|split; [intros d ->; apply Hfalsy|intros d ->; apply Htruthy]].
  intros d ->. destruct (Report.get d "name") as [|b|n|s] eqn:Hg.
  - apply Hfalsy. now rewrite Hg.
  - destruct b.
    + rewrite Htruthy by now rewrite Hg. rewrite Hg. reflexivity.
    + apply Hfalsy. now rewrite Hg.
  - destruct (Z.eqb_spec n 0) as [->|Hn].
    + apply Hfalsy. now rewrite Hg.
    + rewrite Htruthy
        by (rewrite Hg; cbn [Report.truthy]; apply negb_true_iff;
            now apply Z.eqb_neq).
      rewrite Hg. cbn [Report.str].
      destruct (strip_format_d n) as [Hs Hne].
      destruct (forallb PyStr.is_space _) eqn:Hw; [|exact Hs].
      apply strip_empty_iff in Hw. rewrite Hs in Hw. contradiction.
  - destruct (s =? EmptyString)%string eqn:Es.
    + apply String.eqb_eq in Es. subst s.
      rewrite Hfalsy by now rewrite Hg. reflexivity.
    + rewrite Htruthy by (rewrite Hg; cbn [Report.truthy]; now rewrite Es).
      rewrite Hg. reflexivity.
Qed.

Lemma make_report_fields_witness :
  Report.scenario
    (Report.make_report
       (Some [("name"%string, Report.PStr "  Campus Drive ")]) [])
  = "Campus Drive"%string.
Proof.
  destruct (make_report_fields
              (Some [("name"%string, Report.PStr "  Campus Drive ")]) [])
    as (_ & _ & _ & _ & H & _).
  exact (H _ eq_refl).
Defined.

(** Two names that are neither absent, nor [None], nor white space: the
    integer 0 and [False].  Their texts are ["0"] and ["False"], with
    nothing to strip, and the report is named ["Unnamed"]. *)
Lemma make_report_falsy_name_is_unnamed :
  Report.scenario
    (Report.make_report (Some [("name"%string, Report.PInt 0)]) [])
  = "Unnamed"%string
  /\ PyStr.strip (Report.str (Report.PInt 0)) = "0"%string
  /\ Report.scenario
       (Report.make_report (Some [("name"%string, Report.PBool false)]) [])
     = "Unnamed"%string
  /\ PyStr.strip (Report.str (Report.PBool false)) = "False"%string
  /\ Report.scenario
       (Report.make_report (Some [("name"%string, Report.PInt 7)]) [])
     = "7"%string.
Proof. vm_compute. repeat split. Qed.
